(** * icuemagic: the colour bridge of [bridge.py]

    A shallow embedding of the three classes of [bridge.py] that make up the
    colour bridge: [iCueController] (the polled source), [MagicHomeController]
    (the network actuator) and [start_bridge] (the driving loop), followed by
    the properties of the design document that can be decided on them.

    Python values are modelled as follows.
    - [int] is [Z] (unbounded).
    - [float] is the kernel's binary64 [float]; [int / int], [int * float],
      [int + float] and [int(float)] are the IEEE 754 operations of
      [SpecFloat] and [PrimFloat], rounding to nearest, ties to even.
    - an object attribute that may be [None] is an [option].
    - exceptions are a result type; [except Exception] catches every class
      but [KeyboardInterrupt].
    - the vendor SDK, the bulb, and [time.sleep] are an environment of
      oracles, asked in the order of the calls. *)

From Stdlib Require Import ZArith List Lia Bool String Sorted Permutation.
From Stdlib Require Import Floats Uint63.
Import ListNotations.

Open Scope Z_scope.

(** ** Exceptions and results *)

Module Py.

(** The exception classes that occur.  All but [KeyboardInterrupt] derive
    from [Exception]. *)
Inductive exn : Type :=
| RuntimeError (msg : string)
| ZeroDivisionError
| OverflowError
| ValueError
| DeviceError
| KeyboardInterrupt.

Definition is_Exception (e : exn) : bool :=
  match e with
  | KeyboardInterrupt => false
  | _ => true
  end.

Inductive result (A : Type) : Type :=
| Ok (a : A)
| Raise (e : exn).

Arguments Ok {A} a.
Arguments Raise {A} e.

Definition rbind {A B : Type} (r : result A) (k : A -> result B) : result B :=
  match r with
  | Ok a => k a
  | Raise e => Raise e
  end.

(** ** Numbers *)

(** An [int] with its sign and magnitude, as an unrounded binary value. *)
Definition Z2SF (z : Z) : spec_float :=
  match z with
  | Z0 => S754_zero false
  | Zpos p => S754_finite false p 0
  | Zneg p => S754_finite true p 0
  end.

(** [float(z)], the conversion applied to the [int] operand of a mixed
    operation: the nearest binary64 value.  (Beyond the binary64 range Python
    raises [OverflowError] at the conversion; here the value is an infinity
    and the error is raised by the [int(...)] that every use in [bridge.py]
    applies to the result, with nothing in between.) *)
Definition float_of_int (z : Z) : float :=
  SF2Prim (binary_normalize prec emax z 0 false).

(** [a / b] on two [int]s: true division, the quotient correctly rounded to
    binary64; [ZeroDivisionError] when [b] is zero. *)
Definition int_truediv (a b : Z) : result float :=
  if b =? 0 then Raise ZeroDivisionError
  else Ok (SF2Prim (SFdiv prec emax (Z2SF a) (Z2SF b))).

(** Truncation toward zero of a binary value. *)
Definition trunc_SF (x : spec_float) : result Z :=
  match x with
  | S754_zero _ => Ok 0
  | S754_finite s m e =>
      let q := match e with
               | Z0 => Zpos m
               | Zpos _ => Z.shiftl (Zpos m) e
               | Zneg k => Z.shiftr (Zpos m) (Zpos k)
               end in
      Ok (if s then - q else q)
  | S754_infinity _ => Raise OverflowError
  | S754_nan => Raise ValueError
  end.

(** [int(f)] on a [float]. *)
Definition int_of_float (f : float) : result Z := trunc_SF (Prim2SF f).

(** [sum(...)] over [int]s. *)
Definition sum (l : list Z) : Z := fold_left Z.add l 0.

(** [len(...)]. *)
Definition len {A : Type} (l : list A) : Z := Z.of_nat (List.length l).

End Py.

Import Py.

(** ** Colours *)

(** An RGB triple, the tuple [(r, g, b)]. *)
Definition color : Type := Z * Z * Z.

Definition red (c : color) : Z := fst (fst c).
Definition green (c : color) : Z := snd (fst c).
Definition blue (c : color) : Z := snd c.

Definition color_eqb (c d : color) : bool :=
  (red c =? red d) && (green c =? green d) && (blue c =? blue d).

(** Each channel within [0, 255]. *)
Definition channel_ok (v : Z) : Prop := 0 <= v <= 255.

Definition color_ok (c : color) : Prop :=
  channel_ok (red c) /\ channel_ok (green c) /\ channel_ok (blue c).

(** ** [MagicHomeController.interpolate_color] *)

(** One channel: [int(start + (end - start) * progress)]. *)
Definition interpolate_channel (start_c end_c : Z) (progress : float) : result Z :=
  int_of_float (float_of_int start_c + float_of_int (end_c - start_c) * progress)%float.

Definition interpolate_color (start_color end_color : color) (progress : float)
  : result color :=
  rbind (interpolate_channel (red start_color) (red end_color) progress) (fun r =>
  rbind (interpolate_channel (green start_color) (green end_color) progress) (fun g =>
  rbind (interpolate_channel (blue start_color) (blue end_color) progress) (fun b =>
  Ok (r, g, b)))).

(** ** The averaging step of [iCueController.get_average_color] *)

(** A [CorsairLedColor] as the SDK returns it. *)
Record led : Type := mkLed { led_id : Z; led_r : Z; led_g : Z; led_b : Z; led_a : Z }.

(** [int(total / count)]. *)
Definition int_mean (total count : Z) : result Z :=
  rbind (int_truediv total count) int_of_float.

(** Lines 158-166: the three sums, the count and the three quotients. *)
Definition average_color (led_colors : list led) : result color :=
  let total_r := sum (map led_r led_colors) in
  let total_g := sum (map led_g led_colors) in
  let total_b := sum (map led_b led_colors) in
  let count := len led_colors in
  rbind (int_mean total_r count) (fun avg_r =>
  rbind (int_mean total_g count) (fun avg_g =>
  rbind (int_mean total_b count) (fun avg_b =>
  Ok (avg_r, avg_g, avg_b)))).

(** ** The fade of [MagicHomeController.set_color], as values *)

(** [self.transition_steps]. *)
Definition transition_steps : Z := 10.

(** [self.transition_delay], in milliseconds. *)
Definition transition_delay_ms : Z := 20.

(** [range(1, self.transition_steps + 1)]. *)
Definition fade_steps : list Z := map Z.of_nat (seq 1 (Z.to_nat transition_steps)).

(** The colour of one step: [progress = step / self.transition_steps], then
    [interpolate_color]. *)
Definition fade_color (last target : color) (step : Z) : result color :=
  rbind (int_truediv step transition_steps) (interpolate_color last target).

Definition fade_channel (s e step : Z) : result Z :=
  rbind (int_truediv step transition_steps) (interpolate_channel s e).

(** ** The devices *)

(** A device as [sdk.get_devices] lists it. *)
Record device : Type := mkDevice { device_id : string; device_model : string }.

(** What the program does to the outside, in order.  [CallTurnOff] marks the
    entry of [MagicHomeController.turn_off]. *)
Inductive event : Type :=
| SdkConnect
| SdkDisconnect
| SdkGetDevices
| SdkGetLedPositions (id : string)
| SdkGetLedColors (id : string) (leds : list Z)
| Sleep (ms : Z)
| BulbNew (ip : string)
| BulbConnect
| BulbSetRgb (c : color)
| BulbTurnOff
| CallTurnOff.

(** What the outside answers.  Every call is answered by the oracle of its
    kind at the number of calls made so far; an answer is a value or an
    exception.  A list the SDK returns may be [None]. *)
Record env : Type := mkEnv {
  sdk_connect : nat -> result bool;
  sdk_disconnect : nat -> result unit;
  sdk_get_devices : nat -> result (option (list device));
  sdk_get_led_positions : nat -> result (option (list Z));
  sdk_get_led_colors : nat -> result (option (list led));
  time_sleep : nat -> result unit;
  bulb_new : nat -> result unit;
  bulb_connect : nat -> result unit;
  bulb_setRgb : nat -> result unit;
  bulb_turnOff : nat -> result unit
}.

(** The attributes of an [iCueController]. *)
Record icue_state : Type := mkIcue {
  icue_device_id : string;
  icue_device : option device;
  icue_led_ids : list Z;
  icue_last_colors : option (list color)
}.

(** The attributes of a [MagicHomeController]; [magic_bulb] is whether
    [self.bulb] is an object rather than [None]. *)
Record magic_state : Type := mkMagic {
  magic_ip : string;
  magic_bulb : bool;
  magic_last_color : option color
}.

Record state : Type := mkState {
  icue : icue_state;
  magic : magic_state;
  clock : nat;
  trace : list event
}.

(** ** A state and exception monad *)

Definition M (A : Type) : Type := state -> result A * state.

Definition ret {A : Type} (a : A) : M A := fun s => (Ok a, s).

Definition bind {A B : Type} (m : M A) (k : A -> M B) : M B :=
  fun s => match m s with
           | (Ok a, s') => k a s'
           | (Raise e, s') => (Raise e, s')
           end.

Definition raise {A : Type} (e : exn) : M A := fun s => (Raise e, s).

(** A pure computation that may raise. *)
Definition lift {A : Type} (r : result A) : M A := fun s => (r, s).

(** [try: m  except Exception as e: h e]. *)
Definition try_except {A : Type} (m : M A) (h : exn -> M A) : M A :=
  fun s => match m s with
           | (Ok a, s') => (Ok a, s')
           | (Raise e, s') => if is_Exception e then h e s' else (Raise e, s')
           end.

Declare Scope monad_scope.
Delimit Scope monad_scope with monad.
Notation "x <- m ;; k" := (bind m (fun x => k))
  (at level 61, m at next level, right associativity) : monad_scope.
Notation "m ;; k" := (bind m (fun _ => k))
  (at level 61, right associativity) : monad_scope.
Open Scope monad_scope.

Definition get_icue : M icue_state := fun s => (Ok (icue s), s).
Definition get_magic : M magic_state := fun s => (Ok (magic s), s).

Definition put_icue (i : icue_state) : M unit :=
  fun s => (Ok tt, mkState i (magic s) (clock s) (trace s)).
Definition put_magic (m : magic_state) : M unit :=
  fun s => (Ok tt, mkState (icue s) m (clock s) (trace s)).

Definition set_device (d : option device) : M unit :=
  i <- get_icue ;;
  put_icue (mkIcue (icue_device_id i) d (icue_led_ids i) (icue_last_colors i)).
Definition set_led_ids (l : list Z) : M unit :=
  i <- get_icue ;;
  put_icue (mkIcue (icue_device_id i) (icue_device i) l (icue_last_colors i)).
Definition set_last_colors (c : option (list color)) : M unit :=
  i <- get_icue ;;
  put_icue (mkIcue (icue_device_id i) (icue_device i) (icue_led_ids i) c).
Definition set_bulb (b : bool) : M unit :=
  m <- get_magic ;;
  put_magic (mkMagic (magic_ip m) b (magic_last_color m)).
Definition set_last_color (c : option color) : M unit :=
  m <- get_magic ;;
  put_magic (mkMagic (magic_ip m) (magic_bulb m) c).

(** One call to the outside: the event is recorded, the clock advances, and
    the oracle's answer is returned or raised. *)
Definition call {A : Type} (oracle : nat -> result A) (ev : event) : M A :=
  fun s => (oracle (clock s), mkState (icue s) (magic s) (S (clock s)) (trace s ++ [ev])).

(** A mark in the trace; not a call, the clock stands. *)
Definition mark (ev : event) : M unit :=
  fun s => (Ok tt, mkState (icue s) (magic s) (clock s) (trace s ++ [ev])).

(** Truth value of a list that may be [None]. *)
Definition truthy {A : Type} (l : option (list A)) : bool :=
  match l with
  | Some (_ :: _) => true
  | _ => false
  end.

Definition elements {A : Type} (l : option (list A)) : list A :=
  match l with
  | Some l => l
  | None => []
  end.

(** ** [iCueController] *)

Section Bridge.

Variable E : env.

(** [_find_device] *)
Definition find_device : M (option device) :=
  devices <- call (sdk_get_devices E) SdkGetDevices ;;
  self <- get_icue ;;
  ret (if truthy devices
       then find (fun d => String.eqb (device_id d) (icue_device_id self)) (elements devices)
       else None).

(** [_find_all_led_ids] *)
Definition find_all_led_ids : M (list Z) :=
  self <- get_icue ;;
  match icue_device self with
  | None => ret []
  | Some d =>
      led_positions <- call (sdk_get_led_positions E) (SdkGetLedPositions (device_id d)) ;;
      if negb (truthy led_positions) then ret [] else ret (elements led_positions)
  end.

(** [reconnect]: the handler logs and raises again, so an exception of the
    body is the exception of the call. *)
Definition reconnect : M unit :=
  call (sdk_disconnect E) SdkDisconnect ;;
  call (time_sleep E) (Sleep 2000) ;;
  connected <- call (sdk_connect E) SdkConnect ;;
  (if negb connected then raise (RuntimeError "Could not connect to iCUE SDK") else ret tt) ;;
  call (time_sleep E) (Sleep 1000) ;;
  d <- find_device ;;
  set_device d ;;
  self <- get_icue ;;
  (match d with
   | None => raise (RuntimeError ("Device not found: " ++ icue_device_id self))
   | Some _ => ret tt
   end) ;;
  ids <- find_all_led_ids ;;
  set_led_ids ids.

(** [__init__]: the attributes, then the same steps as [reconnect] without
    the disconnect. *)
Definition icue_init (dev_id : string) : M unit :=
  put_icue (mkIcue dev_id None [] None) ;;
  connected <- call (sdk_connect E) SdkConnect ;;
  (if negb connected then raise (RuntimeError "Could not connect to iCUE SDK") else ret tt) ;;
  call (time_sleep E) (Sleep 1000) ;;
  d <- find_device ;;
  set_device d ;;
  self <- get_icue ;;
  (match d with
   | None => raise (RuntimeError ("Device not found: " ++ icue_device_id self))
   | Some _ => ret tt
   end) ;;
  ids <- find_all_led_ids ;;
  set_led_ids ids.

(** [(led.r, led.g, led.b)] *)
Definition rgb (l : led) : color := (led_r l, led_g l, led_b l).

(** [current_colors == self.last_colors] *)
Definition colors_eqb (current : list color) (last : option (list color)) : bool :=
  match last with
  | None => false
  | Some l => (Nat.eqb (List.length current) (List.length l))
              && forallb (fun p => color_eqb (fst p) (snd p)) (combine current l)
  end.

(** Lines 152-166, on the colours read. *)
Definition sample_colors (led_colors : list led) : M (option color) :=
  let current_colors := map rgb led_colors in
  self <- get_icue ;;
  if colors_eqb current_colors (icue_last_colors self) then ret None
  else
    set_last_colors (Some current_colors) ;;
    c <- lift (average_color led_colors) ;;
    ret (Some c).

(** The body of the [try] of [get_average_color], lines 144-166. *)
Definition read_colors (d : device) : M (option color) :=
  self <- get_icue ;;
  led_colors <- call (sdk_get_led_colors E) (SdkGetLedColors (device_id d) (icue_led_ids self)) ;;
  if negb (truthy led_colors) then
    reconnect ;; ret None
  else sample_colors (elements led_colors).

(** [get_average_color] *)
Definition get_average_color : M (option color) :=
  self <- get_icue ;;
  match icue_device self, icue_led_ids self with
  | Some d, _ :: _ =>
      try_except (read_colors d) (fun _ => reconnect ;; ret None)
  | _, _ => reconnect ;; ret None
  end.

(** ** [MagicHomeController] *)

(** [connect] *)
Definition magic_connect : M unit :=
  self <- get_magic ;;
  try_except
    (call (bulb_new E) (BulbNew (magic_ip self)) ;;
     set_bulb true ;;
     call (bulb_connect E) BulbConnect)
    (fun _ => set_bulb false).

(** One pass of the loop of lines 224-236, with the value of
    [self.last_color], which no pass changes; [false] is the [return] of the
    handler. *)
Definition fade_step (last target : color) (step : Z) : M bool :=
  current_color <- lift (fade_color last target step) ;;
  try_except
    (call (bulb_setRgb E) (BulbSetRgb current_color) ;;
     call (time_sleep E) (Sleep transition_delay_ms) ;;
     ret true)
    (fun _ => set_bulb false ;; ret false).

(** The [for] loop; [false] when a pass returned. *)
Fixpoint fade (last target : color) (steps : list Z) : M bool :=
  match steps with
  | [] => ret true
  | step :: rest =>
      ok <- fade_step last target step ;;
      if ok then fade last target rest else ret false
  end.

(** [set_color] *)
Definition set_color (c : color) : M unit :=
  self <- get_magic ;;
  (if negb (magic_bulb self) then magic_connect else ret tt) ;;
  self <- get_magic ;;
  if negb (magic_bulb self) then ret tt
  else
    done <- match magic_last_color self with
            | Some last => fade last c fade_steps
            | None =>
                try_except
                  (call (bulb_setRgb E) (BulbSetRgb c) ;; ret true)
                  (fun _ => set_bulb false ;; ret false)
            end ;;
    if done then set_last_color (Some c) else ret tt.

(** [turn_off] *)
Definition turn_off : M unit :=
  mark CallTurnOff ;;
  self <- get_magic ;;
  (if negb (magic_bulb self) then magic_connect else ret tt) ;;
  self <- get_magic ;;
  if negb (magic_bulb self) then ret tt
  else
    try_except
      (call (bulb_turnOff E) BulbTurnOff)
      (fun _ => set_bulb false).

(** ** [start_bridge] *)

(** One pass of the [while True] loop. *)
Definition tick : M unit :=
  c <- get_average_color ;;
  (match c with
   | Some c => set_color c
   | None => ret tt
   end) ;;
  call (time_sleep E) (Sleep 100).

(** [n] passes, or fewer when one raises. *)
Fixpoint ticks (n : nat) : M unit :=
  match n with
  | O => ret tt
  | S k => tick ;; ticks k
  end.

(** What follows the loop once a pass has raised: both [except] clauses only
    print, then the [finally] clause runs [turn_off] in a [try] of its own. *)
Definition bridge_stop : M unit :=
  try_except turn_off (fun _ => ret tt).

(** Lines 328-345.  The loop leaves only by an exception, so with [fuel]
    passes allowed the result is [None] while the bridge is still running. *)
Definition bridge_run (fuel : nat) (s : state) : option (result unit * state) :=
  match ticks fuel s with
  | (Ok _, _) => None
  | (Raise _, s') => Some (bridge_stop s')
  end.

(** Lines 317-324: the two constructors. *)
Definition bridge_init (dev_id ip : string) : M unit :=
  icue_init dev_id ;;
  put_magic (mkMagic ip false None).

(** [start_bridge]: an [Exception] of a constructor is logged and the
    function returns; anything else it raises passes through. *)
Definition start_bridge (dev_id ip : string) (fuel : nat) (s : state)
  : option (result unit * state) :=
  match bridge_init dev_id ip s with
  | (Ok _, s') => bridge_run fuel s'
  | (Raise e, s') => if is_Exception e then Some (Ok tt, s') else Some (Raise e, s')
  end.

End Bridge.

(** The colours written to the bulb, in order. *)
Definition writes (tr : list event) : list color :=
  flat_map (fun ev => match ev with BulbSetRgb c => [c] | _ => [] end) tr.

(** How often [turn_off] was entered. *)
Definition turn_off_calls (tr : list event) : nat :=
  List.length (filter (fun ev => match ev with CallTurnOff => true | _ => false end) tr).

(** ** The setup wizards *)

(** [icue_device_wizard], lines 27-57; what it prints is left out.  The
    first listed device is chosen. *)
Definition icue_device_wizard (E : env) : M string :=
  connected <- call (sdk_connect E) SdkConnect ;;
  (if negb connected then raise (RuntimeError "Could not connect to iCUE SDK") else ret tt) ;;
  call (time_sleep E) (Sleep 1000) ;;
  devices <- call (sdk_get_devices E) SdkGetDevices ;;
  match devices with
  | Some (device :: _) => ret (device_id device)
  | _ => raise (RuntimeError "No iCUE devices found")
  end.

(** A [dict] with string keys and values, as [getBulbInfo] returns one per
    controller. *)
Definition dict : Type := list (string * string).

(** [d[key]]: the value, or [None] where Python raises [KeyError]. *)
Definition dict_get (key : string) (d : dict) : option string :=
  option_map snd (find (fun p => String.eqb (fst p) key) d).

(** What the network scan and the console answer: the constructor of the
    scanner, its [scan], its [getBulbInfo], and the [n]-th call of [input]. *)
Record console : Type := mkConsole {
  scanner_new : result unit;
  scanner_scan : result unit;
  scanner_getBulbInfo : result (list dict);
  console_input : nat -> result string
}.

(** What the body of the [try] of [magichome_ip_wizard] can raise: an
    exception of the model, or the [KeyError] of a [dict]. *)
Inductive raised : Type :=
| Exn (e : exn)
| KeyError (key : string).

Definition is_Exception_raised (r : raised) : bool :=
  match r with
  | Exn e => is_Exception e
  | KeyError _ => true
  end.

(** [device['ipaddr']] for every device, in order, as the loop of lines
    73-74 reads them. *)
Fixpoint ipaddrs (devices : list dict) : option (list string) :=
  match devices with
  | [] => Some []
  | device :: rest =>
      match dict_get "ipaddr" device, ipaddrs rest with
      | Some ip, Some ips => Some (ip :: ips)
      | _, _ => None
      end
  end.

(** The [while True] loop of lines 82-90, [n] prompts made so far.  [parse]
    is the builtin [int] on a string, [None] where it raises [ValueError];
    the handler of the inner [try] passes, and the loop asks again.  [None]
    is a loop still asking after [fuel] prompts. *)
Fixpoint ask (parse : string -> option Z) (C : console) (ips : list string) (n fuel : nat)
  : option ((string + raised) * nat) :=
  match fuel with
  | O => None
  | S fuel' =>
      match console_input C n with
      | Raise e => Some (inr (Exn e), S n)
      | Ok choice =>
          match parse choice with
          | Some i =>
              if (0 <=? i) && (i <? len ips)
              then Some (inl (nth (Z.to_nat i) ips EmptyString), S n)
              else ask parse C ips (S n) fuel'
          | None => ask parse C ips (S n) fuel'
          end
      end
  end.

(** The body of the outer [try], lines 65-90: the value returned or what was
    raised, and the number of prompts. *)
Definition wizard_body (parse : string -> option Z) (C : console) (fuel : nat)
  : option ((string + raised) * nat) :=
  match scanner_new C with
  | Raise e => Some (inr (Exn e), O)
  | Ok _ =>
      match scanner_scan C with
      | Raise e => Some (inr (Exn e), O)
      | Ok _ =>
          match scanner_getBulbInfo C with
          | Raise e => Some (inr (Exn e), O)
          | Ok [] => Some (inr (Exn (RuntimeError "No Magic Home controllers found")), O)
          | Ok devices =>
              match ipaddrs devices with
              | None => Some (inr (KeyError "ipaddr"), O)
              | Some [ip] => Some (inl ip, O)
              | Some ips => ask parse C ips O fuel
              end
          end
      end
  end.

Definition no_controllers : string :=
  "No Magic Home controllers found. Make sure your controller is powered on and on the same network.".

(** [magichome_ip_wizard], lines 59-94: every [Exception] of the body
    becomes the [RuntimeError] of line 94. *)
Definition magichome_ip_wizard (parse : string -> option Z) (C : console) (fuel : nat)
  : option (result string * nat) :=
  match wizard_body parse C fuel with
  | None => None
  | Some (inl ip, n) => Some (Ok ip, n)
  | Some (inr r, n) =>
      Some (if is_Exception_raised r then Raise (RuntimeError no_controllers)
            else match r with
                 | Exn e => Raise e
                 | KeyError _ => Raise (RuntimeError no_controllers)
                 end, n)
  end.

(** ** The fade as the design document words it *)

(** [S + (E - S) * (i / N)], truncated to an integer, in exact arithmetic. *)
Definition exact_channel (s e step : Z) : Z :=
  Z.quot (s * transition_steps + (e - s) * step) transition_steps.

(** What holds of the ten values of one channel of a fade from [s] to [e]:
    within the two ends, ending on [e], monotonic, and the exact value or one
    below it. *)
Definition fade_sequence_ok (s e : Z) (vs : list Z) : Prop :=
  Forall (fun v => Z.min s e <= v <= Z.max s e) vs /\
  last vs s = e /\
  (s <= e -> StronglySorted Z.le vs) /\
  (e <= s -> StronglySorted Z.ge vs) /\
  Forall2 (fun step v => exact_channel s e step - 1 <= v <= exact_channel s e step)
          fade_steps vs.

(** * Evaluating a fade with the machine floats *)

(** The channels of a fade are recomputed with the primitive floats and
    63-bit integers, which evaluate fast; the lemmas below tie every function
    here to the one of the model it follows. *)

(** [int_of_float] on a primitive float, for the non-negative values below
    [2 ^ 53]; [None] stands for every case left out. *)
Definition fast_trunc (f : float) : option int :=
  if (PrimFloat.is_nan f || PrimFloat.is_infinity f || PrimFloat.get_sign f)%bool then None
  else if PrimFloat.is_zero f then Some 0%uint63
  else
    let (r, se) := frshiftexp f in
    let m := normfr_mantissa r in
    if ((4503599627370496 <=? m) && (m <? 9007199254740992)
        && (1080 <=? se) && (se <=? 2154))%uint63
    then Some (m >> (2154 - se))%uint63
    else None.

(** [interpolate_channel] on machine integers. *)
Definition fast_channel (s e : int) (p : float) : option int :=
  let d := if (s <=? e)%uint63 then of_uint63 (e - s) else (- of_uint63 (s - e))%float in
  fast_trunc (of_uint63 s + d * p)%float.

(** The ten values of [step / self.transition_steps]. *)
Definition progress_table : list float :=
  Eval vm_compute in
    map (fun i => SF2Prim (SFdiv prec emax (Z2SF i) (Z2SF transition_steps))) fade_steps.

(** The values of one channel over a whole fade. *)
Fixpoint fast_values (s e : int) (ps : list float) : option (list int) :=
  match ps with
  | [] => Some []
  | p :: ps' =>
      match fast_channel s e p, fast_values s e ps' with
      | Some v, Some vs => Some (v :: vs)
      | _, _ => None
      end
  end.

(** [fade_sequence_ok] as a test: bounds, order, distance to the exact
    value, and the last value. *)
Fixpoint check_values (s e prev : Z) (steps vs : list Z) : bool :=
  match steps, vs with
  | [], [] => prev =? e
  | step :: steps', v :: vs' =>
      (Z.min s e <=? v) && (v <=? Z.max s e) &&
      (if s <=? e then prev <=? v else v <=? prev) &&
      (exact_channel s e step - 1 <=? v) && (v <=? exact_channel s e step) &&
      check_values s e v steps' vs'
  | _, _ => false
  end.

(** The test on the fade from [s] to [e]. *)
Definition check_pair (s e : Z) : bool :=
  match fast_values (of_Z s) (of_Z e) progress_table with
  | Some vs => check_values s e s fade_steps (map to_Z vs)
  | None => false
  end.

(** The 256 values of a channel. *)
Definition channel_range : list Z := map Z.of_nat (seq 0 256).

(** Both ends of one channel, computed with the machine floats. *)
Definition check_ends (s e : Z) : bool :=
  match fast_channel (of_Z s) (of_Z e) PrimFloat.zero,
        fast_channel (of_Z s) (of_Z e) PrimFloat.one with
  | Some v0, Some v1 => (to_Z v0 =? s) && (to_Z v1 =? e)
  | _, _ => false
  end.

(** * Predicates on states, traces and environments *)

(** The state after one call to the outside. *)
Definition after_call (ev : event) (s : state) : state :=
  mkState (icue s) (magic s) (S (clock s)) (trace s ++ [ev]).

(** A reading whose three channels are within [0, 255]. *)
Definition led_ok (l : led) : Prop := color_ok (rgb l).

(** The truncated mean of each channel. *)
Definition mean_color (leds : list led) : color :=
  (Z.quot (sum (map led_r leds)) (len leds),
   Z.quot (sum (map led_g leds)) (len leds),
   Z.quot (sum (map led_b leds)) (len leds)).

(** An event that is neither a write to the bulb nor an entry of
    [turn_off]. *)
Definition silent (ev : event) : bool :=
  match ev with
  | BulbSetRgb _ | CallTurnOff => false
  | _ => true
  end.

(** What a step on the source side leaves alone: the actuator, the stored
    reading, the writes and the entries of [turn_off]. *)
Definition source_frame (s s' : state) : Prop :=
  magic s' = magic s /\
  writes (trace s') = writes (trace s) /\
  turn_off_calls (trace s') = turn_off_calls (trace s).

(** No call to the outside raises [x]. *)
Definition never_raises (x : exn) (E : env) : Prop :=
  forall n : nat,
    sdk_connect E n <> Raise x /\ sdk_disconnect E n <> Raise x /\
    sdk_get_devices E n <> Raise x /\ sdk_get_led_positions E n <> Raise x /\
    sdk_get_led_colors E n <> Raise x /\ time_sleep E n <> Raise x /\
    bulb_new E n <> Raise x /\ bulb_connect E n <> Raise x /\
    bulb_setRgb E n <> Raise x /\ bulb_turnOff E n <> Raise x.

(** The three channels of a fade, each as [fade_sequence_ok] has it. *)
Definition fade_ok (last target : color) (cs : list color) : Prop :=
  fade_sequence_ok (red last) (red target) (map red cs) /\
  fade_sequence_ok (green last) (green target) (map green cs) /\
  fade_sequence_ok (blue last) (blue target) (map blue cs).

(** What a fade that runs through does to the outside. *)
Definition fade_trace (cs : list color) : list event :=
  flat_map (fun c => [BulbSetRgb c; Sleep transition_delay_ms]) cs.

(** Every write and every delay of a whole fade starting at the clock of
    [s] is answered. *)
Definition fade_answered (E : env) (s : state) (n : nat) : Prop :=
  forall j : nat, (j < n)%nat ->
    bulb_setRgb E (clock s + 2 * j)%nat = Ok tt /\
    time_sleep E (clock s + 2 * j + 1)%nat = Ok tt.

(** The actuator is connected, or the one attempt [set_color] makes to
    connect it succeeds. *)
Definition connects (E : env) (s : state) : Prop :=
  magic_bulb (magic s) = true \/
  (magic_bulb (magic s) = false /\
   bulb_new E (clock s) = Ok tt /\ bulb_connect E (S (clock s)) = Ok tt).

(** The actuator is not connected and the attempt fails, in the constructor
    of the bulb or in its [connect]. *)
Definition connect_fails (E : env) (s : state) : Prop :=
  magic_bulb (magic s) = false /\
  ((exists e, bulb_new E (clock s) = Raise e /\ is_Exception e = true) \/
   (bulb_new E (clock s) = Ok tt /\
    exists e, bulb_connect E (S (clock s)) = Raise e /\ is_Exception e = true)).

(** The state in which the colour is applied. *)
Definition connected_state (s : state) : state :=
  if magic_bulb (magic s) then s
  else mkState (icue s) (mkMagic (magic_ip (magic s)) true (magic_last_color (magic s)))
               (S (S (clock s)))
               (trace s ++ [BulbNew (magic_ip (magic s)); BulbConnect]).

(** Every reading the SDK hands over has its channels within [0, 255]. *)
Definition readings_ok (E : env) : Prop :=
  forall (n : nat) (leds : list led),
    sdk_get_led_colors E n = Ok (Some leds) -> Forall led_ok leds.

(** The colours written so far and the last commanded colour are within
    range. *)
Definition colors_in_range (s : state) : Prop :=
  Forall color_ok (writes (trace s)) /\
  (forall c : color, magic_last_color (magic s) = Some c -> color_ok c).

(** The first colour, written directly (lines 239-244). *)
Definition direct_write (E : env) (c : color) : M bool :=
  try_except (call (bulb_setRgb E) (BulbSetRgb c) ;; ret true)
             (fun _ => set_bulb false ;; ret false).

(** From the clock [c] on, no call to the bulb is interrupted. *)
Definition uninterrupted_from (E : env) (c : nat) : Prop :=
  forall k : nat, (c <= k)%nat ->
    bulb_new E k <> Raise KeyboardInterrupt /\
    bulb_connect E k <> Raise KeyboardInterrupt /\
    bulb_turnOff E k <> Raise KeyboardInterrupt.

(** How often the colours of the LEDs were read. *)
Definition led_reads (tr : list event) : nat :=
  List.length (filter (fun ev => match ev with SdkGetLedColors _ _ => true | _ => false end) tr).

(** How often the bulb was told to turn off. *)
Definition turn_off_commands (tr : list event) : nat :=
  List.length (filter (fun ev => match ev with BulbTurnOff => true | _ => false end) tr).

(** An event of the SDK side: a call to the SDK or a delay. *)
Definition sdk_side (ev : event) : bool :=
  match ev with
  | SdkConnect | SdkDisconnect | SdkGetDevices | SdkGetLedPositions _
  | SdkGetLedColors _ _ | Sleep _ => true
  | _ => false
  end.

(** A choice the loop accepts: [int] reads it and it is an index of the
    list. *)
Definition valid_choice (parse : string -> option Z) (ips : list string) (choice : string)
  : bool :=
  match parse choice with
  | Some i => (0 <=? i) && (i <? len ips)
  | None => false
  end.

(** An event of the bulb side: a call to the bulb, a delay, or the entry of
    [turn_off]. *)
Definition bulb_side (ev : event) : bool :=
  match ev with
  | BulbNew _ | BulbConnect | BulbSetRgb _ | BulbTurnOff | Sleep _ | CallTurnOff => true
  | _ => false
  end.

(** The trace of [s'] is the trace of [s] and then events of one kind. *)
Definition grows_by (kind : event -> bool) (s s' : state) : Prop :=
  exists evs : list event, trace s' = trace s ++ evs /\ forallb kind evs = true.

Definition sdk_only (s s' : state) : Prop :=
  magic s' = magic s /\ grows_by sdk_side s s'.

Definition bulb_only (s s' : state) : Prop :=
  icue s' = icue s /\ magic_ip (magic s') = magic_ip (magic s) /\ grows_by bulb_side s s'.

(** * Sample devices, environments and states *)

(** An LED of a given colour, opaque. *)
Definition led_of (i : Z) (c : color) : led := mkLed i (red c) (green c) (blue c) 255.

(** The device of the samples. *)
Definition demo_device : device := mkDevice "kbd" "K70".

(** One LED red, the other green. *)
Definition red_green : list led := [led_of 1 (255, 0, 0); led_of 2 (0, 255, 0)].

(** Everything answers, and the two LEDs read red and green. *)
Definition calm : env :=
  mkEnv (fun _ => Ok true) (fun _ => Ok tt)
        (fun _ => Ok (Some [demo_device])) (fun _ => Ok (Some [1; 2]))
        (fun _ => Ok (Some red_green))
        (fun _ => Ok tt) (fun _ => Ok tt) (fun _ => Ok tt) (fun _ => Ok tt) (fun _ => Ok tt).

(** An environment with one of its answers replaced. *)
Definition with_sdk_connect (f : nat -> result bool) (E : env) : env :=
  mkEnv f (sdk_disconnect E) (sdk_get_devices E) (sdk_get_led_positions E)
        (sdk_get_led_colors E) (time_sleep E) (bulb_new E) (bulb_connect E)
        (bulb_setRgb E) (bulb_turnOff E).

Definition with_led_colors (f : nat -> result (option (list led))) (E : env) : env :=
  mkEnv (sdk_connect E) (sdk_disconnect E) (sdk_get_devices E) (sdk_get_led_positions E)
        f (time_sleep E) (bulb_new E) (bulb_connect E) (bulb_setRgb E) (bulb_turnOff E).

Definition with_time_sleep (f : nat -> result unit) (E : env) : env :=
  mkEnv (sdk_connect E) (sdk_disconnect E) (sdk_get_devices E) (sdk_get_led_positions E)
        (sdk_get_led_colors E) f (bulb_new E) (bulb_connect E) (bulb_setRgb E) (bulb_turnOff E).

Definition with_bulb_new (f : nat -> result unit) (E : env) : env :=
  mkEnv (sdk_connect E) (sdk_disconnect E) (sdk_get_devices E) (sdk_get_led_positions E)
        (sdk_get_led_colors E) (time_sleep E) f (bulb_connect E) (bulb_setRgb E) (bulb_turnOff E).

Definition with_bulb_setRgb (f : nat -> result unit) (E : env) : env :=
  mkEnv (sdk_connect E) (sdk_disconnect E) (sdk_get_devices E) (sdk_get_led_positions E)
        (sdk_get_led_colors E) (time_sleep E) (bulb_new E) (bulb_connect E) f (bulb_turnOff E).

Definition with_bulb_turnOff (f : nat -> result unit) (E : env) : env :=
  mkEnv (sdk_connect E) (sdk_disconnect E) (sdk_get_devices E) (sdk_get_led_positions E)
        (sdk_get_led_colors E) (time_sleep E) (bulb_new E) (bulb_connect E) (bulb_setRgb E) f.

(** A source that found its device and two LEDs, with no colour seen yet,
    and an actuator in the state its constructor leaves. *)
Definition fresh : state :=
  mkState (mkIcue "kbd" (Some demo_device) [1; 2] None)
          (mkMagic "192.168.1.20" false None) 0 [].

(** The same with the actuator connected and a colour already commanded. *)
Definition lit (c : color) : state :=
  mkState (mkIcue "kbd" (Some demo_device) [1; 2] None)
          (mkMagic "192.168.1.20" true (Some c)) 0 [].

(** Two readings that differ LED by LED and have the same average. *)
Definition dim_bright : list led := [led_of 1 (1, 0, 0); led_of 2 (3, 0, 0)].

Definition even_glow : list led := [led_of 1 (2, 0, 0); led_of 2 (2, 0, 0)].

Definition two_readings : env :=
  with_led_colors (fun n => match n with
                            | O => Ok (Some dim_bright)
                            | _ => Ok (Some even_glow)
                            end) calm.

(** A reading of [2 ^ 46] LEDs, all at 255 on the red channel but one at
    254. *)
Definition long_reading : list led :=
  repeat (led_of 1 (255, 0, 0)) (Z.to_nat (2 ^ 46 - 1)) ++ [led_of 2 (254, 0, 0)].

(** The read raises and the SDK refuses every connection. *)
Definition unplugged : env :=
  with_led_colors (fun _ => Raise DeviceError) (with_sdk_connect (fun _ => Ok false) calm).

(** Every read raises; the SDK reconnects. *)
Definition flaky : env := with_led_colors (fun _ => Raise DeviceError) calm.

(** The first read answers, the second raises, every later one answers as
    the first did. *)
Definition hiccup : env :=
  with_led_colors (fun n => match n with
                            | 1%nat => Raise DeviceError
                            | _ => Ok (Some red_green)
                            end) calm.

(** The bulb cannot be reached. *)
Definition offline : env := with_bulb_new (fun _ => Raise DeviceError) calm.

(** The third write raises; everything else answers. *)
Definition third_write_fails : env :=
  with_bulb_setRgb (fun n => match n with
                             | 4%nat => Raise DeviceError
                             | _ => Ok tt
                             end) calm.

Definition black : color := (0, 0, 0).

Definition warm : color := (100, 200, 50).

(** Connected, with black as the last commanded colour. *)
Definition dark : state := lit black.

(** The user interrupts the first delay of the loop, and the bulb then
    refuses to turn off. *)
Definition interrupted : env :=
  with_time_sleep (fun n => match n with
                            | 4%nat => Raise KeyboardInterrupt
                            | _ => Ok tt
                            end)
    (with_bulb_turnOff (fun _ => Raise DeviceError) calm).

(** The SDK lists the device and no LED for it. *)
Definition no_leds : env :=
  mkEnv (sdk_connect calm) (sdk_disconnect calm) (sdk_get_devices calm)
        (fun _ => Ok None) (sdk_get_led_colors calm) (time_sleep calm)
        (bulb_new calm) (bulb_connect calm) (bulb_setRgb calm) (bulb_turnOff calm).

(** The LEDs of [red_green] the other way round, translucent. *)
Definition green_red : list led := [mkLed 7 0 255 0 10; mkLed 8 255 0 0 20].

(** The tenth delay raises; everything else answers. *)
Definition tenth_delay_fails : env :=
  with_time_sleep (fun n => match n with
                            | 19%nat => Raise DeviceError
                            | _ => Ok tt
                            end) calm.

(** The SDK lists a device other than the configured one. *)
Definition other_device : env :=
  mkEnv (sdk_connect calm) (sdk_disconnect calm)
        (fun _ => Ok (Some [mkDevice "mouse" "M65"]))
        (sdk_get_led_positions calm) (sdk_get_led_colors calm) (time_sleep calm)
        (bulb_new calm) (bulb_connect calm) (bulb_setRgb calm) (bulb_turnOff calm).

(** [int] on a string of one decimal digit; enough for the samples. *)
Definition digit (choice : string) : option Z :=
  match choice with
  | String c EmptyString =>
      let n := Ascii.nat_of_ascii c in
      if ((48 <=? n) && (n <=? 57))%nat then Some (Z.of_nat (n - 48)) else None
  | _ => None
  end.

(** Two controllers found; the user types a letter, an index out of range,
    and then 1. *)
Definition two_bulbs : console :=
  (mkConsole (Ok tt) (Ok tt)
             (Ok [[("ipaddr", "192.168.1.20"); ("model", "AK001")];
                  [("model", "AK001"); ("ipaddr", "192.168.1.21")]])
             (fun n => match n with
                       | 0%nat => Ok "x"
                       | 1%nat => Ok "5"
                       | _ => Ok "1"
                       end))%string.

(** * Binary64 facts *)

(** ** Digits and rounding in [SpecFloat] *)

Lemma digits2_pos_bounds (p : positive) :
  2 ^ (Zpos (digits2_pos p) - 1) <= Zpos p < 2 ^ Zpos (digits2_pos p).
Proof.
  induction p as [p IH | p IH | ]; cbn [digits2_pos].
  - rewrite Pos2Z.inj_succ.
    replace (Z.succ (Zpos (digits2_pos p)) - 1) with (Z.succ (Zpos (digits2_pos p) - 1)) by lia.
    rewrite !Z.pow_succ_r by lia. lia.
  - rewrite Pos2Z.inj_succ.
    replace (Z.succ (Zpos (digits2_pos p)) - 1) with (Z.succ (Zpos (digits2_pos p) - 1)) by lia.
    rewrite !Z.pow_succ_r by lia. lia.
  - cbn. lia.
Qed.

Lemma Zdigits2_unique (q d : Z) :
  0 < d -> 2 ^ (d - 1) <= q < 2 ^ d -> Zdigits2 q = d.
Proof.
  intros Hd [Hlo Hhi].
  assert (Hq : 0 < q) by (pose proof (Z.pow_pos_nonneg 2 (d - 1)); lia).
  destruct q as [ | p | p ]; try lia.
  cbn [Zdigits2].
  pose proof (digits2_pos_bounds p) as [Plo Phi].
  set (n := Zpos (digits2_pos p)) in *.
  assert (0 < n) by (unfold n; lia).
  destruct (Z.lt_trichotomy n d) as [Hlt | [Heq | Hgt]]; [ | exact Heq | ].
  - assert (2 ^ n <= 2 ^ (d - 1)) by (apply Z.pow_le_mono_r; lia). lia.
  - assert (2 ^ d <= 2 ^ (n - 1)) by (apply Z.pow_le_mono_r; lia). lia.
Qed.

Lemma round_nearest_even_range (m : Z) (l : location) :
  m <= round_nearest_even m l <= m + 1.
Proof.
  destruct l as [ | [ | | ] ]; cbn; try lia.
  destruct (Z.even m); lia.
Qed.

Lemma binary_round_aux_53 (sx : bool) (q e : Z) (l : location) :
  2 ^ 52 <= q < 2 ^ 53 -> -1074 <= e <= 970 ->
  binary_round_aux prec emax sx q e l =
  let m1 := round_nearest_even q l in
  if m1 <? 2 ^ 53 then S754_finite sx (Z.to_pos m1) e
  else S754_finite sx (Z.to_pos (2 ^ 52)) (e + 1).
Proof.
  intros Hq He.
  unfold binary_round_aux, shr_fexp.
  rewrite (Zdigits2_unique q 53) by (cbn; lia).
  unfold fexp, SpecFloat.emin, prec, emax.
  replace (Z.max (53 + e - 53) (3 - 1024 - 53) - e) with 0 by lia.
  cbn [shr].
  assert (Hm : shr_m (shr_record_of_loc q l) = q) by (destruct l as [ | [ | | ] ]; reflexivity).
  assert (Hl : loc_of_shr_record (shr_record_of_loc q l) = l) by (destruct l as [ | [ | | ] ]; reflexivity).
  rewrite Hm, Hl. cbv zeta.
  pose proof (round_nearest_even_range q l) as Hr.
  set (m1 := round_nearest_even q l) in *.
  destruct (Z.ltb_spec m1 (2 ^ 53)) as [Hlt | Hge].
  - rewrite (Zdigits2_unique m1 53) by (cbn; lia).
    replace (Z.max (53 + e - 53) (3 - 1024 - 53) - e) with 0 by lia.
    cbn [shr shr_record_of_loc shr_m].
    destruct m1 as [ | p | p ]; try lia.
    replace (e <=? 1024 - 53) with true by (symmetry; apply Z.leb_le; lia).
    reflexivity.
  - assert (m1 = 2 ^ 53) by lia.
    rewrite H. 
    replace (e <=? 1024 - 53) with true by (symmetry; apply Z.leb_le; lia).
    rewrite (Zdigits2_unique (2 ^ 53) 54) by (cbn; lia).
    replace (Z.max (54 + e - 53) (3 - 1024 - 53) - e) with 1 by lia.
    cbn.
    replace (e + 1 <=? 971) with true by (symmetry; apply Z.leb_le; lia).
    reflexivity.
Qed.

Lemma shr_1_half (q : Z) (l : location) :
  1 < q ->
  shr_m (shr_1 (shr_record_of_loc q l)) = q / 2 /\
  (Z.even q = true -> l = loc_Exact ->
   loc_of_shr_record (shr_1 (shr_record_of_loc q l)) = loc_Exact).
Proof.
  intros Hq. destruct q as [ | p | p ]; try lia.
  destruct p as [p | p | ]; try lia.
  - split.
    + destruct l as [ | [ | | ] ]; cbn [shr_record_of_loc shr_1 shr_m];
        rewrite Pos2Z.inj_xI; apply (Z.div_unique_pos _ 2 _ 1); lia.
    + cbn. discriminate.
  - split.
    + destruct l as [ | [ | | ] ]; cbn [shr_record_of_loc shr_1 shr_m];
        rewrite Pos2Z.inj_xO; apply (Z.div_unique_pos _ 2 _ 0); lia.
    + intros _ ->. reflexivity.
Qed.

Lemma binary_round_aux_54 (sx : bool) (q e : Z) (l : location) :
  2 ^ 53 <= q < 2 ^ 54 -> -1074 <= e <= 969 ->
  binary_round_aux prec emax sx q e l =
  let m1 := round_nearest_even (q / 2)
              (loc_of_shr_record (shr_1 (shr_record_of_loc q l))) in
  if m1 <? 2 ^ 53 then S754_finite sx (Z.to_pos m1) (e + 1)
  else S754_finite sx (Z.to_pos (2 ^ 52)) (e + 2).
Proof.
  intros Hq He.
  unfold binary_round_aux, shr_fexp.
  rewrite (Zdigits2_unique q 54) by (cbn; lia).
  unfold fexp, SpecFloat.emin, prec, emax.
  replace (Z.max (54 + e - 53) (3 - 1024 - 53) - e) with 1 by lia.
  cbn [shr iter_pos].
  destruct (shr_1_half q l) as [Hm _]; [lia | ].
  rewrite Hm. cbv zeta.
  set (l' := loc_of_shr_record (shr_1 (shr_record_of_loc q l))).
  pose proof (round_nearest_even_range (q / 2) l') as Hr.
  assert (Hq2 : 2 ^ 52 <= q / 2 < 2 ^ 53).
  { split; [apply Z.div_le_lower_bound | apply Z.div_lt_upper_bound]; lia. }
  set (m1 := round_nearest_even (q / 2) l') in *.
  destruct (Z.ltb_spec m1 (2 ^ 53)) as [Hlt | Hge].
  - rewrite (Zdigits2_unique m1 53) by (cbn; lia).
    replace (Z.max (53 + (e + 1) - 53) (3 - 1024 - 53) - (e + 1)) with 0 by lia.
    cbn [shr shr_record_of_loc shr_m].
    destruct m1 as [ | p | p ]; try lia.
    replace (e + 1 <=? 1024 - 53) with true by (symmetry; apply Z.leb_le; lia).
    reflexivity.
  - assert (H : m1 = 2 ^ 53) by lia.
    rewrite H.
    rewrite (Zdigits2_unique (2 ^ 53) 54) by (cbn; lia).
    replace (Z.max (54 + (e + 1) - 53) (3 - 1024 - 53) - (e + 1)) with 1 by lia.
    cbn.
    replace (e + 1 + 1 <=? 971) with true by (symmetry; apply Z.leb_le; lia).
    f_equal. lia.
Qed.

Lemma new_location_exact (b r : Z) : r = 0 -> new_location b r = loc_Exact.
Proof.
  intros ->. unfold new_location, new_location_even, new_location_odd.
  destruct (Z.even b); reflexivity.
Qed.

Lemma round_nearest_even_exact (m : Z) : round_nearest_even m loc_Exact = m.
Proof. reflexivity. Qed.

(** The arithmetic heart: a mantissa within one unit above the scaled
    quotient, and equal to it when the division is exact, truncates to the
    integer quotient as soon as the scale is at least the divisor. *)
Lemma scaled_quotient_trunc (a b P m1 : Z) :
  0 <= a -> 0 < b < 2 * P ->
  (a * P) / b <= m1 <= (a * P) / b + 1 ->
  (m1 <> (a * P) / b -> b <= 2 * ((a * P) mod b)) ->
  m1 / P = a / b.
Proof.
  intros Ha Hb Hm Hup1.
  pose proof (Z.div_mod a b ltac:(lia)) as Hab.
  pose proof (Z.mod_pos_bound a b ltac:(lia)) as Hra.
  set (k := a / b) in *. set (ra := a mod b) in *.
  pose proof (Z.div_mod (a * P) b ltac:(lia)) as HX.
  pose proof (Z.mod_pos_bound (a * P) b ltac:(lia)) as Hu.
  set (t := (a * P) / b) in *. set (u := (a * P) mod b) in *.
  assert (Hk : 0 <= k) by (apply Z.div_pos; lia).
  assert (HP : 0 < P) by lia.
  assert (Hlow : k * P <= t) by nia.
  assert (Hup : t <= k * P + P - 1) by nia.
  assert (Hm1 : m1 <= k * P + P - 1).
  { destruct (Z.eq_dec m1 t) as [-> | Hne]; [exact Hup | ].
    specialize (Hup1 Hne).
    destruct (Z.eq_dec t (k * P + P - 1)) as [Heq | Hne']; [ | lia].
    exfalso.
    assert (Hu' : u = b - (b - ra) * P) by nia.
    assert (P <= (b - ra) * P) by nia.
    lia. }
  symmetry. apply (Z.div_unique_pos m1 P k (m1 - k * P)); lia.
Qed.

(** Rounding to nearest moves a quotient up only from its upper half. *)
Lemma round_up_half (q b r : Z) :
  0 <= r ->
  round_nearest_even q (new_location b r) <> q -> b <= 2 * r.
Proof.
  intros Hr. unfold new_location, new_location_even, new_location_odd.
  destruct (Z.even b); destruct (r =? 0); cbn [round_nearest_even];
    try (intros Hne; exfalso; apply Hne; reflexivity).
  - destruct (Z.compare_spec (2 * r) b); cbn [round_nearest_even]; intros Hne;
      try lia; exfalso; apply Hne; reflexivity.
  - destruct (Z.compare_spec (2 * r + 1) b); cbn [round_nearest_even]; intros Hne;
      try lia; exfalso; apply Hne; reflexivity.
Qed.

(** After one shift it moves up only when the bit shifted out was set. *)
Lemma round_up_odd (q : Z) (l : location) :
  1 < q ->
  round_nearest_even (q / 2) (loc_of_shr_record (shr_1 (shr_record_of_loc q l))) <> q / 2 ->
  Z.odd q = true.
Proof.
  intros Hq. destruct q as [ | p | p ]; try lia.
  destruct p as [p | p | ]; try lia; [reflexivity | ].
  destruct l as [ | [ | | ] ]; cbn [shr_record_of_loc shr_1 loc_of_shr_record orb
                                    round_nearest_even];
    intros H; exfalso; apply H; reflexivity.
Qed.

Lemma finite53_valid (s : bool) (m : positive) (e : Z) :
  2 ^ 52 <= Zpos m < 2 ^ 53 -> -1074 <= e <= 971 ->
  valid_binary (S754_finite s m e) = true.
Proof.
  intros Hm He. unfold SpecFloat.valid_binary, bounded, canonical_mantissa.
  pose proof (Zdigits2_unique (Zpos m) 53 ltac:(lia) ltac:(cbn; lia)) as Hd.
  cbn [Zdigits2] in Hd. rewrite Hd.
  unfold fexp, SpecFloat.emin, prec, emax.
  apply andb_true_intro; split; [apply Z.eqb_eq | apply Z.leb_le]; lia.
Qed.

Lemma trunc_SF_neg_exp (m : positive) (e : Z) :
  e < 0 -> trunc_SF (S754_finite false m e) = Ok (Zpos m / 2 ^ (- e)).
Proof.
  intros He. destruct e as [ | p | p ]; try lia.
  cbn [trunc_SF]. rewrite Z.shiftr_div_pow2 by lia. reflexivity.
Qed.

(** The result of a division whose quotient is a normal number: the integer
    part of the rounded quotient is [m1 / 2 ^ E], with [m1] the quotient
    scaled by [2 ^ E] and rounded, within one unit above its floor. *)
Lemma int_mean_normal (pa pb : positive) :
  Zpos pa <= 255 * Zpos pb ->
  Zpos (digits2_pos pb) <= Zpos (digits2_pos pa) + 1021 ->
  exists m1 E : Z,
    45 <= E /\
    int_mean (Zpos pa) (Zpos pb) = Ok (m1 / 2 ^ E) /\
    (Zpos pa * 2 ^ E) / Zpos pb <= m1 <= (Zpos pa * 2 ^ E) / Zpos pb + 1 /\
    ((Zpos pa * 2 ^ E) mod Zpos pb = 0 -> m1 = (Zpos pa * 2 ^ E) / Zpos pb) /\
    (m1 <> (Zpos pa * 2 ^ E) / Zpos pb -> Zpos pb <= 2 * ((Zpos pa * 2 ^ E) mod Zpos pb)).
Proof.
  intros Ha Hnorm. unfold int_mean, int_truediv.
  cbn [Z.eqb rbind]. unfold int_of_float.
  cbn [Z2SF SFdiv xorb]. unfold SFdiv_core_binary. cbn [Zdigits2].
  pose proof (digits2_pos_bounds pa) as [Hal Hah].
  pose proof (digits2_pos_bounds pb) as [Hbl Hbh].
  set (da := Zpos (digits2_pos pa)) in *. set (db := Zpos (digits2_pos pb)) in *.
  set (a := Zpos pa) in *. set (b := Zpos pb) in *.
  assert (Hda : 0 < da) by (unfold da; lia).
  assert (Hdb : 0 < db) by (unfold db; lia).
  assert (Hb : 0 < b) by (unfold b; lia).
  assert (Hdab : da <= db + 8).
  { destruct (Z_le_gt_dec da (db + 8)) as [ | Hgt]; [assumption | ].
    assert (2 ^ (db + 8) <= 2 ^ (da - 1)) by (apply Z.pow_le_mono_r; lia).
    rewrite Z.pow_add_r in H by lia. change (2 ^ 8) with 256 in H. lia. }
  unfold fexp, SpecFloat.emin, prec, emax.
  replace (Z.min (Z.max (da + 0 - (db + 0) - 53) (3 - 1024 - 53)) (0 - 0))
    with (da - db - 53) by lia.
  replace (0 - 0 - (da - db - 53)) with (53 + db - da) by lia.
  set (s := 53 + db - da).
  assert (Hs : 45 <= s) by (unfold s; lia).
  destruct s as [ | ps | ps ] eqn:Es; try lia.
  rewrite <- Es. rewrite Z.shiftl_mul_pow2 by lia.
  destruct (Z.div_eucl (a * 2 ^ s) b) as [q r] eqn:Hqr.
  assert (Hq : q = (a * 2 ^ s) / b) by (unfold Z.div; rewrite Hqr; reflexivity).
  assert (Hr : r = (a * 2 ^ s) mod b) by (unfold Z.modulo; rewrite Hqr; reflexivity).
  assert (HP : 0 < 2 ^ s) by (apply Z.pow_pos_nonneg; lia).
  (* the quotient has 53 or 54 digits *)
  assert (Hqlo : 2 ^ 52 <= q).
  { rewrite Hq. apply Z.div_le_lower_bound; [lia | ].
    assert (2 ^ (52 + db) <= a * 2 ^ s).
    { replace (52 + db) with ((da - 1) + s) by (unfold s in *; lia).
      rewrite Z.pow_add_r by lia. nia. }
    rewrite Z.pow_add_r in H by lia. nia. }
  assert (Hqhi : q < 2 ^ 54).
  { rewrite Hq. apply Z.div_lt_upper_bound; [lia | ].
    assert (a * 2 ^ s < 2 ^ (54 + (db - 1))).
    { replace (54 + (db - 1)) with (da + s) by (unfold s in *; lia).
      rewrite Z.pow_add_r by lia. nia. }
    rewrite Z.pow_add_r in H by lia. nia. }
  assert (Hab8 : a < 2 ^ 8 * b) by (change (2 ^ 8) with 256; lia).
  destruct (Z_lt_ge_dec q (2 ^ 53)) as [Hq53 | Hq54].
  - (* 53 digits: no shift before rounding *)
    rewrite binary_round_aux_53 by lia. cbv zeta.
    pose proof (round_nearest_even_range q (new_location b r)) as Hm1.
    set (m1 := round_nearest_even q (new_location b r)) in *.
    exists m1, s. split; [lia | ]. split; [ | split; [ | split]].
    + destruct (Z.ltb_spec m1 (2 ^ 53)) as [Hlt | Hge].
      * destruct m1 as [ | pm | pm ] eqn:Em; try lia.
        cbn [Z.to_pos].
        rewrite Prim2SF_SF2Prim by (apply finite53_valid; lia).
        rewrite trunc_SF_neg_exp by lia.
        replace (- (da - db - 53)) with s by (unfold s in *; lia).
        reflexivity.
      * assert (Hm53 : m1 = 2 ^ 53) by lia.
        rewrite Prim2SF_SF2Prim
          by (apply finite53_valid; [change (Zpos (Z.to_pos (2 ^ 52))) with (2 ^ 52) | ]; lia).
        rewrite trunc_SF_neg_exp by lia.
        rewrite Hm53.
        replace (- (da - db - 53 + 1)) with (s - 1) by (unfold s in *; lia).
        replace (2 ^ s) with (2 * 2 ^ (s - 1)).
        2:{ rewrite <- Z.pow_succ_r by lia. f_equal. lia. }
        change (Zpos (Z.to_pos (2 ^ 52))) with (2 ^ 52).
        change (2 ^ 53) with (2 * 2 ^ 52).
        rewrite Z.div_mul_cancel_l; [reflexivity | | lia].
        assert (0 < 2 ^ (s - 1)) by (apply Z.pow_pos_nonneg; lia). lia.
    + rewrite <- Hq. exact Hm1.
    + intros Hz. unfold m1. rewrite new_location_exact by (rewrite Hr; exact Hz).
      rewrite round_nearest_even_exact. exact Hq.
    + rewrite <- Hq, <- Hr. apply round_up_half.
      rewrite Hr. apply Z.mod_pos_bound. exact Hb.
  - (* 54 digits: one shift before rounding *)
    assert (Hs46 : 46 <= s).
    { destruct (Z_le_gt_dec 46 s) as [ | Hlt]; [assumption | ].
      assert (s = 45) by lia.
      assert (q < 2 ^ 53); [ | lia].
      rewrite Hq. apply Z.div_lt_upper_bound; [lia | ].
      rewrite H. change (2 ^ 53) with (2 ^ 8 * 2 ^ 45). nia. }
    rewrite binary_round_aux_54 by lia. cbv zeta.
    destruct (shr_1_half q (new_location b r)) as [_ Hex]; [lia | ].
    set (l' := loc_of_shr_record (shr_1 (shr_record_of_loc q (new_location b r)))) in *.
    pose proof (round_nearest_even_range (q / 2) l') as Hm1.
    set (m1 := round_nearest_even (q / 2) l') in *.
    assert (HP1 : 0 < 2 ^ (s - 1)) by (apply Z.pow_pos_nonneg; lia).
    assert (H2P : 2 ^ s = 2 ^ (s - 1) * 2).
    { rewrite Z.mul_comm, <- Z.pow_succ_r by lia. f_equal. lia. }
    assert (Hq2 : q / 2 = (a * 2 ^ (s - 1)) / b).
    { rewrite Hq, H2P. rewrite Z.mul_assoc.
      rewrite Z.div_div by lia. rewrite (Z.mul_comm b 2).
      rewrite Z.mul_comm. rewrite Z.div_mul_cancel_l by lia. reflexivity. }
    assert (Hq2r : 2 ^ 52 <= q / 2 < 2 ^ 53).
    { split; [apply Z.div_le_lower_bound | apply Z.div_lt_upper_bound]; lia. }
    exists m1, (s - 1). split; [lia | ]. split; [ | split; [ | split]].
    + destruct (Z.ltb_spec m1 (2 ^ 53)) as [Hlt | Hge].
      * destruct m1 as [ | pm | pm ] eqn:Em; try lia.
        cbn [Z.to_pos].
        rewrite Prim2SF_SF2Prim by (apply finite53_valid; lia).
        rewrite trunc_SF_neg_exp by lia.
        replace (- (da - db - 53 + 1)) with (s - 1) by (unfold s in *; lia).
        reflexivity.
      * assert (Hm53 : m1 = 2 ^ 53) by lia.
        rewrite Prim2SF_SF2Prim
          by (apply finite53_valid; [change (Zpos (Z.to_pos (2 ^ 52))) with (2 ^ 52) | ]; lia).
        rewrite trunc_SF_neg_exp by lia.
        rewrite Hm53.
        replace (- (da - db - 53 + 2)) with (s - 2) by (unfold s in *; lia).
        replace (2 ^ (s - 1)) with (2 * 2 ^ (s - 2)).
        2:{ rewrite <- Z.pow_succ_r by lia. f_equal. lia. }
        change (Zpos (Z.to_pos (2 ^ 52))) with (2 ^ 52).
        change (2 ^ 53) with (2 * 2 ^ 52).
        rewrite Z.div_mul_cancel_l; [reflexivity | | lia].
        assert (0 < 2 ^ (s - 2)) by (apply Z.pow_pos_nonneg; lia). lia.
    + rewrite <- Hq2. exact Hm1.
    + intros Hz. unfold m1. rewrite <- Hq2.
      assert (Hr0 : r = 0 /\ Z.even q = true).
      { pose proof (Z.div_mod (a * 2 ^ (s - 1)) b ltac:(lia)) as Hd.
        rewrite Hz, <- Hq2, Z.add_0_r in Hd.
        assert (Hd2 : a * 2 ^ s = b * (2 * (q / 2)) + 0) by (rewrite H2P; lia).
        assert (q = 2 * (q / 2)).
        { generalize dependent (q / 2). intros h _ _ _ _ Hd2.
          rewrite Hq. symmetry. apply (Z.div_unique_pos _ b _ 0); lia. }
        split.
        - rewrite Hr. symmetry. apply (Z.mod_unique_pos _ b (2 * (q / 2))); lia.
        - rewrite H. rewrite Z.even_mul. reflexivity. }
      destruct Hr0 as [Hr0 Hev].
      rewrite Hex; [reflexivity | assumption | ].
      apply new_location_exact; assumption.
    + rewrite <- Hq2. intros Hup.
      pose proof (round_up_odd q (new_location b r) ltac:(lia) Hup) as Hodd.
      pose proof (Z.div_mod (a * 2 ^ s) b ltac:(lia)) as Hd. rewrite <- Hq, <- Hr in Hd.
      pose proof (Z.mod_pos_bound (a * 2 ^ s) b Hb) as Hrb. rewrite <- Hr in Hrb.
      pose proof (Z.div_mod (a * 2 ^ (s - 1)) b ltac:(lia)) as Hd'. rewrite <- Hq2 in Hd'.
      pose proof (Z.div_mod q 2 ltac:(lia)) as Hq2'.
      rewrite Zmod_odd, Hodd in Hq2'.
      lia.
Qed.

(** Below [2 ^ 46] elements the rounded quotient truncates to the integer
    quotient: a quotient under 256 lies at least [1 / b] below the next
    integer, and half a unit in the last place is at most [2 ^ -46]. *)
Lemma int_mean_exact (a b : Z) :
  0 < b < 2 ^ 46 -> 0 <= a <= 255 * b -> int_mean a b = Ok (a / b).
Proof.
  intros Hb Ha.
  destruct a as [ | pa | pa ]; try lia.
  { destruct b as [ | pb | pb ]; try lia. reflexivity. }
  destruct b as [ | pb | pb ]; try lia.
  assert (Hdb46 : Zpos (digits2_pos pb) <= 46).
  { pose proof (digits2_pos_bounds pb) as [Hbl _].
    destruct (Z_le_gt_dec (Zpos (digits2_pos pb)) 46) as [ | Hgt]; [assumption | ].
    assert (2 ^ 46 <= 2 ^ (Zpos (digits2_pos pb) - 1)) by (apply Z.pow_le_mono_r; lia).
    lia. }
  destruct (int_mean_normal pa pb) as (m1 & E & HE & Hres & Hm1 & Hex & Hup); try lia.
  rewrite Hres. f_equal.
  apply scaled_quotient_trunc; try lia.
  assert (2 ^ 45 <= 2 ^ E) by (apply Z.pow_le_mono_r; lia).
  change (2 ^ 46) with (2 * 2 ^ 45) in Hb. lia.
Qed.

Lemma Zdigits2_le (q n : Z) : 0 <= n -> 0 <= q < 2 ^ n -> 0 <= Zdigits2 q <= n.
Proof.
  intros Hn [Hq0 Hq]. destruct q as [ | p | p ]; try lia.
  { cbn [Zdigits2]. lia. }
  cbn [Zdigits2]. pose proof (digits2_pos_bounds p) as [Hlo _].
  split; [lia | ].
  destruct (Z_le_gt_dec (Zpos (digits2_pos p)) n) as [ | Hgt]; [assumption | ].
  assert (2 ^ n <= 2 ^ (Zpos (digits2_pos p) - 1)) by (apply Z.pow_le_mono_r; lia).
  lia.
Qed.

(** A quotient below the smallest normal number rounds to a value whose
    integer part is zero. *)
Lemma binary_round_aux_tiny (q : Z) (l : location) :
  0 <= q < 2 ^ 53 ->
  valid_binary (binary_round_aux prec emax false q (-1074) l) = true /\
  trunc_SF (binary_round_aux prec emax false q (-1074) l) = Ok 0.
Proof.
  intros Hq. unfold binary_round_aux, shr_fexp.
  pose proof (Zdigits2_le q 53 ltac:(lia) Hq) as Hd.
  unfold fexp, SpecFloat.emin, prec, emax.
  replace (Z.max (Zdigits2 q + -1074 - 53) (3 - 1024 - 53) - -1074) with 0 by lia.
  cbn [shr].
  assert (Hm : shr_m (shr_record_of_loc q l) = q) by (destruct l as [ | [ | | ] ]; reflexivity).
  assert (Hl : loc_of_shr_record (shr_record_of_loc q l) = l) by (destruct l as [ | [ | | ] ]; reflexivity).
  rewrite Hm, Hl.
  pose proof (round_nearest_even_range q l) as Hr.
  set (m1 := round_nearest_even q l) in *.
  assert (Hbig : 2 ^ 53 < 2 ^ 1073) by (apply Z.pow_lt_mono_r; lia).
  assert (Hbig' : 2 ^ 1073 < 2 ^ 1074) by (apply Z.pow_lt_mono_r; lia).
  destruct (Z_lt_ge_dec m1 (2 ^ 53)) as [Hlt | Hge].
  - pose proof (Zdigits2_le m1 53 ltac:(lia) ltac:(lia)) as Hd1.
    replace (Z.max (Zdigits2 m1 + -1074 - 53) (3 - 1024 - 53) - -1074) with 0 by lia.
    cbn [shr shr_record_of_loc shr_m].
    destruct m1 as [ | p | p ] eqn:Em; try lia.
    + split; reflexivity.
    + replace (-1074 <=? 1024 - 53) with true by reflexivity.
      split.
      * unfold SpecFloat.valid_binary, bounded, canonical_mantissa.
        cbn [Zdigits2] in Hd1.
        unfold fexp, SpecFloat.emin, prec, emax.
        apply andb_true_intro; split; [apply Z.eqb_eq | apply Z.leb_le]; lia.
      * rewrite trunc_SF_neg_exp by lia. f_equal.
        apply Z.div_small. change (- -1074) with 1074. lia.
  - assert (H : m1 = 2 ^ 53) by lia. rewrite H.
    vm_compute. split; reflexivity.
Qed.

Lemma int_mean_tiny (pa pb : positive) :
  Zpos (digits2_pos pa) + 1021 < Zpos (digits2_pos pb) ->
  int_mean (Zpos pa) (Zpos pb) = Ok 0.
Proof.
  intros Htiny. unfold int_mean, int_truediv.
  cbn [Z.eqb rbind]. unfold int_of_float.
  cbn [Z2SF SFdiv xorb]. unfold SFdiv_core_binary. cbn [Zdigits2].
  pose proof (digits2_pos_bounds pa) as [Hal Hah].
  pose proof (digits2_pos_bounds pb) as [Hbl Hbh].
  set (da := Zpos (digits2_pos pa)) in *. set (db := Zpos (digits2_pos pb)) in *.
  set (a := Zpos pa) in *. set (b := Zpos pb) in *.
  assert (Hda : 0 < da) by (unfold da; lia).
  assert (Hb : 0 < b) by (unfold b; lia).
  unfold fexp, SpecFloat.emin, prec, emax.
  replace (Z.min (Z.max (da + 0 - (db + 0) - 53) (3 - 1024 - 53)) (0 - 0))
    with (-1074) by lia.
  change (0 - 0 - -1074) with 1074. cbv iota beta.
  rewrite Z.shiftl_mul_pow2 by lia.
  destruct (Z.div_eucl (a * 2 ^ 1074) b) as [q r] eqn:Hqr.
  assert (Hq : q = (a * 2 ^ 1074) / b) by (unfold Z.div; rewrite Hqr; reflexivity).
  assert (HP : 0 < 2 ^ 1074) by (apply Z.pow_pos_nonneg; lia).
  assert (Hq0 : 0 <= q) by (rewrite Hq; apply Z.div_pos; nia).
  assert (Hq53 : q < 2 ^ 53).
  { rewrite Hq. apply Z.div_lt_upper_bound; [lia | ].
    assert (a * 2 ^ 1074 < 2 ^ (da + 1074)) by (rewrite Z.pow_add_r by lia; nia).
    assert (2 ^ (da + 1074) <= 2 ^ (53 + (db - 1))) by (apply Z.pow_le_mono_r; lia).
    rewrite (Z.pow_add_r 2 53 (db - 1)) in H0 by lia.
    assert (2 ^ 53 * 2 ^ (db - 1) <= 2 ^ 53 * b) by (apply Z.mul_le_mono_nonneg_l; lia).
    lia. }
  destruct (binary_round_aux_tiny q (new_location b r) ltac:(lia)) as [Hv Ht].
  rewrite Prim2SF_SF2Prim by exact Hv. exact Ht.
Qed.

(** Whatever the number of elements, a rounded mean of values within
    [0, 255] has its integer part within [0, 255]. *)
Lemma int_mean_range (a b : Z) :
  0 < b -> 0 <= a <= 255 * b ->
  exists v : Z, int_mean a b = Ok v /\ 0 <= v <= 255.
Proof.
  intros Hb Ha.
  destruct a as [ | pa | pa ]; try lia.
  { destruct b as [ | pb | pb ]; try lia. exists 0. split; [reflexivity | lia]. }
  destruct b as [ | pb | pb ]; try lia.
  destruct (Z_le_gt_dec (Zpos (digits2_pos pb)) (Zpos (digits2_pos pa) + 1021)) as [Hn | Ht].
  - destruct (int_mean_normal pa pb) as (m1 & E & HE & Hres & Hm1 & Hex & Hup); try lia.
    exists (m1 / 2 ^ E). split; [exact Hres | ].
    set (a := Zpos pa) in *. set (b := Zpos pb) in *.
    assert (HP : 0 < 2 ^ E) by (apply Z.pow_pos_nonneg; lia).
    pose proof (Z.div_mod (a * 2 ^ E) b ltac:(lia)) as HX.
    pose proof (Z.mod_pos_bound (a * 2 ^ E) b ltac:(lia)) as Hu.
    set (t := (a * 2 ^ E) / b) in *. set (u := (a * 2 ^ E) mod b) in *.
    assert (Ht0 : 0 <= t) by (apply Z.div_pos; nia).
    assert (Ht255 : t <= 255 * 2 ^ E) by nia.
    assert (Hm255 : m1 <= 255 * 2 ^ E).
    { destruct (Z.eq_dec t (255 * 2 ^ E)) as [Heq | Hne]; [ | lia].
      assert (u = 0) by nia. rewrite (Hex H). lia. }
    split.
    + apply Z.div_pos; lia.
    + apply Z.div_le_upper_bound; lia.
  - exists 0. split; [apply int_mean_tiny; lia | lia].
Qed.

(** Beyond that length the rounding shows: a mean just below 255 over
    [2 ^ 46] elements rounds up to 255.0. *)
Remark int_mean_rounds_up : int_mean (255 * 2 ^ 46 - 1) (2 ^ 46) = Ok 255.
Proof. vm_compute. reflexivity. Qed.

(** ** Computing with the kernel's floats *)

Lemma float_of_int_prim (n : int) : float_of_int (to_Z n) = of_uint63 n.
Proof.
  unfold float_of_int. rewrite <- FloatAxioms.of_uint63_spec. apply SF2Prim_Prim2SF.
Qed.

Lemma SFopp_binary_round_aux (s : bool) (m e : Z) (l : location) :
  SFopp (binary_round_aux prec emax s m e l) = binary_round_aux prec emax (negb s) m e l.
Proof.
  unfold binary_round_aux.
  destruct (shr_fexp prec emax m e l) as [mrs e1].
  destruct (shr_fexp prec emax _ e1 loc_Exact) as [mrs' e2].
  destruct (shr_m mrs'); [reflexivity | | reflexivity].
  destruct (e2 <=? emax - prec); reflexivity.
Qed.

Lemma float_of_int_opp (n : int) :
  0 < to_Z n -> float_of_int (- to_Z n) = (- of_uint63 n)%float.
Proof.
  intros Hn. unfold float_of_int.
  rewrite <- (SF2Prim_Prim2SF (- of_uint63 n)%float).
  rewrite FloatAxioms.opp_spec, FloatAxioms.of_uint63_spec. f_equal.
  destruct (to_Z n) as [ | p | p ]; try lia.
  cbn [Z.opp binary_normalize]. unfold binary_round.
  destruct (shl_align p 0 _) as [mz ez].
  rewrite SFopp_binary_round_aux. reflexivity.
Qed.

Lemma shr_fexp_53 (m e : Z) :
  2 ^ 52 <= m < 2 ^ 53 -> -1074 <= e ->
  shr_fexp prec emax m e loc_Exact = (Build_shr_record m false false, e).
Proof.
  intros Hm He. unfold shr_fexp.
  rewrite (Zdigits2_unique m 53) by (cbn; lia).
  unfold fexp, SpecFloat.emin, prec, emax.
  replace (Z.max (53 + e - 53) (3 - 1024 - 53) - e) with 0 by lia.
  reflexivity.
Qed.

Lemma trunc_SF_nonpos_exp (m : positive) (e : Z) :
  e <= 0 -> trunc_SF (S754_finite false m e) = Ok (Zpos m / 2 ^ (- e)).
Proof.
  intros He. destruct e as [ | p | p ]; try lia.
  - cbn. rewrite Z.div_1_r. reflexivity.
  - apply trunc_SF_neg_exp. lia.
Qed.

Lemma fast_trunc_correct (f : float) (v : int) :
  fast_trunc f = Some v -> int_of_float f = Ok (to_Z v).
Proof.
  unfold fast_trunc, int_of_float, Prim2SF.
  destruct (PrimFloat.is_nan f); [discriminate | ].
  destruct (PrimFloat.is_infinity f); [rewrite orb_true_r; discriminate | ].
  destruct (PrimFloat.get_sign f); [rewrite orb_true_r; discriminate | ].
  cbn [orb].
  destruct (PrimFloat.is_zero f).
  { intros H. injection H as <-. reflexivity. }
  unfold Z.frexp. destruct (frshiftexp f) as [r se].
  set (m := normfr_mantissa r).
  destruct (_ && _)%bool eqn:Hc; [ | discriminate].
  intros H. injection H as <-.
  apply andb_prop in Hc. destruct Hc as [Hc H4].
  apply andb_prop in Hc. destruct Hc as [Hc H3].
  apply andb_prop in Hc. destruct Hc as [H1 H2].
  apply Uint63.leb_spec in H1, H3, H4. apply Uint63.ltb_spec in H2.
  change (to_Z 4503599627370496) with (2 ^ 52) in H1.
  change (to_Z 9007199254740992) with (2 ^ 53) in H2.
  change (to_Z 1080) with 1080 in H3. change (to_Z 2154) with 2154 in H4.
  rewrite shr_fexp_53 by (unfold shift, prec; lia). cbn [shr_m].
  destruct (to_Z m) as [ | p | p ] eqn:Em; try lia.
  rewrite trunc_SF_nonpos_exp by (unfold shift, prec; lia).
  rewrite Uint63.lsr_spec, Em. do 3 f_equal. unfold shift, prec.
  rewrite Uint63.sub_spec. change (to_Z 2154) with 2154.
  rewrite Z.mod_small; [lia | ].
  change wB with 9223372036854775808. lia.
Qed.

Lemma fast_channel_correct (s e v : int) (p : float) :
  fast_channel s e p = Some v ->
  interpolate_channel (to_Z s) (to_Z e) p = Ok (to_Z v).
Proof.
  unfold fast_channel, interpolate_channel. intros H.
  apply fast_trunc_correct in H. rewrite <- H. do 3 f_equal.
  - apply float_of_int_prim.
  - pose proof (Uint63.to_Z_bounded s) as Hs. pose proof (Uint63.to_Z_bounded e) as He.
    destruct (Uint63.lebP s e) as [Hle | Hgt].
    + rewrite <- float_of_int_prim. f_equal.
      rewrite Uint63.sub_spec, Z.mod_small; lia.
    + rewrite <- float_of_int_opp; rewrite Uint63.sub_spec, Z.mod_small; try lia.
      f_equal. lia.
Qed.

(** ** Every fade between two channel values, by evaluation *)

Lemma progress_table_ok :
  map (fun i => int_truediv i transition_steps) fade_steps = map Ok progress_table.
Proof. vm_compute. reflexivity. Qed.

Lemma In_channel_range (z : Z) : 0 <= z <= 255 -> In z channel_range.
Proof.
  intros Hz. unfold channel_range. apply in_map_iff.
  exists (Z.to_nat z). split; [lia | ]. apply in_seq. lia.
Qed.

Lemma check_all_true :
  forallb (fun s => forallb (check_pair s) channel_range) channel_range = true.
Proof. vm_compute. reflexivity. Qed.

Lemma check_pair_true (s e : Z) :
  channel_ok s -> channel_ok e -> check_pair s e = true.
Proof.
  intros Hs He.
  pose proof (proj1 (forallb_forall _ _) check_all_true s (In_channel_range s Hs)) as H.
  exact (proj1 (forallb_forall _ _) H e (In_channel_range e He)).
Qed.

Lemma fast_values_correct (s e : int) (ps : list float) (vs : list int) :
  fast_values s e ps = Some vs ->
  map (interpolate_channel (to_Z s) (to_Z e)) ps = map Ok (map to_Z vs).
Proof.
  revert vs. induction ps as [ | p ps IH]; intros vs H; cbn in H.
  - injection H as <-. reflexivity.
  - destruct (fast_channel s e p) as [v | ] eqn:Hv; [ | discriminate].
    destruct (fast_values s e ps) as [vs' | ]; [ | discriminate].
    injection H as <-. cbn [map].
    rewrite (fast_channel_correct _ _ _ _ Hv), (IH vs' eq_refl). reflexivity.
Qed.

Lemma fade_channel_table (s e : Z) :
  map (fade_channel s e) fade_steps = map (interpolate_channel s e) progress_table.
Proof.
  unfold fade_channel.
  change (map (fun step => rbind (int_truediv step transition_steps) (interpolate_channel s e)) fade_steps)
    with (map (fun step => (fun r => rbind r (interpolate_channel s e))
                             ((fun i => int_truediv i transition_steps) step)) fade_steps).
  rewrite <- (map_map (fun i => int_truediv i transition_steps)
                      (fun r => rbind r (interpolate_channel s e))).
  rewrite progress_table_ok, map_map. reflexivity.
Qed.

Lemma fade_steps_eq : fade_steps = [1; 2; 3; 4; 5; 6; 7; 8; 9; 10].
Proof. reflexivity. Qed.

Lemma check_values_sound (s e : Z) (vs : list Z) :
  List.length vs = 10%nat ->
  check_values s e s fade_steps vs = true -> fade_sequence_ok s e vs.
Proof.
  intros Hlen H. rewrite fade_steps_eq in H.
  do 10 (destruct vs as [ | ? vs]; [discriminate Hlen | ]).
  destruct vs; [ | discriminate Hlen]. clear Hlen.
  cbn [check_values] in H.
  unfold fade_sequence_ok. rewrite fade_steps_eq.
  destruct (Z.leb_spec s e) as [Hse | Hes];
    repeat match type of H with
           | (_ && _)%bool = true => apply andb_prop in H; destruct H as [H ?]
           end;
    repeat match goal with
           | H : (_ <=? _) = true |- _ => apply Z.leb_le in H
           | H : (_ =? _) = true |- _ => apply Z.eqb_eq in H
           end.
  - split; [ | split; [ | split; [ | split]]].
    + repeat (apply Forall_cons; [lia | ]). apply Forall_nil.
    + cbn [last]. lia.
    + intros _.
      repeat (apply SSorted_cons;
              [ | repeat (apply Forall_cons; [lia | ]); apply Forall_nil]).
      apply SSorted_nil.
    + intros Hes.
      repeat (apply SSorted_cons;
              [ | repeat (apply Forall_cons; [lia | ]); apply Forall_nil]).
      apply SSorted_nil.
    + repeat (apply Forall2_cons; [lia | ]). apply Forall2_nil.
  - split; [ | split; [ | split; [ | split]]].
    + repeat (apply Forall_cons; [lia | ]). apply Forall_nil.
    + cbn [last]. lia.
    + intros Hse. lia.
    + intros _.
      repeat (apply SSorted_cons;
              [ | repeat (apply Forall_cons; [lia | ]); apply Forall_nil]).
      apply SSorted_nil.
    + repeat (apply Forall2_cons; [lia | ]). apply Forall2_nil.
Qed.

(** The ten values of a fade between two channel values, in binary64. *)
Lemma fade_channel_values (s e : Z) :
  channel_ok s -> channel_ok e ->
  exists vs : list Z,
    map (fade_channel s e) fade_steps = map Ok vs /\ fade_sequence_ok s e vs.
Proof.
  intros Hs He.
  pose proof (check_pair_true s e Hs He) as Hall.
  unfold check_pair in Hall.
  destruct (fast_values (of_Z s) (of_Z e) progress_table) as [vs | ] eqn:Hvs; [ | discriminate].
  exists (map to_Z vs). split.
  - rewrite fade_channel_table.
    apply fast_values_correct in Hvs.
    unfold channel_ok in Hs, He.
    rewrite !Uint63.of_Z_spec in Hvs.
    rewrite !Z.mod_small in Hvs by (change wB with 9223372036854775808; lia).
    exact Hvs.
  - apply check_values_sound; [ | exact Hall].
    apply fast_values_correct in Hvs.
    apply (f_equal (@List.length _)) in Hvs.
    rewrite !length_map in Hvs. rewrite length_map, <- Hvs. reflexivity.
Qed.

(** * The bridge *)

(** ** Equality of readings *)

Lemma color_eqb_eq (c d : color) : color_eqb c d = true <-> c = d.
Proof.
  destruct c as [[r g] b], d as [[r' g'] b']. unfold color_eqb, red, green, blue. cbn.
  rewrite !andb_true_iff, !Z.eqb_eq. split.
  - intros [[-> ->] ->]. reflexivity.
  - intros H. injection H as -> -> ->. auto.
Qed.

Lemma colors_eqb_eq (current : list color) (last : option (list color)) :
  colors_eqb current last = true <-> last = Some current.
Proof.
  destruct last as [l | ]; cbn; [ | split; discriminate].
  rewrite andb_true_iff, Nat.eqb_eq. split.
  - intros [Hlen Hall]. f_equal. revert l Hlen Hall.
    induction current as [ | c cs IH]; intros [ | d ds] Hlen Hall; try discriminate.
    + reflexivity.
    + cbn in Hall. apply andb_true_iff in Hall. destruct Hall as [Hc Hcs].
      apply color_eqb_eq in Hc. cbn in Hc. subst d. f_equal.
      apply IH; [injection Hlen; auto | exact Hcs].
  - intros H. injection H as ->. split; [reflexivity | ].
    induction current as [ | c cs IH]; [reflexivity | ].
    cbn. rewrite IH, andb_true_r. apply color_eqb_eq. reflexivity.
Qed.

Lemma colors_eqb_neq (current : list color) (last : option (list color)) :
  colors_eqb current last = false <-> last <> Some current.
Proof.
  rewrite <- colors_eqb_eq. destruct (colors_eqb current last); split; congruence.
Qed.

(** ** Unfolding [get_average_color] *)

Lemma get_average_color_read (E : env) (s : state) (d : device) :
  icue_device (icue s) = Some d -> icue_led_ids (icue s) <> [] ->
  get_average_color E s =
  try_except (read_colors E d) (fun _ => reconnect E ;; ret None) s.
Proof.
  intros Hd Hl. unfold get_average_color, bind, get_icue. rewrite Hd.
  destruct (icue_led_ids (icue s)); [contradiction | reflexivity].
Qed.

Lemma read_colors_some (E : env) (s : state) (d : device) (leds : list led) :
  sdk_get_led_colors E (clock s) = Ok (Some leds) -> leds <> [] ->
  read_colors E d s =
  sample_colors leds (after_call (SdkGetLedColors (device_id d) (icue_led_ids (icue s))) s).
Proof.
  intros Hr Hne. unfold read_colors, bind, get_icue, call. rewrite Hr.
  destruct leds; [contradiction | reflexivity].
Qed.

Lemma sample_colors_same (leds : list led) (s : state) :
  icue_last_colors (icue s) = Some (map rgb leds) ->
  sample_colors leds s = (Ok None, s).
Proof.
  intros H. unfold sample_colors, bind, get_icue.
  rewrite (proj2 (colors_eqb_eq _ _) H). reflexivity.
Qed.

Lemma sample_colors_new (leds : list led) (s : state) :
  icue_last_colors (icue s) <> Some (map rgb leds) ->
  sample_colors leds s =
  (rbind (average_color leds) (fun c => Ok (Some c)),
   mkState (mkIcue (icue_device_id (icue s)) (icue_device (icue s))
                   (icue_led_ids (icue s)) (Some (map rgb leds)))
           (magic s) (clock s) (trace s)).
Proof.
  intros H. unfold sample_colors, bind, get_icue.
  rewrite (proj2 (colors_eqb_neq _ _) H).
  unfold set_last_colors, bind, get_icue, put_icue, lift, ret. cbn.
  destruct (average_color leds); reflexivity.
Qed.

Lemma get_average_color_same (E : env) (s : state) (d : device) (leds : list led) :
  icue_device (icue s) = Some d ->
  icue_led_ids (icue s) <> [] ->
  sdk_get_led_colors E (clock s) = Ok (Some leds) ->
  leds <> [] ->
  icue_last_colors (icue s) = Some (map rgb leds) ->
  get_average_color E s =
  (Ok None, after_call (SdkGetLedColors (device_id d) (icue_led_ids (icue s))) s).
Proof.
  intros Hd Hids Hread Hne Hlast.
  rewrite (get_average_color_read E s d Hd Hids).
  unfold try_except. rewrite (read_colors_some E s d leds Hread Hne).
  rewrite sample_colors_same by exact Hlast. reflexivity.
Qed.

Lemma get_average_color_new (E : env) (s : state) (d : device) (leds : list led) (c : color) :
  icue_device (icue s) = Some d ->
  icue_led_ids (icue s) <> [] ->
  sdk_get_led_colors E (clock s) = Ok (Some leds) ->
  leds <> [] ->
  icue_last_colors (icue s) <> Some (map rgb leds) ->
  average_color leds = Ok c ->
  get_average_color E s =
  (Ok (Some c),
   mkState (mkIcue (icue_device_id (icue s)) (Some d) (icue_led_ids (icue s))
                   (Some (map rgb leds)))
           (magic s) (S (clock s))
           (trace s ++ [SdkGetLedColors (device_id d) (icue_led_ids (icue s))])).
Proof.
  intros Hd Hids Hread Hne Hlast Hc.
  rewrite (get_average_color_read E s d Hd Hids).
  unfold try_except. rewrite (read_colors_some E s d leds Hread Hne).
  rewrite sample_colors_new by exact Hlast.
  rewrite Hc. cbn. rewrite Hd. reflexivity.
Qed.

(** ** Sums *)

Lemma sum_cons (x : Z) (l : list Z) : sum (x :: l) = x + sum l.
Proof.
  unfold sum. cbn [fold_left]. rewrite Z.add_0_l.
  revert x. induction l as [ | y l IH]; intros x; cbn [fold_left]; [lia | ].
  rewrite (IH (x + y)), (IH (0 + y)). lia.
Qed.

Lemma sum_app (l l' : list Z) : sum (l ++ l') = sum l + sum l'.
Proof.
  induction l as [ | x l IH]; [reflexivity | ].
  cbn [app]. rewrite !sum_cons, IH. lia.
Qed.

Lemma sum_repeat (x : Z) (n : nat) : sum (repeat x n) = Z.of_nat n * x.
Proof.
  induction n as [ | n IH]; [reflexivity | ].
  cbn [repeat]. rewrite sum_cons, IH. lia.
Qed.

Lemma sum_bounds (l : list Z) :
  Forall channel_ok l -> 0 <= sum l <= 255 * len l.
Proof.
  unfold len. induction 1 as [ | x l Hx _ IH]; [cbn; lia | ].
  rewrite sum_cons. cbn [List.length]. unfold channel_ok in Hx. lia.
Qed.

Lemma led_ok_channels (leds : list led) :
  Forall led_ok leds ->
  Forall channel_ok (map led_r leds) /\
  Forall channel_ok (map led_g leds) /\
  Forall channel_ok (map led_b leds).
Proof.
  induction 1 as [ | l leds Hl _ (IHr & IHg & IHb)]; [repeat split; constructor | ].
  destruct Hl as (Hr & Hg & Hb). cbn in Hr, Hg, Hb.
  repeat split; cbn [map]; constructor; assumption.
Qed.

Lemma len_pos {A : Type} (l : list A) : l <> [] -> 0 < len l.
Proof. destruct l; [contradiction | ]. intros _. unfold len. cbn [List.length]. lia. Qed.

Lemma len_map {A B : Type} (f : A -> B) (l : list A) : len (map f l) = len l.
Proof. unfold len. rewrite length_map. reflexivity. Qed.

Lemma average_color_exact (leds : list led) :
  leds <> [] -> Forall led_ok leds -> len leds < 2 ^ 46 ->
  average_color leds = Ok (mean_color leds).
Proof.
  intros Hne Hok Hlen.
  pose proof (len_pos leds Hne) as Hpos.
  destruct (led_ok_channels leds Hok) as (Hr & Hg & Hb).
  apply sum_bounds in Hr, Hg, Hb. rewrite len_map in Hr, Hg, Hb.
  unfold average_color, mean_color.
  rewrite !int_mean_exact by lia. cbn [rbind].
  rewrite !Z.quot_div_nonneg by lia. reflexivity.
Qed.

Lemma average_color_range (leds : list led) :
  leds <> [] -> Forall led_ok leds ->
  exists c : color, average_color leds = Ok c /\ color_ok c.
Proof.
  intros Hne Hok.
  pose proof (len_pos leds Hne) as Hpos.
  destruct (led_ok_channels leds Hok) as (Hr & Hg & Hb).
  apply sum_bounds in Hr, Hg, Hb. rewrite len_map in Hr, Hg, Hb.
  destruct (int_mean_range _ _ Hpos Hr) as (r & Er & Hr').
  destruct (int_mean_range _ _ Hpos Hg) as (g & Eg & Hg').
  destruct (int_mean_range _ _ Hpos Hb) as (b & Eb & Hb').
  exists (r, g, b). unfold average_color. rewrite Er, Eg, Eb.
  split; [reflexivity | ]. unfold color_ok, red, green, blue. cbn. auto.
Qed.

(** * C1: change suppression *)

(** C1, as stated, fails: two consecutive calls whose readings average to
    the same colour (2, 0, 0) both return it; the second is not suppressed,
    because what is compared is the tuple of per-LED colours. *)
Lemma same_aggregate_not_suppressed :
  average_color dim_bright = Ok (2, 0, 0) /\
  average_color even_glow = Ok (2, 0, 0) /\
  fst (get_average_color two_readings fresh) = Ok (Some (2, 0, 0)) /\
  fst (get_average_color two_readings (snd (get_average_color two_readings fresh)))
  = Ok (Some (2, 0, 0)).
Proof. vm_compute. repeat split; reflexivity. Qed.

(** C1 (amended): suppression is on the per-LED reading.  When the colours
    just read are, LED by LED, those stored in [last_colors], the call returns
    [None] and leaves the controller as it was; otherwise it stores the
    reading and returns its average; and so a second call that reads the
    same per-LED colours returns [None]. *)
Theorem change_suppression (E : env) (s : state) (d : device) (leds : list led) :
  icue_device (icue s) = Some d ->
  icue_led_ids (icue s) <> [] ->
  sdk_get_led_colors E (clock s) = Ok (Some leds) ->
  leds <> [] ->
  (icue_last_colors (icue s) = Some (map rgb leds) ->
   fst (get_average_color E s) = Ok None /\
   icue (snd (get_average_color E s)) = icue s) /\
  (icue_last_colors (icue s) <> Some (map rgb leds) ->
   forall c : color, average_color leds = Ok c ->
   fst (get_average_color E s) = Ok (Some c) /\
   icue_last_colors (icue (snd (get_average_color E s))) = Some (map rgb leds) /\
   forall leds' : list led,
     sdk_get_led_colors E (clock (snd (get_average_color E s))) = Ok (Some leds') ->
     map rgb leds' = map rgb leds ->
     fst (get_average_color E (snd (get_average_color E s))) = Ok None).
Proof.
  intros Hd Hids Hread Hne. split.
  - intros Hlast.
    rewrite (get_average_color_same E s d leds Hd Hids Hread Hne Hlast).
    split; reflexivity.
  - intros Hlast c Hc.
    rewrite (get_average_color_new E s d leds c Hd Hids Hread Hne Hlast Hc).
    cbn [fst snd icue icue_last_colors clock].
    split; [reflexivity | ]. split; [reflexivity | ].
    intros leds' Hread' Hsame.
    assert (Hne' : leds' <> []).
    { intros ->. destruct leds; [contradiction | discriminate]. }
    erewrite get_average_color_same; [reflexivity | reflexivity | exact Hids | exact Hread' | exact Hne' | ].
    cbn. rewrite Hsame. reflexivity.
Qed.

Lemma change_suppression_witness :
  (icue_last_colors (icue fresh) = Some (map rgb red_green) ->
   fst (get_average_color calm fresh) = Ok None /\
   icue (snd (get_average_color calm fresh)) = icue fresh) /\
  (icue_last_colors (icue fresh) <> Some (map rgb red_green) ->
   forall c : color, average_color red_green = Ok c ->
   fst (get_average_color calm fresh) = Ok (Some c) /\
   icue_last_colors (icue (snd (get_average_color calm fresh)))
   = Some (map rgb red_green) /\
   forall leds' : list led,
     sdk_get_led_colors calm (clock (snd (get_average_color calm fresh)))
     = Ok (Some leds') ->
     map rgb leds' = map rgb red_green ->
     fst (get_average_color calm (snd (get_average_color calm fresh)))
     = Ok None).
Proof.
  apply (change_suppression calm fresh demo_device red_green).
  - reflexivity.
  - discriminate.
  - reflexivity.
  - discriminate.
Defined.

(** * C2: averaging *)

Lemma long_reading_sums (n : nat) (x y : led) :
  sum (map led_r (repeat x n ++ [y])) = Z.of_nat n * led_r x + led_r y /\
  sum (map led_g (repeat x n ++ [y])) = Z.of_nat n * led_g x + led_g y /\
  sum (map led_b (repeat x n ++ [y])) = Z.of_nat n * led_b x + led_b y /\
  len (repeat x n ++ [y]) = Z.of_nat n + 1.
Proof.
  rewrite !map_app, !map_repeat, !sum_app, !sum_repeat.
  unfold len. rewrite length_app, repeat_length. cbn [map List.length].
  unfold sum at 1 2 3. cbn [fold_left]. repeat split; lia.
Qed.

(** The bound of [2 ^ 46] elements below cannot be raised: with [2 ^ 46]
    elements and a red total of [255 * 2 ^ 46 - 1] the quotient is within
    half a unit in the last place of 255.0 and rounds to it, so the average
    is 255 where the truncated mean is 254. *)
Lemma long_reading_rounds_up :
  average_color long_reading = Ok (255, 0, 0) /\
  mean_color long_reading = (254, 0, 0).
Proof.
  unfold average_color, mean_color, long_reading.
  destruct (long_reading_sums (Z.to_nat (2 ^ 46 - 1))
              (led_of 1 (255, 0, 0)) (led_of 2 (254, 0, 0))) as (Hr & Hg & Hb & Hn).
  rewrite Hr, Hg, Hb, Hn.
  rewrite Z2Nat.id by (vm_compute; discriminate).
  vm_compute. split; reflexivity.
Qed.

(** C2: for a non-empty reading with every channel within [0, 255], the
    colour [get_average_color] returns is, channel by channel, the arithmetic
    mean truncated toward zero; for instance (127, 127, 0) for one red and
    one green LED.  The reading has fewer than [2 ^ 46] elements, as has
    every list a device can be read into. *)
Theorem averaging_correct (E : env) (s : state) (d : device) (leds : list led) :
  icue_device (icue s) = Some d ->
  icue_led_ids (icue s) <> [] ->
  sdk_get_led_colors E (clock s) = Ok (Some leds) ->
  leds <> [] ->
  Forall led_ok leds ->
  len leds < 2 ^ 46 ->
  icue_last_colors (icue s) <> Some (map rgb leds) ->
  fst (get_average_color E s) = Ok (Some (mean_color leds)).
Proof.
  intros Hd Hids Hread Hne Hok Hlen Hlast.
  rewrite (get_average_color_new E s d leds (mean_color leds) Hd Hids Hread Hne Hlast
             (average_color_exact leds Hne Hok Hlen)).
  reflexivity.
Qed.

Lemma averaging_correct_witness :
  fst (get_average_color calm fresh) = Ok (Some (mean_color red_green)) /\
  mean_color red_green = (127, 127, 0).
Proof.
  split; [ | reflexivity].
  apply (averaging_correct calm fresh demo_device red_green).
  - reflexivity.
  - discriminate.
  - reflexivity.
  - discriminate.
  - repeat constructor; cbn; lia.
  - reflexivity.
  - discriminate.
Defined.

(** ** Traces *)

Lemma writes_app (tr tr' : list event) : writes (tr ++ tr') = writes tr ++ writes tr'.
Proof. unfold writes. apply flat_map_app. Qed.

Lemma turn_off_calls_app (tr tr' : list event) :
  turn_off_calls (tr ++ tr') = (turn_off_calls tr + turn_off_calls tr')%nat.
Proof. unfold turn_off_calls. rewrite filter_app, length_app. reflexivity. Qed.

Lemma writes_silent (tr : list event) (ev : event) :
  silent ev = true -> writes (tr ++ [ev]) = writes tr.
Proof.
  intros H. rewrite writes_app. destruct ev; try discriminate; cbn; apply app_nil_r.
Qed.

Lemma turn_off_calls_silent (tr : list event) (ev : event) :
  silent ev = true -> turn_off_calls (tr ++ [ev]) = turn_off_calls tr.
Proof.
  intros H. rewrite turn_off_calls_app. destruct ev; try discriminate; cbn; lia.
Qed.

Lemma source_frame_refl (s : state) : source_frame s s.
Proof. repeat split. Qed.

Lemma source_frame_trans (s1 s2 s3 : state) :
  source_frame s1 s2 -> source_frame s2 s3 -> source_frame s1 s3.
Proof. intros (A & B & C) (A' & B' & C'). repeat split; congruence. Qed.

Ltac monad_unfold :=
  unfold bind, ret, raise, lift, try_except, call, mark,
    get_icue, get_magic, put_icue, put_magic,
    set_device, set_led_ids, set_last_colors, set_bulb, set_last_color in *.

Ltac msimpl :=
  repeat (monad_unfold;
          cbn [fst snd icue magic clock trace icue_device_id icue_device icue_led_ids
               icue_last_colors magic_ip magic_bulb magic_last_color negb]).

(** Case analysis on every answer of the outside met on the way. *)
Ltac answers :=
  repeat (monad_unfold;
          cbn [fst snd icue magic clock trace icue_device_id icue_device icue_led_ids
               icue_last_colors magic_ip magic_bulb magic_last_color negb];
          match goal with
          | |- context [match ?o ?E ?n with _ => _ end] =>
              match type of n with
              | nat => let H := fresh "Ans" in destruct (o E n) eqn:H
              end
          | |- context [if ?b then _ else _] => destruct b eqn:?
          | |- context [match ?x with _ => _ end] => destruct x eqn:?
          end).

Ltac frame_leaf :=
  cbn [fst snd icue magic clock trace icue_last_colors];
  rewrite ?writes_silent, ?turn_off_calls_silent by reflexivity;
  repeat split.

Lemma reconnect_frame (E : env) (s : state) :
  source_frame s (snd (reconnect E s)) /\
  icue_last_colors (icue (snd (reconnect E s))) = icue_last_colors (icue s).
Proof.
  unfold source_frame, reconnect, find_device, find_all_led_ids. monad_unfold.
  answers; frame_leaf.
Qed.

(** ** The paths of [get_average_color] that reconnect *)

Lemma get_average_color_read_raises (E : env) (s : state) (d : device) (e : exn) :
  icue_device (icue s) = Some d ->
  icue_led_ids (icue s) <> [] ->
  sdk_get_led_colors E (clock s) = Raise e ->
  is_Exception e = true ->
  get_average_color E s =
  (reconnect E ;; ret None)
    (after_call (SdkGetLedColors (device_id d) (icue_led_ids (icue s))) s).
Proof.
  intros Hd Hids Hread He.
  rewrite (get_average_color_read E s d Hd Hids).
  unfold try_except, read_colors at 1. unfold bind at 1, get_icue, bind at 1, call.
  rewrite Hread, He. reflexivity.
Qed.

Lemma get_average_color_read_empty (E : env) (s : state) (d : device)
      (ol : option (list led)) :
  icue_device (icue s) = Some d ->
  icue_led_ids (icue s) <> [] ->
  sdk_get_led_colors E (clock s) = Ok ol ->
  truthy ol = false ->
  get_average_color E s =
  try_except (reconnect E ;; ret None) (fun _ => reconnect E ;; ret None)
    (after_call (SdkGetLedColors (device_id d) (icue_led_ids (icue s))) s).
Proof.
  intros Hd Hids Hread Hol.
  rewrite (get_average_color_read E s d Hd Hids).
  unfold try_except, read_colors at 1. unfold bind at 1, get_icue, bind at 1, call.
  rewrite Hread, Hol. reflexivity.
Qed.

Lemma reconnect_then_none (E : env) (s : state) :
  (reconnect E ;; ret (@None color)) s =
  (rbind (fst (reconnect E s)) (fun _ => Ok None), snd (reconnect E s)).
Proof.
  unfold bind at 1, ret. destruct (reconnect E s) as [[[] | e] s']; reflexivity.
Qed.

(** * C3: a failed read *)

(** C3, as stated, fails: when the read raises and the SDK then refuses the
    connection, [reconnect] raises and [get_average_color] raises with it. *)
Lemma failed_reconnect_raises :
  fst (get_average_color unplugged fresh)
  = Raise (RuntimeError "Could not connect to iCUE SDK").
Proof. vm_compute. reflexivity. Qed.

(** C3 (amended): when the read raises an [Exception] or returns no
    elements, [get_average_color] calls [reconnect]; if that call succeeds it
    returns [None] in the state [reconnect] left; it never returns a colour;
    and when it raises, what it raises was raised by a [reconnect]. *)
Theorem read_failure_reconnects (E : env) (s : state) (d : device) :
  icue_device (icue s) = Some d ->
  icue_led_ids (icue s) <> [] ->
  (exists e, sdk_get_led_colors E (clock s) = Raise e /\ is_Exception e = true) \/
  (exists ol, sdk_get_led_colors E (clock s) = Ok ol /\ truthy ol = false) ->
  let s1 := after_call (SdkGetLedColors (device_id d) (icue_led_ids (icue s))) s in
  (fst (reconnect E s1) = Ok tt ->
   get_average_color E s = (Ok None, snd (reconnect E s1))) /\
  (forall c : color, fst (get_average_color E s) <> Ok (Some c)) /\
  (forall e' : exn, fst (get_average_color E s) = Raise e' ->
   exists s2 : state, fst (reconnect E s2) = Raise e').
Proof.
  intros Hd Hids [(e & Hread & He) | (ol & Hread & Hol)] s1.
  - rewrite (get_average_color_read_raises E s d e Hd Hids Hread He).
    fold s1. rewrite reconnect_then_none.
    destruct (reconnect E s1) as [[[] | e1] s2] eqn:Hrec; cbn [fst snd rbind].
    + repeat split; [discriminate | discriminate].
    + split; [discriminate | ]. split; [discriminate | ].
      intros e' H. injection H as <-. exists s1. rewrite Hrec. reflexivity.
  - rewrite (get_average_color_read_empty E s d ol Hd Hids Hread Hol).
    fold s1. unfold try_except. rewrite reconnect_then_none.
    destruct (reconnect E s1) as [[[] | e1] s2] eqn:Hrec; cbn [fst snd rbind].
    + repeat split; [discriminate | discriminate].
    + split; [discriminate | ].
      destruct (is_Exception e1).
      * rewrite reconnect_then_none.
        destruct (reconnect E s2) as [[[] | e2] s3] eqn:Hrec2; cbn [fst snd rbind].
        -- split; discriminate.
        -- split; [discriminate | ].
           intros e' H. injection H as <-. exists s2. rewrite Hrec2. reflexivity.
      * cbn [fst]. split; [discriminate | ].
        intros e' H. injection H as <-. exists s1. rewrite Hrec. reflexivity.
Qed.

Lemma read_failure_reconnects_witness :
  let s1 := after_call (SdkGetLedColors "kbd" [1; 2]) fresh in
  (fst (reconnect flaky s1) = Ok tt ->
   get_average_color flaky fresh = (Ok None, snd (reconnect flaky s1))) /\
  (forall c : color, fst (get_average_color flaky fresh) <> Ok (Some c)) /\
  (forall e' : exn, fst (get_average_color flaky fresh) = Raise e' ->
   exists s2 : state, fst (reconnect flaky s2) = Raise e').
Proof.
  apply (read_failure_reconnects flaky fresh demo_device).
  - reflexivity.
  - discriminate.
  - left. exists DeviceError. split; reflexivity.
Defined.

(** ** What [reconnect] and the constructor leave *)

Lemma reconnect_ok_device (E : env) (s : state) :
  fst (reconnect E s) = Ok tt ->
  exists d : device, icue_device (icue (snd (reconnect E s))) = Some d.
Proof.
  unfold reconnect, find_device, find_all_led_ids. monad_unfold.
  answers; cbn [fst snd icue icue_device]; intros H; try discriminate H; eauto.
Qed.

Lemma icue_init_last_colors (E : env) (dev_id : string) (s : state) :
  icue_last_colors (icue (snd (icue_init E dev_id s))) = None.
Proof.
  unfold icue_init, find_device, find_all_led_ids. monad_unfold.
  answers; reflexivity.
Qed.

(** * C4: the stored reading across a reconnect *)

(** C4, as stated, fails: a read failure and a successful reconnect later,
    the reading seen before the failure is still the stored one, and the
    same reading is suppressed. *)
Lemma suppressed_after_reconnect :
  let s1 := snd (get_average_color hiccup fresh) in
  let s2 := snd (get_average_color hiccup s1) in
  fst (get_average_color hiccup fresh) = Ok (Some (127, 127, 0)) /\
  fst (get_average_color hiccup s1) = Ok None /\
  In SdkConnect (trace s2) /\
  icue_last_colors (icue s2) = Some (map rgb red_green) /\
  sdk_get_led_colors hiccup (clock s2) = Ok (Some red_green) /\
  fst (get_average_color hiccup s2) = Ok None.
Proof. vm_compute. repeat split; try reflexivity. auto 10. Qed.

(** C4 (amended): a newly constructed controller has no stored reading, and
    [reconnect] leaves the stored reading as it was; so when a read raises and
    the reconnect that follows succeeds, the next call that reads the colours
    stored before the failure returns [None]. *)
Theorem reconnect_keeps_last_colors (E : env) :
  (forall (dev_id : string) (s : state),
     icue_last_colors (icue (snd (icue_init E dev_id s))) = None) /\
  (forall s : state,
     icue_last_colors (icue (snd (reconnect E s))) = icue_last_colors (icue s)) /\
  (forall (s : state) (d : device) (leds : list led) (e : exn),
     icue_device (icue s) = Some d ->
     icue_led_ids (icue s) <> [] ->
     leds <> [] ->
     icue_last_colors (icue s) = Some (map rgb leds) ->
     sdk_get_led_colors E (clock s) = Raise e ->
     is_Exception e = true ->
     fst (reconnect E (after_call (SdkGetLedColors (device_id d) (icue_led_ids (icue s))) s))
     = Ok tt ->
     let s' := snd (get_average_color E s) in
     icue_led_ids (icue s') <> [] ->
     sdk_get_led_colors E (clock s') = Ok (Some leds) ->
     fst (get_average_color E s) = Ok None /\
     fst (get_average_color E s') = Ok None).
Proof.
  split; [ | split].
  - intros dev_id s. apply icue_init_last_colors.
  - intros s. apply reconnect_frame.
  - intros s d leds e Hd Hids Hne Hlast Hread He Hrec.
    rewrite (get_average_color_read_raises E s d e Hd Hids Hread He).
    rewrite reconnect_then_none.
    set (s1 := after_call _ s) in *. rewrite Hrec. cbn [rbind fst snd].
    intros Hids' Hread'.
    split; [reflexivity | ].
    destruct (reconnect_ok_device E s1 Hrec) as [d' Hd'].
    rewrite (get_average_color_same E _ d' leds Hd' Hids' Hread' Hne); [reflexivity | ].
    rewrite (proj2 (reconnect_frame E s1)). exact Hlast.
Qed.

Lemma reconnect_keeps_last_colors_witness :
  let s := snd (get_average_color hiccup fresh) in
  let s' := snd (get_average_color hiccup s) in
  fst (get_average_color hiccup s) = Ok None /\
  fst (get_average_color hiccup s') = Ok None.
Proof.
  apply (proj2 (proj2 (reconnect_keeps_last_colors hiccup))
           (snd (get_average_color hiccup fresh)) demo_device red_green DeviceError).
  - reflexivity.
  - discriminate.
  - discriminate.
  - reflexivity.
  - reflexivity.
  - reflexivity.
  - reflexivity.
  - discriminate.
  - reflexivity.
Defined.

(** ** Where an exception can come from *)

Ltac use_never H :=
  match goal with
  | A : ?o ?E ?n = Raise _ |- _ =>
      exfalso; pose proof (H n) as Hn; rewrite A in Hn; clear - Hn; intuition congruence
  end.

Lemma reconnect_no_zero_division (E : env) (s : state) :
  never_raises ZeroDivisionError E ->
  fst (reconnect E s) <> Raise ZeroDivisionError.
Proof.
  intros Hnever.
  unfold reconnect, find_device, find_all_led_ids. monad_unfold.
  answers; cbn [fst]; try discriminate; intros Heq; injection Heq as ->; use_never Hnever.
Qed.

Lemma int_of_float_no_zero_division (f : float) :
  int_of_float f <> Raise ZeroDivisionError.
Proof.
  unfold int_of_float. destruct (Prim2SF f); cbn; discriminate.
Qed.

Lemma int_mean_no_zero_division (total count : Z) :
  count <> 0 -> int_mean total count <> Raise ZeroDivisionError.
Proof.
  intros Hc. unfold int_mean, int_truediv.
  replace (count =? 0) with false by (symmetry; apply Z.eqb_neq; exact Hc).
  cbn [rbind]. apply int_of_float_no_zero_division.
Qed.

Lemma average_color_no_zero_division (leds : list led) :
  leds <> [] -> average_color leds <> Raise ZeroDivisionError.
Proof.
  intros Hne. pose proof (len_pos leds Hne) as Hpos.
  assert (Hc : len leds <> 0) by lia.
  unfold average_color.
  pose proof (int_mean_no_zero_division (sum (map led_r leds)) _ Hc) as Hr.
  pose proof (int_mean_no_zero_division (sum (map led_g leds)) _ Hc) as Hg.
  pose proof (int_mean_no_zero_division (sum (map led_b leds)) _ Hc) as Hb.
  destruct (int_mean (sum (map led_r leds)) (len leds)); cbn [rbind]; [ | intros Heq; apply Hr; congruence].
  destruct (int_mean (sum (map led_g leds)) (len leds)); cbn [rbind]; [ | intros Heq; apply Hg; congruence].
  destruct (int_mean (sum (map led_b leds)) (len leds)); cbn [rbind]; [ | intros Heq; apply Hb; congruence].
  discriminate.
Qed.

(** * C10: the division by the count *)

(** C10: the averaging is reached with a non-empty list only.  In the body
    of the [try], a reading that passes the test of line 147 has a count above
    zero, no quotient by it is a [ZeroDivisionError], and unless a call to the
    outside raises one itself the body raises none. *)
Theorem division_by_count_safe (E : env) (d : device) (s : state) :
  never_raises ZeroDivisionError E ->
  fst (read_colors E d s) <> Raise ZeroDivisionError /\
  (forall ol : option (list led),
     sdk_get_led_colors E (clock s) = Ok ol ->
     truthy ol = true ->
     0 < len (elements ol) /\
     (forall total : Z, int_truediv total (len (elements ol)) <> Raise ZeroDivisionError) /\
     read_colors E d s =
     sample_colors (elements ol)
       (after_call (SdkGetLedColors (device_id d) (icue_led_ids (icue s))) s)) /\
  (forall ol : option (list led),
     sdk_get_led_colors E (clock s) = Ok ol ->
     truthy ol = false ->
     read_colors E d s =
     (reconnect E ;; ret None)
       (after_call (SdkGetLedColors (device_id d) (icue_led_ids (icue s))) s)).
Proof.
  intros Hnever. split; [ | split].
  - unfold read_colors. unfold bind at 1, get_icue. unfold bind at 1, call.
    destruct (sdk_get_led_colors E (clock s)) as [ol | e] eqn:Hread.
    + destruct (truthy ol) eqn:Hol; cbn [negb].
      * destruct ol as [[ | l leds] | ]; try discriminate Hol. cbn [elements].
        set (s1 := mkState _ _ _ _).
        destruct (colors_eqb (map rgb (l :: leds)) (icue_last_colors (icue s1))) eqn:Heq.
        -- apply colors_eqb_eq in Heq. rewrite sample_colors_same by exact Heq.
           discriminate.
        -- apply colors_eqb_neq in Heq. rewrite sample_colors_new by exact Heq.
           cbn [fst].
           pose proof (average_color_no_zero_division (l :: leds) ltac:(discriminate)) as Ha.
           destruct (average_color (l :: leds)); cbn [rbind]; [discriminate | intros Heq'; apply Ha; congruence].
      * rewrite reconnect_then_none. cbn [fst].
        pose proof (reconnect_no_zero_division E (mkState (icue s) (magic s) (S (clock s))
          (trace s ++ [SdkGetLedColors (device_id d) (icue_led_ids (icue s))])) Hnever) as Hr.
        destruct (fst (reconnect E _)); cbn [rbind]; [discriminate | intros Heq; apply Hr; congruence].
    + cbn [fst]. intros Heq. injection Heq as ->. use_never Hnever.
  - intros ol Hread Hol.
    destruct ol as [[ | l leds] | ]; try discriminate Hol. cbn [elements].
    split; [apply len_pos; discriminate | ]. split.
    + intros total. unfold int_truediv.
      pose proof (len_pos (l :: leds) ltac:(discriminate)) as Hpos.
      replace (len (l :: leds) =? 0) with false by (symmetry; apply Z.eqb_neq; lia).
      discriminate.
    + apply read_colors_some; [exact Hread | discriminate].
  - intros ol Hread Hol.
    unfold read_colors. unfold bind at 1, get_icue. unfold bind at 1, call.
    rewrite Hread, Hol. reflexivity.
Qed.

Lemma calm_never_raises (x : exn) : never_raises x calm.
Proof. intros n. repeat split; discriminate. Qed.

Lemma division_by_count_safe_witness :
  fst (read_colors calm demo_device fresh) <> Raise ZeroDivisionError.
Proof.
  apply (division_by_count_safe calm demo_device fresh (calm_never_raises ZeroDivisionError)).
Defined.

(** ** The fade, colour by colour *)

Lemma fade_color_channels (last target : color) (step r g b : Z) :
  fade_channel (red last) (red target) step = Ok r ->
  fade_channel (green last) (green target) step = Ok g ->
  fade_channel (blue last) (blue target) step = Ok b ->
  fade_color last target step = Ok (r, g, b).
Proof.
  unfold fade_channel, fade_color, interpolate_color.
  destruct (int_truediv step transition_steps) as [p | e]; cbn [rbind]; [ | discriminate].
  intros -> -> ->. reflexivity.
Qed.

Lemma fade_colors_zip (last target : color) (steps rs gs bs : list Z) :
  map (fade_channel (red last) (red target)) steps = map Ok rs ->
  map (fade_channel (green last) (green target)) steps = map Ok gs ->
  map (fade_channel (blue last) (blue target)) steps = map Ok bs ->
  exists cs : list color,
    map (fade_color last target) steps = map Ok cs /\
    map red cs = rs /\ map green cs = gs /\ map blue cs = bs.
Proof.
  revert rs gs bs. induction steps as [ | step steps IH]; intros rs gs bs Hr Hg Hb.
  - destruct rs, gs, bs; try discriminate. exists []. repeat split.
  - destruct rs as [ | r rs], gs as [ | g gs], bs as [ | b bs]; try discriminate.
    cbn [map] in Hr, Hg, Hb.
    injection Hr as Hr Hrs. injection Hg as Hg Hgs. injection Hb as Hb Hbs.
    destruct (IH rs gs bs Hrs Hgs Hbs) as (cs & Hcs & Er & Eg & Eb).
    exists ((r, g, b) :: cs). cbn [map].
    rewrite (fade_color_channels last target step r g b Hr Hg Hb), Hcs.
    unfold red, green, blue in *. cbn [fst snd]. rewrite Er, Eg, Eb. repeat split.
Qed.

(** The ten colours of a fade between two colours within range. *)
Lemma fade_color_values (last target : color) :
  color_ok last -> color_ok target ->
  exists cs : list color,
    map (fade_color last target) fade_steps = map Ok cs /\ fade_ok last target cs.
Proof.
  intros (Lr & Lg & Lb) (Tr & Tg & Tb).
  destruct (fade_channel_values _ _ Lr Tr) as (rs & Hr & Hrs).
  destruct (fade_channel_values _ _ Lg Tg) as (gs & Hg & Hgs).
  destruct (fade_channel_values _ _ Lb Tb) as (bs & Hb & Hbs).
  destruct (fade_colors_zip last target fade_steps rs gs bs Hr Hg Hb)
    as (cs & Hcs & Er & Eg & Eb).
  exists cs. split; [exact Hcs | ]. unfold fade_ok. rewrite Er, Eg, Eb. auto.
Qed.

Lemma fade_ok_colors (last target : color) (cs : list color) :
  color_ok last -> color_ok target -> fade_ok last target cs -> Forall color_ok cs.
Proof.
  intros (Lr & Lg & Lb) (Tr & Tg & Tb) ((Hr & _) & (Hg & _) & (Hb & _)).
  unfold channel_ok in *.
  induction cs as [ | c cs IH]; [constructor | ].
  cbn [map] in Hr, Hg, Hb. inversion Hr; inversion Hg; inversion Hb; subst.
  constructor; [ | apply IH; assumption].
  unfold color_ok, channel_ok. lia.
Qed.

(** ** Running the fade *)

Lemma writes_fade_trace (cs : list color) : writes (fade_trace cs) = cs.
Proof. induction cs as [ | c cs IH]; [reflexivity | ]. cbn. f_equal. exact IH. Qed.

Lemma fade_succeeds (E : env) (last target : color) (steps : list Z) (cs : list color)
      (s : state) :
  map (fade_color last target) steps = map Ok cs ->
  (forall j : nat, (j < List.length steps)%nat ->
     bulb_setRgb E (clock s + 2 * j)%nat = Ok tt /\
     time_sleep E (clock s + 2 * j + 1)%nat = Ok tt) ->
  fade E last target steps s =
  (Ok true, mkState (icue s) (magic s) (clock s + 2 * List.length steps)%nat
                    (trace s ++ fade_trace cs)).
Proof.
  revert cs s. induction steps as [ | step steps IH]; intros cs s Hcs Hok.
  - destruct cs; [ | discriminate]. cbn. rewrite app_nil_r, Nat.add_0_r.
    destruct s; reflexivity.
  - destruct cs as [ | c cs]; [discriminate | ]. cbn [map] in Hcs.
    injection Hcs as Hc Hcs.
    destruct (Hok 0%nat ltac:(cbn; lia)) as [Hw Hs].
    rewrite Nat.mul_0_r, Nat.add_0_r in Hw, Hs. rewrite Nat.add_1_r in Hs.
    cbn [fade]. unfold bind at 1, fade_step. unfold bind at 1, lift. rewrite Hc.
    unfold try_except, bind, call, ret. cbn [clock trace icue magic].
    rewrite Hw, Hs.
    rewrite (IH cs _ Hcs).
    + cbn [icue magic clock trace List.length fade_trace flat_map].
      f_equal. f_equal; [lia | ].
      rewrite <- !app_assoc. reflexivity.
    + intros j Hj. cbn [clock].
      destruct (Hok (S j) ltac:(cbn; lia)) as [Hw' Hs'].
      replace (S (S (clock s)) + 2 * j)%nat with (clock s + 2 * S j)%nat by lia.
      split; assumption.
Qed.

Lemma fade_fails (E : env) (last target : color) (pre post : list Z) (step : Z)
      (cs : list color) (c : color) (e : exn) (s : state) :
  map (fade_color last target) pre = map Ok cs ->
  fade_color last target step = Ok c ->
  (forall j : nat, (j < List.length pre)%nat ->
     bulb_setRgb E (clock s + 2 * j)%nat = Ok tt /\
     time_sleep E (clock s + 2 * j + 1)%nat = Ok tt) ->
  bulb_setRgb E (clock s + 2 * List.length pre)%nat = Raise e ->
  is_Exception e = true ->
  fade E last target (pre ++ step :: post) s =
  (Ok false,
   mkState (icue s) (mkMagic (magic_ip (magic s)) false (magic_last_color (magic s)))
           (clock s + 2 * List.length pre + 1)%nat
           (trace s ++ fade_trace cs ++ [BulbSetRgb c])).
Proof.
  revert cs s. induction pre as [ | p pre IH]; intros cs s Hcs Hc Hok Hfail He.
  - destruct cs; [ | discriminate]. cbn [app fade List.length] in *.
    rewrite Nat.mul_0_r, Nat.add_0_r in Hfail.
    unfold bind at 1, fade_step. unfold bind at 1, lift. rewrite Hc.
    unfold try_except, bind, call, ret. rewrite Hfail, He.
    unfold set_bulb, bind, get_magic, put_magic. cbn.
    repeat f_equal. lia.
  - destruct cs as [ | c0 cs]; [discriminate | ]. cbn [map] in Hcs.
    injection Hcs as Hc0 Hcs.
    destruct (Hok 0%nat ltac:(cbn; lia)) as [Hw Hs].
    rewrite Nat.mul_0_r, Nat.add_0_r in Hw, Hs. rewrite Nat.add_1_r in Hs.
    cbn [app fade]. unfold bind at 1, fade_step. unfold bind at 1, lift. rewrite Hc0.
    unfold try_except, bind, call, ret. cbn [clock trace icue magic].
    rewrite Hw, Hs.
    rewrite (IH cs _ Hcs Hc).
    + cbn [icue magic clock trace List.length fade_trace flat_map magic_ip magic_last_color].
      f_equal. f_equal; [lia | ].
      rewrite <- !app_assoc. reflexivity.
    + intros j Hj. cbn [clock].
      destruct (Hok (S j) ltac:(cbn; lia)) as [Hw' Hs'].
      replace (S (S (clock s)) + 2 * j)%nat with (clock s + 2 * S j)%nat by lia.
      split; assumption.
    + cbn [clock]. cbn [List.length] in Hfail.
      replace (S (S (clock s)) + 2 * List.length pre)%nat
        with (clock s + 2 * S (List.length pre))%nat by lia.
      exact Hfail.
    + exact He.
Qed.

(** ** [set_color] on a connected actuator *)

Lemma set_color_fade (E : env) (s : state) (last target : color) :
  magic_bulb (magic s) = true ->
  magic_last_color (magic s) = Some last ->
  set_color E target s =
  (done <- fade E last target fade_steps ;;
   if done then set_last_color (Some target) else ret tt) s.
Proof.
  intros Hb Hl. unfold set_color. unfold bind at 1, get_magic. rewrite Hb. cbn [negb].
  unfold bind at 1, ret. unfold bind at 1, get_magic. cbn [magic]. rewrite Hb, Hl.
  reflexivity.
Qed.

Lemma set_color_direct (E : env) (s : state) (target : color) :
  magic_bulb (magic s) = true ->
  magic_last_color (magic s) = None ->
  set_color E target s =
  (done <- try_except (call (bulb_setRgb E) (BulbSetRgb target) ;; ret true)
                      (fun _ => set_bulb false ;; ret false) ;;
   if done then set_last_color (Some target) else ret tt) s.
Proof.
  intros Hb Hl. unfold set_color. unfold bind at 1, get_magic. rewrite Hb. cbn [negb].
  unfold bind at 1, ret. unfold bind at 1, get_magic. cbn [magic]. rewrite Hb, Hl.
  reflexivity.
Qed.

(** * C5: the colours of a fade *)

(** C5, as stated, fails: from (0, 0, 0) to (90, 0, 0) the seventh colour
    written is (62, 0, 0), where [0 + 90 * (7 / 10)] truncated is 63.  In
    binary64, [7 / 10] is [0.6999999999999999556], its product by 90 rounds
    to [62.99999999999999289], and [int] truncates that to 62. *)
Lemma seventh_step_below_exact :
  nth 6 (writes (trace (snd (set_color calm (90, 0, 0) (lit (0, 0, 0)))))) (0, 0, 0)
  = (62, 0, 0) /\
  exact_channel 0 90 7 = 63.
Proof. vm_compute. split; reflexivity. Qed.

(** C5 (amended): with the last commanded colour [last] known and every
    write answered, [set_color] writes exactly the ten colours
    [interpolate_color last target (i / 10)], [i = 1..10], computed in
    binary64, and then stores [target].  Channel by channel the ten values are
    monotonic, lie between the two ends, end on the target exactly, and are
    each the exactly computed truncation or one below it. *)
Theorem fade_interpolation (E : env) (s : state) (last target : color) :
  magic_bulb (magic s) = true ->
  magic_last_color (magic s) = Some last ->
  color_ok last -> color_ok target ->
  fade_answered E s 10 ->
  exists cs : list color,
    map (fade_color last target) fade_steps = map Ok cs /\
    fst (set_color E target s) = Ok tt /\
    writes (trace (snd (set_color E target s))) = writes (trace s) ++ cs /\
    magic_last_color (magic (snd (set_color E target s))) = Some target /\
    fade_ok last target cs.
Proof.
  intros Hb Hl Hlast Htarget Hans.
  destruct (fade_color_values last target Hlast Htarget) as (cs & Hcs & Hok).
  exists cs. split; [exact Hcs | ].
  assert (Hrun : set_color E target s =
                 (Ok tt, mkState (icue s)
                           (mkMagic (magic_ip (magic s)) (magic_bulb (magic s)) (Some target))
                           (clock s + 2 * List.length fade_steps)%nat
                           (trace s ++ fade_trace cs))).
  { rewrite (set_color_fade E s last target Hb Hl).
    unfold bind at 1. rewrite (fade_succeeds E last target fade_steps cs s Hcs Hans).
    reflexivity. }
  rewrite Hrun. cbn [fst snd trace magic magic_last_color].
  rewrite writes_app, writes_fade_trace. auto.
Qed.

Lemma calm_fade_answered (s : state) (n : nat) : fade_answered calm s n.
Proof. intros j _. split; reflexivity. Qed.

Lemma fade_interpolation_witness :
  exists cs : list color,
    map (fade_color (0, 0, 0) (100, 200, 50)) fade_steps = map Ok cs /\
    fst (set_color calm (100, 200, 50) (lit (0, 0, 0))) = Ok tt /\
    writes (trace (snd (set_color calm (100, 200, 50) (lit (0, 0, 0)))))
    = writes (trace (lit (0, 0, 0))) ++ cs /\
    magic_last_color (magic (snd (set_color calm (100, 200, 50) (lit (0, 0, 0)))))
    = Some (100, 200, 50) /\
    fade_ok (0, 0, 0) (100, 200, 50) cs.
Proof.
  apply (fade_interpolation calm (lit (0, 0, 0)) (0, 0, 0) (100, 200, 50)).
  - reflexivity.
  - reflexivity.
  - unfold color_ok, channel_ok. cbn. lia.
  - unfold color_ok, channel_ok. cbn. lia.
  - apply calm_fade_answered.
Defined.

(** ** Connecting *)

Lemma set_color_connects (E : env) (s : state) (target : color) :
  connects E s ->
  set_color E target s = set_color E target (connected_state s) /\
  magic_bulb (magic (connected_state s)) = true.
Proof.
  unfold connected_state.
  intros [Hb | (Hb & Hnew & Hconn)]; rewrite Hb; [split; [reflexivity | exact Hb] | ].
  split; [ | reflexivity].
  unfold set_color, magic_connect. msimpl. rewrite Hb. msimpl.
  rewrite Hnew. msimpl. rewrite Hconn. msimpl.
  rewrite <- !app_assoc. reflexivity.
Qed.

Lemma set_color_connect_fails (E : env) (s : state) (target : color) :
  connect_fails E s ->
  fst (set_color E target s) = Ok tt /\
  writes (trace (snd (set_color E target s))) = writes (trace s) /\
  magic_bulb (magic (snd (set_color E target s))) = false /\
  magic_last_color (magic (snd (set_color E target s))) = magic_last_color (magic s).
Proof.
  intros (Hb & [(e & Hnew & He) | (Hnew & e & Hconn & He)]).
  - unfold set_color, magic_connect. msimpl. rewrite Hb. msimpl.
    rewrite Hnew. msimpl. rewrite He. msimpl.
    rewrite writes_silent by reflexivity. auto.
  - unfold set_color, magic_connect. msimpl. rewrite Hb. msimpl.
    rewrite Hnew. msimpl. rewrite Hconn. msimpl. rewrite He. msimpl.
    rewrite !writes_silent by reflexivity. auto.
Qed.

(** * C6: the first colour *)

(** On a freshly constructed actuator whose bulb cannot be reached the first
    [set_color] is silent: it writes nothing. *)
Lemma first_command_offline :
  magic_last_color (magic fresh) = None /\
  writes (trace (snd (set_color offline (10, 20, 30) fresh))) = [].
Proof. vm_compute. split; reflexivity. Qed.

(** C6: with no colour commanded before, [set_color] on an actuator that is
    connected, or that its one attempt connects, applies the target colour
    directly: it makes exactly one write, of the target colour itself, with no
    intermediate step, and stores the colour when the write is answered.
    When the bulb cannot be reached the call is silent and writes nothing. *)
Theorem first_command_direct (E : env) (s : state) (target : color) :
  magic_last_color (magic s) = None ->
  (connects E s ->
   writes (trace (snd (set_color E target s))) = writes (trace s) ++ [target] /\
   (bulb_setRgb E (clock (connected_state s)) = Ok tt ->
    fst (set_color E target s) = Ok tt /\
    magic_last_color (magic (snd (set_color E target s))) = Some target)) /\
  (connect_fails E s ->
   fst (set_color E target s) = Ok tt /\
   writes (trace (snd (set_color E target s))) = writes (trace s) /\
   magic_last_color (magic (snd (set_color E target s))) = None).
Proof.
  intros Hl. split.
  - intros Hc. destruct (set_color_connects E s target Hc) as [Heq Hb].
    rewrite Heq.
    assert (Hl' : magic_last_color (magic (connected_state s)) = None).
    { unfold connected_state. destruct (magic_bulb (magic s)); [exact Hl | exact Hl]. }
    assert (Hw : writes (trace (connected_state s)) = writes (trace s)).
    { unfold connected_state. destruct (magic_bulb (magic s)); [reflexivity | ].
      cbn [trace]. rewrite writes_app. cbn. apply app_nil_r. }
    rewrite (set_color_direct E (connected_state s) target Hb Hl').
    msimpl.
    destruct (bulb_setRgb E (clock (connected_state s))) as [[] | e]; msimpl.
    + rewrite writes_app, Hw. auto.
    + destruct (is_Exception e); msimpl;
        rewrite writes_app, Hw; (split; [reflexivity | discriminate]).
  - intros Hf.
    destruct (set_color_connect_fails E s target Hf) as (Hr & Hw & _ & Hk).
    rewrite Hr, Hw, Hk, Hl. auto.
Qed.

Lemma first_command_direct_witness :
  (connects calm fresh ->
   writes (trace (snd (set_color calm (10, 20, 30) fresh)))
   = writes (trace fresh) ++ [(10, 20, 30)] /\
   (bulb_setRgb calm (clock (connected_state fresh)) = Ok tt ->
    fst (set_color calm (10, 20, 30) fresh) = Ok tt /\
    magic_last_color (magic (snd (set_color calm (10, 20, 30) fresh)))
    = Some (10, 20, 30))) /\
  (connect_fails calm fresh ->
   fst (set_color calm (10, 20, 30) fresh) = Ok tt /\
   writes (trace (snd (set_color calm (10, 20, 30) fresh))) = writes (trace fresh) /\
   magic_last_color (magic (snd (set_color calm (10, 20, 30) fresh))) = None).
Proof.
  apply (first_command_direct calm fresh (10, 20, 30)). reflexivity.
Defined.

(** ** A fade that stops *)

Lemma map_Ok_inj {A : Type} (l l' : list A) : map (@Ok A) l = map Ok l' -> l = l'.
Proof.
  revert l'. induction l as [ | x l IH]; intros [ | y l'] H; try discriminate.
  - reflexivity.
  - cbn in H. injection H as -> H. f_equal. apply IH. exact H.
Qed.

Lemma fade_stops (E : env) (s : state) (last target : color) (cs : list color)
      (k : nat) (e : exn) :
  map (fade_color last target) fade_steps = map Ok cs ->
  (1 <= k <= 10)%nat ->
  fade_answered E s (k - 1) ->
  bulb_setRgb E (clock s + 2 * (k - 1))%nat = Raise e ->
  is_Exception e = true ->
  fade E last target fade_steps s =
  (Ok false,
   mkState (icue s) (mkMagic (magic_ip (magic s)) false (magic_last_color (magic s)))
           (clock s + 2 * k - 1)%nat
           (trace s ++ fade_trace (firstn (k - 1) cs) ++ [BulbSetRgb (nth (k - 1) cs target)])).
Proof.
  intros Hcs Hk Hans Hfail He.
  assert (Hlen : List.length cs = 10%nat).
  { apply (f_equal (@List.length _)) in Hcs. rewrite !length_map in Hcs.
    rewrite <- Hcs. reflexivity. }
  assert (Hsteps : List.length fade_steps = 10%nat) by reflexivity.
  pose proof (firstn_skipn (k - 1) fade_steps) as Hsplit.
  pose proof (firstn_skipn (k - 1) cs) as Hsplit'.
  destruct (skipn (k - 1) fade_steps) as [ | step post] eqn:Hpost.
  { apply (f_equal (@List.length _)) in Hpost. rewrite length_skipn, Hsteps in Hpost.
    cbn [List.length] in Hpost. lia. }
  destruct (skipn (k - 1) cs) as [ | c cpost] eqn:Hcpost.
  { apply (f_equal (@List.length _)) in Hcpost. rewrite length_skipn, Hlen in Hcpost.
    cbn [List.length] in Hcpost. lia. }
  assert (Hpre : List.length (firstn (k - 1) fade_steps) = (k - 1)%nat)
    by (rewrite length_firstn; lia).
  assert (Hcpre : List.length (firstn (k - 1) cs) = (k - 1)%nat)
    by (rewrite length_firstn; lia).
  assert (Hmap : map (fade_color last target) (firstn (k - 1) fade_steps)
                 = map Ok (firstn (k - 1) cs)).
  { rewrite <- !firstn_map, Hcs. reflexivity. }
  assert (Hc : fade_color last target step = Ok c).
  { pose proof (f_equal (skipn (k - 1)) Hcs) as Hs.
    rewrite !skipn_map, Hpost, Hcpost in Hs. cbn [map] in Hs.
    injection Hs as Hs _. exact Hs. }
  assert (Hnth : nth (k - 1) cs target = c).
  { rewrite <- Hsplit'. rewrite app_nth2 by lia. rewrite Hcpre, Nat.sub_diag. reflexivity. }
  rewrite Hnth. rewrite <- Hsplit at 1.
  rewrite (fade_fails E last target (firstn (k - 1) fade_steps) post step
             (firstn (k - 1) cs) c e s Hmap Hc).
  - rewrite Hpre.
    replace (clock s + 2 * (k - 1) + 1)%nat with (clock s + 2 * k - 1)%nat by lia.
    reflexivity.
  - rewrite Hpre. exact Hans.
  - rewrite Hpre. exact Hfail.
  - exact He.
Qed.

(** * C7: a step that fails *)

(** C7: in a fade whose [k]-th write raises after the [k - 1] before it were
    answered, exactly the first [k] colours of the fade are written, the
    actuator drops its bulb, nothing more is asked of the outside, and the
    last commanded colour stays as it was; it becomes the target when all ten
    steps are answered. *)
Theorem fail_fast_mid_fade (E : env) (s : state) (last target : color) :
  magic_bulb (magic s) = true ->
  magic_last_color (magic s) = Some last ->
  color_ok last -> color_ok target ->
  (forall (k : nat) (e : exn),
     (1 <= k <= 10)%nat ->
     fade_answered E s (k - 1) ->
     bulb_setRgb E (clock s + 2 * (k - 1))%nat = Raise e ->
     is_Exception e = true ->
     exists cs : list color,
       List.length cs = k /\
       map (fade_color last target) (firstn k fade_steps) = map Ok cs /\
       fst (set_color E target s) = Ok tt /\
       writes (trace (snd (set_color E target s))) = writes (trace s) ++ cs /\
       clock (snd (set_color E target s)) = (clock s + 2 * k - 1)%nat /\
       magic_bulb (magic (snd (set_color E target s))) = false /\
       magic_last_color (magic (snd (set_color E target s))) = Some last) /\
  (fade_answered E s 10 ->
   fst (set_color E target s) = Ok tt /\
   List.length (writes (trace (snd (set_color E target s))))
   = (List.length (writes (trace s)) + 10)%nat /\
   magic_last_color (magic (snd (set_color E target s))) = Some target).
Proof.
  intros Hb Hl Hlast Htarget.
  destruct (fade_color_values last target Hlast Htarget) as (cs & Hcs & _).
  assert (Hlen : List.length cs = 10%nat).
  { pose proof (f_equal (@List.length _) Hcs) as H. rewrite !length_map in H.
    rewrite <- H. reflexivity. }
  split.
  - intros k e Hk Hans Hfail He.
    exists (firstn (k - 1) cs ++ [nth (k - 1) cs target]).
    assert (Hrun : set_color E target s =
                   (Ok tt,
                    mkState (icue s) (mkMagic (magic_ip (magic s)) false (Some last))
                            (clock s + 2 * k - 1)%nat
                            (trace s ++ fade_trace (firstn (k - 1) cs)
                               ++ [BulbSetRgb (nth (k - 1) cs target)]))).
    { rewrite (set_color_fade E s last target Hb Hl).
      unfold bind at 1. rewrite (fade_stops E s last target cs k e Hcs Hk Hans Hfail He).
      rewrite Hl. reflexivity. }
    rewrite Hrun. cbn [fst snd trace clock magic magic_bulb magic_last_color].
    repeat split.
    + rewrite length_app, length_firstn. cbn [List.length]. lia.
    + assert (Hk' : firstn k cs = firstn (k - 1) cs ++ [nth (k - 1) cs target]).
      { replace k with (S (k - 1)) at 1 by lia.
        rewrite <- (firstn_skipn (k - 1) cs) at 1.
        rewrite firstn_app, length_firstn, firstn_firstn.
        replace (Nat.min (S (k - 1)) (k - 1)) with (k - 1)%nat by lia.
        replace (S (k - 1) - Nat.min (k - 1) (List.length cs))%nat with 1%nat by lia.
        f_equal.
        destruct (skipn (k - 1) cs) as [ | c cpost] eqn:Hcpost.
        { apply (f_equal (@List.length _)) in Hcpost. rewrite length_skipn, Hlen in Hcpost.
          cbn [List.length] in Hcpost. lia. }
        cbn [firstn]. f_equal.
        rewrite <- (firstn_skipn (k - 1) cs), Hcpost.
        rewrite app_nth2 by (rewrite length_firstn; lia).
        rewrite length_firstn.
        replace (k - 1 - Nat.min (k - 1) (List.length cs))%nat with 0%nat by lia.
        reflexivity. }
      rewrite <- Hk', <- !firstn_map, Hcs. reflexivity.
    + rewrite !writes_app, writes_fade_trace. reflexivity.
  - intros Hans.
    assert (Hrun : set_color E target s =
                   (Ok tt, mkState (icue s)
                             (mkMagic (magic_ip (magic s)) (magic_bulb (magic s)) (Some target))
                             (clock s + 2 * List.length fade_steps)%nat
                             (trace s ++ fade_trace cs))).
    { rewrite (set_color_fade E s last target Hb Hl).
      unfold bind at 1. rewrite (fade_succeeds E last target fade_steps cs s Hcs Hans).
      reflexivity. }
    rewrite Hrun. cbn [fst snd trace magic magic_last_color].
    rewrite writes_app, writes_fade_trace, length_app, Hlen. auto.
Qed.

Lemma fail_fast_mid_fade_witness :
  exists cs : list color,
    List.length cs = 3%nat /\
    map (fade_color black warm) (firstn 3 fade_steps) = map Ok cs /\
    fst (set_color third_write_fails warm dark) = Ok tt /\
    writes (trace (snd (set_color third_write_fails warm dark)))
    = writes (trace dark) ++ cs /\
    clock (snd (set_color third_write_fails warm dark))
    = (clock dark + 2 * 3 - 1)%nat /\
    magic_bulb (magic (snd (set_color third_write_fails warm dark)))
    = false /\
    magic_last_color (magic (snd (set_color third_write_fails warm dark)))
    = Some black.
Proof.
  refine (proj1 (fail_fast_mid_fade third_write_fails dark black warm
                   eq_refl eq_refl _ _) 3%nat DeviceError _ _ eq_refl eq_refl).
  - unfold color_ok, channel_ok. cbn. lia.
  - unfold color_ok, channel_ok. cbn. lia.
  - lia.
  - intros j Hj. cbn in Hj.
    destruct j as [ | [ | j]]; [split; reflexivity | split; reflexivity | lia].
Defined.

(** ** What the source side leaves alone *)

Lemma after_call_frame (ev : event) (s : state) :
  silent ev = true -> source_frame s (after_call ev s).
Proof.
  intros H. unfold source_frame, after_call. cbn [magic trace].
  rewrite writes_silent, turn_off_calls_silent by exact H. repeat split.
Qed.

Lemma reconnect_none_frame (E : env) (s : state) :
  source_frame s (snd ((reconnect E ;; ret (@None color)) s)).
Proof. rewrite reconnect_then_none. apply reconnect_frame. Qed.

Lemma sample_colors_frame (leds : list led) (s : state) :
  source_frame s (snd (sample_colors leds s)).
Proof.
  unfold sample_colors. msimpl.
  destruct (colors_eqb _ _); msimpl; [apply source_frame_refl | ].
  destruct (average_color leds); repeat split.
Qed.

Lemma read_colors_frame (E : env) (d : device) (s : state) :
  source_frame s (snd (read_colors E d s)).
Proof.
  unfold read_colors. unfold bind at 1, get_icue. unfold bind at 1, call.
  set (s1 := mkState _ _ _ _).
  assert (H1 : source_frame s s1) by (apply (after_call_frame (SdkGetLedColors _ _)); reflexivity).
  destruct (sdk_get_led_colors E (clock s)) as [ol | e]; [ | exact H1].
  destruct (negb (truthy ol)).
  - eapply source_frame_trans; [exact H1 | apply reconnect_none_frame].
  - eapply source_frame_trans; [exact H1 | apply sample_colors_frame].
Qed.

Lemma get_average_color_frame (E : env) (s : state) :
  source_frame s (snd (get_average_color E s)).
Proof.
  unfold get_average_color. unfold bind at 1, get_icue.
  destruct (icue_device (icue s)) as [d | ]; [ | apply reconnect_none_frame].
  destruct (icue_led_ids (icue s)); [apply reconnect_none_frame | ].
  unfold try_except.
  pose proof (read_colors_frame E d s) as Hr.
  destruct (read_colors E d s) as [[c | e] s1]; cbn [snd] in Hr |- *; [exact Hr | ].
  destruct (is_Exception e); [ | exact Hr].
  eapply source_frame_trans; [exact Hr | apply reconnect_none_frame].
Qed.

(** ** The colour the source returns *)

Lemma reconnect_none_result (E : env) (s : state) (c : color) :
  fst ((reconnect E ;; ret (@None color)) s) <> Ok (Some c).
Proof.
  rewrite reconnect_then_none. cbn [fst].
  destruct (fst (reconnect E s)); discriminate.
Qed.

Lemma get_average_color_ok (E : env) (s : state) (c : color) :
  readings_ok E ->
  fst (get_average_color E s) = Ok (Some c) -> color_ok c.
Proof.
  intros Hread. unfold get_average_color. unfold bind at 1, get_icue.
  destruct (icue_device (icue s)) as [d | ];
    [ | intros H; exfalso; exact (reconnect_none_result E s c H)].
  destruct (icue_led_ids (icue s));
    [intros H; exfalso; exact (reconnect_none_result E s c H) | ].
  unfold try_except.
  destruct (read_colors E d s) as [[oc | e] s1] eqn:Hrc; cbn [fst].
  - intros H. injection H as ->.
    unfold read_colors in Hrc. unfold bind at 1, get_icue in Hrc.
    unfold bind at 1, call in Hrc.
    destruct (sdk_get_led_colors E (clock s)) as [ol | e] eqn:Hol; [ | discriminate].
    destruct (truthy ol) eqn:Ht; cbn [negb] in Hrc.
    + destruct ol as [[ | x leds] | ]; try discriminate Ht. cbn [elements] in Hrc.
      pose proof (Hread _ _ Hol) as Hok.
      unfold sample_colors in Hrc. msimpl.
      destruct (colors_eqb _ _); [discriminate | ].
      destruct (average_color_range (x :: leds) ltac:(discriminate) Hok) as (c' & Hc' & Hcok).
      rewrite Hc' in Hrc. injection Hrc as <- _. exact Hcok.
    + apply (f_equal fst) in Hrc. exfalso. exact (reconnect_none_result E _ c Hrc).
  - destruct (is_Exception e); [ | discriminate].
    intros H. exfalso. exact (reconnect_none_result E s1 c H).
Qed.

(** ** What the actuator side does *)

Lemma magic_connect_frame (E : env) (s : state) :
  icue (snd (magic_connect E s)) = icue s /\
  writes (trace (snd (magic_connect E s))) = writes (trace s) /\
  turn_off_calls (trace (snd (magic_connect E s))) = turn_off_calls (trace s) /\
  magic_last_color (magic (snd (magic_connect E s))) = magic_last_color (magic s).
Proof.
  unfold magic_connect. answers; frame_leaf.
Qed.

Lemma fade_step_frame (E : env) (last target c : color) (step : Z) (s : state) :
  fade_color last target step = Ok c ->
  icue (snd (fade_step E last target step s)) = icue s /\
  writes (trace (snd (fade_step E last target step s))) = writes (trace s) ++ [c] /\
  turn_off_calls (trace (snd (fade_step E last target step s))) = turn_off_calls (trace s) /\
  magic_last_color (magic (snd (fade_step E last target step s)))
  = magic_last_color (magic s).
Proof.
  intros Hc. unfold fade_step. unfold bind at 1, lift. rewrite Hc.
  assert (Hw : forall tr, writes (tr ++ [BulbSetRgb c]) = writes tr ++ [c])
    by (intros tr; rewrite writes_app; reflexivity).
  assert (Ht : forall tr, turn_off_calls (tr ++ [BulbSetRgb c]) = turn_off_calls tr)
    by (intros tr; rewrite turn_off_calls_app; cbn; lia).
  answers; cbn [fst snd icue magic clock trace magic_last_color];
    rewrite ?writes_silent, ?turn_off_calls_silent by reflexivity;
    rewrite ?Hw, ?Ht; repeat split.
Qed.

Lemma fade_frame (E : env) (last target : color) (steps : list Z) (cs : list color)
      (s : state) :
  map (fade_color last target) steps = map Ok cs ->
  icue (snd (fade E last target steps s)) = icue s /\
  (exists k : nat,
     writes (trace (snd (fade E last target steps s))) = writes (trace s) ++ firstn k cs) /\
  turn_off_calls (trace (snd (fade E last target steps s))) = turn_off_calls (trace s) /\
  magic_last_color (magic (snd (fade E last target steps s)))
  = magic_last_color (magic s).
Proof.
  revert cs s. induction steps as [ | step steps IH]; intros cs s Hcs.
  - cbn. repeat split. exists 0%nat. cbn. rewrite app_nil_r. reflexivity.
  - destruct cs as [ | c cs]; [discriminate | ]. cbn [map] in Hcs.
    injection Hcs as Hc Hcs. cbn [fade]. unfold bind.
    destruct (fade_step_frame E last target c step s Hc) as (Hi & Hw & Ht & Hl).
    destruct (fade_step E last target step s) as [[[ | ] | e] s1]; cbn [snd] in *.
    + destruct (IH cs s1 Hcs) as (Hi' & (k & Hw') & Ht' & Hl').
      repeat split; try congruence.
      exists (S k). rewrite Hw', Hw, <- app_assoc. reflexivity.
    + repeat split; try assumption.
      exists 1%nat. cbn [firstn]. exact Hw.
    + repeat split; try assumption.
      exists 1%nat. cbn [firstn]. exact Hw.
Qed.

Lemma fade_step_quiet (E : env) (last target : color) (step : Z) (s : state) :
  icue (snd (fade_step E last target step s)) = icue s /\
  turn_off_calls (trace (snd (fade_step E last target step s))) = turn_off_calls (trace s).
Proof.
  unfold fade_step. unfold bind at 1, lift.
  destruct (fade_color last target step) as [c | e]; [ | split; reflexivity].
  assert (Ht : forall tr, turn_off_calls (tr ++ [BulbSetRgb c]) = turn_off_calls tr)
    by (intros tr; rewrite turn_off_calls_app; cbn; lia).
  answers; cbn [fst snd icue magic clock trace];
    rewrite ?turn_off_calls_silent by reflexivity; rewrite ?Ht; split; reflexivity.
Qed.

Lemma fade_quiet (E : env) (last target : color) (steps : list Z) (s : state) :
  icue (snd (fade E last target steps s)) = icue s /\
  turn_off_calls (trace (snd (fade E last target steps s))) = turn_off_calls (trace s).
Proof.
  revert s. induction steps as [ | step steps IH]; intros s; [split; reflexivity | ].
  cbn [fade]. unfold bind.
  destruct (fade_step_quiet E last target step s) as (Hi & Ht).
  destruct (fade_step E last target step s) as [[[ | ] | e] s1]; cbn [snd] in *.
  - destruct (IH s1) as (Hi' & Ht'). split; congruence.
  - split; assumption.
  - split; assumption.
Qed.

(** The state in which [set_color] and [turn_off] go on after their attempt
    to connect, when it did not raise. *)
Lemma connect_attempt (E : env) (s : state) :
  let r := (if negb (magic_bulb (magic s)) then magic_connect E else ret tt) s in
  icue (snd r) = icue s /\
  writes (trace (snd r)) = writes (trace s) /\
  turn_off_calls (trace (snd r)) = turn_off_calls (trace s) /\
  magic_last_color (magic (snd r)) = magic_last_color (magic s).
Proof.
  cbv zeta. destruct (negb (magic_bulb (magic s))); [apply magic_connect_frame | ].
  repeat split.
Qed.

Lemma Forall_firstn {A : Type} (P : A -> Prop) (n : nat) (l : list A) :
  Forall P l -> Forall P (firstn n l).
Proof.
  intros H. rewrite <- (firstn_skipn n l) in H. apply Forall_app in H. tauto.
Qed.

Lemma direct_write_frame (E : env) (c : color) (s : state) :
  icue (snd (direct_write E c s)) = icue s /\
  writes (trace (snd (direct_write E c s))) = writes (trace s) ++ [c] /\
  turn_off_calls (trace (snd (direct_write E c s))) = turn_off_calls (trace s) /\
  magic_last_color (magic (snd (direct_write E c s))) = magic_last_color (magic s).
Proof.
  unfold direct_write.
  assert (Hw : forall tr, writes (tr ++ [BulbSetRgb c]) = writes tr ++ [c])
    by (intros tr; rewrite writes_app; reflexivity).
  assert (Ht : forall tr, turn_off_calls (tr ++ [BulbSetRgb c]) = turn_off_calls tr)
    by (intros tr; rewrite turn_off_calls_app; cbn; lia).
  answers; cbn [fst snd icue magic clock trace magic_last_color];
    rewrite ?Hw, ?Ht; repeat split.
Qed.

Lemma set_color_unfold (E : env) (c : color) (s : state) :
  set_color E c s =
  match (if negb (magic_bulb (magic s)) then magic_connect E else ret tt) s with
  | (Ok _, s1) =>
      if negb (magic_bulb (magic s1)) then (Ok tt, s1)
      else
        match (match magic_last_color (magic s1) with
               | Some last => fade E last c fade_steps
               | None => direct_write E c
               end) s1 with
        | (Ok done, s2) => if done then set_last_color (Some c) s2 else (Ok tt, s2)
        | (Raise e, s2) => (Raise e, s2)
        end
  | (Raise e, s1) => (Raise e, s1)
  end.
Proof.
  unfold set_color. unfold bind at 1, get_magic. unfold bind at 1.
  destruct ((if negb (magic_bulb (magic s)) then magic_connect E else ret tt) s)
    as [[[] | e] s1]; [ | reflexivity].
  unfold bind at 1. destruct (negb (magic_bulb (magic s1))); [reflexivity | ].
  unfold bind at 1. unfold direct_write.
  destruct (magic_last_color (magic s1)) as [last | ].
  - destruct (fade E last c fade_steps s1) as [[[ | ] | e] s2]; reflexivity.
  - destruct (try_except _ _ s1) as [[[ | ] | e] s2]; reflexivity.
Qed.

Lemma set_last_color_run (c : option color) (s : state) :
  set_last_color c s =
  (Ok tt, mkState (icue s) (mkMagic (magic_ip (magic s)) (magic_bulb (magic s)) c)
                  (clock s) (trace s)).
Proof. reflexivity. Qed.

Lemma set_color_quiet (E : env) (c : color) (s : state) :
  icue (snd (set_color E c s)) = icue s /\
  turn_off_calls (trace (snd (set_color E c s))) = turn_off_calls (trace s).
Proof.
  rewrite set_color_unfold.
  destruct (connect_attempt E s) as (Hi & _ & Ht & _).
  destruct ((if negb (magic_bulb (magic s)) then magic_connect E else ret tt) s)
    as [[[] | e] s1]; cbn [snd] in *; [ | split; assumption].
  destruct (negb (magic_bulb (magic s1))); [split; assumption | ].
  assert (Hstep : forall m : M bool,
             icue (snd (m s1)) = icue s1 /\
             turn_off_calls (trace (snd (m s1))) = turn_off_calls (trace s1) ->
             icue (snd (match m s1 with
                        | (Ok done, s2) =>
                            if done then set_last_color (Some c) s2 else (Ok tt, s2)
                        | (Raise e, s2) => (Raise e, s2)
                        end)) = icue s /\
             turn_off_calls (trace (snd (match m s1 with
                        | (Ok done, s2) =>
                            if done then set_last_color (Some c) s2 else (Ok tt, s2)
                        | (Raise e, s2) => (Raise e, s2)
                        end))) = turn_off_calls (trace s)).
  { intros m (Hi' & Ht').
    destruct (m s1) as [[[ | ] | e] s2]; cbn [snd] in *;
      rewrite ?set_last_color_run; cbn [snd icue trace]; split; congruence. }
  destruct (magic_last_color (magic s1)) as [last | ]; apply Hstep.
  - apply fade_quiet.
  - destruct (direct_write_frame E c s1) as (A & _ & B & _). split; assumption.
Qed.

Lemma set_color_in_range (E : env) (c : color) (s : state) :
  color_ok c -> colors_in_range s -> colors_in_range (snd (set_color E c s)).
Proof.
  intros Hc (Hws & Hlc).
  rewrite set_color_unfold.
  destruct (connect_attempt E s) as (_ & Hw & _ & Hl).
  destruct ((if negb (magic_bulb (magic s)) then magic_connect E else ret tt) s)
    as [[[] | e] s1]; cbn [snd] in *;
    [ | unfold colors_in_range; rewrite Hw, Hl; auto].
  destruct (negb (magic_bulb (magic s1)));
    [cbn [snd]; unfold colors_in_range; rewrite Hw, Hl; auto | ].
  assert (Hstep : forall m : M bool,
             Forall color_ok (writes (trace (snd (m s1)))) /\
             magic_last_color (magic (snd (m s1))) = magic_last_color (magic s1) ->
             colors_in_range (snd (match m s1 with
                        | (Ok done, s2) =>
                            if done then set_last_color (Some c) s2 else (Ok tt, s2)
                        | (Raise e, s2) => (Raise e, s2)
                        end))).
  { intros m (Hw' & Hl').
    destruct (m s1) as [[[ | ] | e] s2]; cbn [snd] in *;
      rewrite ?set_last_color_run; unfold colors_in_range;
      cbn [snd magic trace magic_last_color]; (split; [exact Hw' | ]).
    - intros c' H. injection H as <-. exact Hc.
    - intros c' H. apply Hlc. congruence.
    - intros c' H. apply Hlc. congruence. }
  destruct (magic_last_color (magic s1)) as [last | ] eqn:Hlast; apply Hstep.
  - assert (Hlast_ok : color_ok last) by (apply Hlc; rewrite <- Hl; reflexivity).
    destruct (fade_color_values last c Hlast_ok Hc) as (cs & Hcs & Hok).
    pose proof (fade_ok_colors last c cs Hlast_ok Hc Hok) as Hcs_ok.
    destruct (fade_frame E last c fade_steps cs s1 Hcs) as (_ & (k & Hw') & _ & Hl').
    split; [ | congruence].
    rewrite Hw', Hw. apply Forall_app. split; [exact Hws | ].
    apply Forall_firstn. exact Hcs_ok.
  - destruct (direct_write_frame E c s1) as (_ & Hw' & _ & Hl').
    split; [ | congruence].
    rewrite Hw', Hw. apply Forall_app. split; [exact Hws | apply Forall_cons; [exact Hc | apply Forall_nil]].
Qed.

(** ** [turn_off] *)

Lemma is_Exception_false (e : exn) : is_Exception e = false -> e = KeyboardInterrupt.
Proof. destruct e; cbn; intros H; try discriminate H; reflexivity. Qed.

Lemma turn_off_trace (E : env) (s : state) :
  icue (snd (turn_off E s)) = icue s /\
  magic_last_color (magic (snd (turn_off E s))) = magic_last_color (magic s) /\
  exists evs : list event,
    trace (snd (turn_off E s)) = trace s ++ CallTurnOff :: evs /\
    forallb silent evs = true.
Proof.
  unfold turn_off, magic_connect.
  answers; cbn [fst snd icue magic clock trace magic_last_color];
    (split; [reflexivity | split; [reflexivity | ]]);
    rewrite <- ?app_assoc; cbn [app]; eexists; (split; [reflexivity | reflexivity]).
Qed.

Lemma turn_off_result (E : env) (s : state) :
  (fst (turn_off E s) = Ok tt \/ fst (turn_off E s) = Raise KeyboardInterrupt) /\
  (uninterrupted_from E (clock s) -> fst (turn_off E s) = Ok tt).
Proof.
  unfold turn_off, magic_connect.
  answers; cbn [fst];
    repeat match goal with
           | u : unit |- _ => destruct u
           | H : is_Exception ?e = false |- _ => apply is_Exception_false in H; subst e
           end;
    (split; [auto | ]); intros Hun; try reflexivity; exfalso;
    match goal with
    | A : bulb_new E ?k = Raise KeyboardInterrupt |- _ =>
        exact (proj1 (Hun k ltac:(cbn; lia)) A)
    | A : bulb_connect E ?k = Raise KeyboardInterrupt |- _ =>
        exact (proj1 (proj2 (Hun k ltac:(cbn; lia))) A)
    | A : bulb_turnOff E ?k = Raise KeyboardInterrupt |- _ =>
        exact (proj2 (proj2 (Hun k ltac:(cbn; lia))) A)
    end.
Qed.

Lemma forallb_silent_calls (evs : list event) :
  forallb silent evs = true -> turn_off_calls evs = 0%nat /\ writes evs = [].
Proof.
  induction evs as [ | ev evs IH]; [split; reflexivity | ].
  cbn [forallb]. intros H. apply andb_prop in H. destruct H as [Hev Hevs].
  destruct (IH Hevs) as (Ht & Hw).
  change (ev :: evs) with ([ev] ++ evs).
  rewrite turn_off_calls_app, writes_app, Ht, Hw.
  destruct ev; try discriminate Hev; split; reflexivity.
Qed.

(** ** The loop *)

Lemma tick_unfold (E : env) (s : state) :
  tick E s =
  match get_average_color E s with
  | (Ok oc, s1) =>
      match (match oc with Some c => set_color E c | None => ret tt end) s1 with
      | (Ok _, s2) => call (time_sleep E) (Sleep 100) s2
      | (Raise e, s2) => (Raise e, s2)
      end
  | (Raise e, s1) => (Raise e, s1)
  end.
Proof. reflexivity. Qed.

Lemma tick_frame (E : env) (s : state) :
  turn_off_calls (trace (snd (tick E s))) = turn_off_calls (trace s) /\
  (readings_ok E -> colors_in_range s -> colors_in_range (snd (tick E s))).
Proof.
  rewrite tick_unfold.
  pose proof (get_average_color_frame E s) as (Hm & Hw & Ht).
  pose proof (get_average_color_ok E s) as Hc.
  destruct (get_average_color E s) as [[oc | e] s1]; cbn [fst snd] in *.
  2:{ split; [exact Ht | ]. intros _ (A & B). split; [rewrite Hw; exact A | ].
      rewrite Hm. exact B. }
  assert (Hin1 : colors_in_range s -> colors_in_range s1).
  { intros (A & B). split; [rewrite Hw; exact A | rewrite Hm; exact B]. }
  assert (Hmid : exists r2 s2,
             (match oc with Some c => set_color E c | None => ret tt end) s1 = (r2, s2) /\
             turn_off_calls (trace s2) = turn_off_calls (trace s1) /\
             (readings_ok E -> colors_in_range s1 -> colors_in_range s2)).
  { destruct oc as [c | ].
    - exists (fst (set_color E c s1)), (snd (set_color E c s1)).
      split; [destruct (set_color E c s1); reflexivity | ].
      split; [apply set_color_quiet | ].
      intros Hr Hin. apply set_color_in_range; [ | exact Hin].
      exact (Hc c Hr eq_refl).
    - exists (Ok tt), s1. split; [reflexivity | ]. split; [reflexivity | auto]. }
  destruct Hmid as (r2 & s2 & Heq & Ht2 & Hin2). rewrite Heq.
  destruct r2 as [[] | e2]; cbn [snd].
  - unfold call. cbn [snd trace].
    rewrite turn_off_calls_silent by reflexivity.
    split; [congruence | ].
    intros Hr Hin. destruct (Hin2 Hr (Hin1 Hin)) as (A & B).
    split; [cbn [trace]; rewrite writes_silent by reflexivity; exact A | exact B].
  - split; [congruence | ]. intros Hr Hin. exact (Hin2 Hr (Hin1 Hin)).
Qed.

Lemma ticks_frame (E : env) (n : nat) (s : state) :
  turn_off_calls (trace (snd (ticks E n s))) = turn_off_calls (trace s) /\
  (readings_ok E -> colors_in_range s -> colors_in_range (snd (ticks E n s))).
Proof.
  revert s. induction n as [ | n IH]; intros s; [split; auto | ].
  cbn [ticks]. unfold bind.
  destruct (tick_frame E s) as (Ht & Hin).
  destruct (tick E s) as [[[] | e] s1]; cbn [snd] in *.
  - destruct (IH s1) as (Ht' & Hin'). split; [congruence | auto].
  - split; auto.
Qed.

Lemma ticks_more (E : env) (n m : nat) (s s1 : state) (e : exn) :
  ticks E n s = (Raise e, s1) -> ticks E (n + m) s = (Raise e, s1).
Proof.
  revert s. induction n as [ | n IH]; intros s; [discriminate | ].
  cbn [ticks Nat.add]. unfold bind.
  destruct (tick E s) as [[[] | e'] s']; [apply IH | auto].
Qed.

Lemma bridge_stop_frame (E : env) (s : state) :
  (fst (bridge_stop E s) = Ok tt \/ fst (bridge_stop E s) = Raise KeyboardInterrupt) /\
  (uninterrupted_from E (clock s) -> fst (bridge_stop E s) = Ok tt) /\
  snd (bridge_stop E s) = snd (turn_off E s).
Proof.
  unfold bridge_stop, try_except.
  destruct (turn_off_result E s) as (Hr & Hun).
  destruct (turn_off E s) as [[[] | e] s1]; cbn [fst snd] in *.
  - auto.
  - destruct Hr as [Hr | Hr]; [discriminate | ]. injection Hr as ->. cbn.
    split; [auto | ]. split; [ | reflexivity].
    intros H. specialize (Hun H). discriminate.
Qed.

(** * C8: the bulb is told to turn off *)

(** C8: once a pass of the loop has raised, whatever it raised, the bridge
    leaves the loop and returns; [turn_off] was not entered during the loop and
    is entered exactly once after it; and the bridge returns normally, whatever
    [turn_off] met, unless a call of [turn_off] itself is interrupted. *)
Theorem guaranteed_power_off (E : env) (s s1 : state) (n fuel : nat) (e : exn) :
  ticks E n s = (Raise e, s1) ->
  (n <= fuel)%nat ->
  exists (r : result unit) (s' : state),
    bridge_run E fuel s = Some (r, s') /\
    turn_off_calls (trace s1) = turn_off_calls (trace s) /\
    (exists evs : list event,
       trace s' = trace s1 ++ CallTurnOff :: evs /\ turn_off_calls evs = 0%nat) /\
    turn_off_calls (trace s') = S (turn_off_calls (trace s)) /\
    (r = Ok tt \/ r = Raise KeyboardInterrupt) /\
    (uninterrupted_from E (clock s1) -> r = Ok tt).
Proof.
  intros Hloop Hfuel.
  assert (Hrun : ticks E fuel s = (Raise e, s1)).
  { replace fuel with (n + (fuel - n))%nat by lia. apply ticks_more. exact Hloop. }
  exists (fst (bridge_stop E s1)), (snd (bridge_stop E s1)).
  destruct (bridge_stop_frame E s1) as (Hr & Hun & Hs).
  destruct (turn_off_trace E s1) as (_ & _ & evs & Htr & Hsil).
  destruct (forallb_silent_calls evs Hsil) as (Hcalls & _).
  pose proof (proj1 (ticks_frame E n s)) as Hquiet. rewrite Hloop in Hquiet.
  cbn [snd] in Hquiet.
  split; [ | split; [exact Hquiet | split; [ | split; [ | split; [exact Hr | exact Hun]]]]].
  - unfold bridge_run. rewrite Hrun. destruct (bridge_stop E s1); reflexivity.
  - exists evs. rewrite Hs. split; [exact Htr | exact Hcalls].
  - rewrite Hs, Htr, turn_off_calls_app, Hquiet.
    change (CallTurnOff :: evs) with ([CallTurnOff] ++ evs).
    rewrite turn_off_calls_app, Hcalls. cbn. lia.
Qed.

Lemma guaranteed_power_off_witness :
  exists (r : result unit) (s' : state),
    bridge_run interrupted 5 fresh = Some (r, s') /\
    turn_off_calls (trace (snd (ticks interrupted 1 fresh))) = turn_off_calls (trace fresh) /\
    (exists evs : list event,
       trace s' = trace (snd (ticks interrupted 1 fresh)) ++ CallTurnOff :: evs /\
       turn_off_calls evs = 0%nat) /\
    turn_off_calls (trace s') = S (turn_off_calls (trace fresh)) /\
    (r = Ok tt \/ r = Raise KeyboardInterrupt) /\
    (uninterrupted_from interrupted (clock (snd (ticks interrupted 1 fresh))) -> r = Ok tt).
Proof.
  apply (guaranteed_power_off interrupted fresh (snd (ticks interrupted 1 fresh)) 1 5
           KeyboardInterrupt).
  - vm_compute. reflexivity.
  - lia.
Defined.

(** * C9: channels stay within range *)

Lemma bridge_init_in_range (E : env) (dev_id ip : string) (s : state) :
  writes (trace s) = [] ->
  writes (trace (snd (bridge_init E dev_id ip s))) = [] /\
  (fst (bridge_init E dev_id ip s) = Ok tt ->
   colors_in_range (snd (bridge_init E dev_id ip s))).
Proof.
  intros Hw. unfold bridge_init, icue_init, find_device, find_all_led_ids.
  unfold colors_in_range.
  answers; cbn [fst snd icue magic clock trace magic_last_color];
    rewrite ?writes_silent by reflexivity; rewrite Hw;
    (split; [reflexivity | ]); intros H; try discriminate H;
    (split; [constructor | intros c Hc; discriminate Hc]).
Qed.

(** C9: with every reading within [0, 255], so is every colour
    [get_average_color] returns, every colour of a fade between two colours
    within range, and, over a whole run of the bridge from its constructors to
    its return, every colour written to the bulb. *)
Theorem channel_range_invariant (E : env) :
  readings_ok E ->
  (forall (s : state) (c : color),
     fst (get_average_color E s) = Ok (Some c) -> color_ok c) /\
  (forall last target : color,
     color_ok last -> color_ok target ->
     exists cs : list color,
       map (fade_color last target) fade_steps = map Ok cs /\ Forall color_ok cs) /\
  (forall (n : nat) (s : state),
     colors_in_range s -> colors_in_range (snd (ticks E n s))) /\
  (forall (dev_id ip : string) (fuel : nat) (s : state) (r : result unit) (s' : state),
     writes (trace s) = [] ->
     start_bridge E dev_id ip fuel s = Some (r, s') ->
     Forall color_ok (writes (trace s'))).
Proof.
  intros Hread. split; [ | split; [ | split]].
  - intros s c. apply get_average_color_ok. exact Hread.
  - intros last target Hl Ht.
    destruct (fade_color_values last target Hl Ht) as (cs & Hcs & Hok).
    exists cs. split; [exact Hcs | ]. exact (fade_ok_colors last target cs Hl Ht Hok).
  - intros n s Hin. exact (proj2 (ticks_frame E n s) Hread Hin).
  - intros dev_id ip fuel s r s' Hw. unfold start_bridge.
    destruct (bridge_init_in_range E dev_id ip s Hw) as (Hw0 & Hin0).
    destruct (bridge_init E dev_id ip s) as [[[] | e] s0]; cbn [fst snd] in *.
    + specialize (Hin0 eq_refl). unfold bridge_run.
      pose proof (proj2 (ticks_frame E fuel s0) Hread Hin0) as Hin1.
      destruct (ticks E fuel s0) as [[[] | e] s1]; [discriminate | ].
      cbn [snd] in Hin1. intros H. injection H as H.
      destruct (bridge_stop_frame E s1) as (_ & _ & Hs).
      rewrite H in Hs. cbn [snd] in Hs. rewrite Hs.
      destruct (turn_off_trace E s1) as (_ & _ & evs & Htr & Hsil).
      destruct (forallb_silent_calls evs Hsil) as (_ & Hwr).
      rewrite Htr, writes_app.
      change (CallTurnOff :: evs) with ([CallTurnOff] ++ evs).
      rewrite writes_app, Hwr. cbn. rewrite app_nil_r. exact (proj1 Hin1).
    + destruct (is_Exception e); intros H; injection H as _ <-;
        rewrite Hw0; constructor.
Qed.

Lemma calm_readings_ok : readings_ok calm.
Proof.
  intros n leds H. injection H as <-.
  repeat (apply Forall_cons; [unfold led_ok, color_ok, channel_ok; cbn; lia | ]).
  apply Forall_nil.
Qed.

Lemma channel_range_invariant_witness :
  (forall (s : state) (c : color),
     fst (get_average_color calm s) = Ok (Some c) -> color_ok c) /\
  (forall last target : color,
     color_ok last -> color_ok target ->
     exists cs : list color,
       map (fade_color last target) fade_steps = map Ok cs /\ Forall color_ok cs) /\
  (forall (n : nat) (s : state),
     colors_in_range s -> colors_in_range (snd (ticks calm n s))) /\
  (forall (dev_id ip : string) (fuel : nat) (s : state) (r : result unit) (s' : state),
     writes (trace s) = [] ->
     start_bridge calm dev_id ip fuel s = Some (r, s') ->
     Forall color_ok (writes (trace s'))).
Proof.
  apply (channel_range_invariant calm). exact calm_readings_ok.
Defined.

(** * More of the source side *)

(** ** [_find_device] *)

Lemma find_some_first {A : Type} (f : A -> bool) (l : list A) (x : A) :
  find f l = Some x ->
  exists pre post : list A,
    l = pre ++ x :: post /\ f x = true /\ Forall (fun y => f y = false) pre.
Proof.
  induction l as [ | a l IH]; cbn [find]; [discriminate | ].
  destruct (f a) eqn:Ha.
  - intros H. injection H as ->. exists [], l. auto.
  - intros H. destruct (IH H) as (pre & post & -> & Hx & Hpre).
    exists (a :: pre), post. auto.
Qed.

Lemma find_none_all {A : Type} (f : A -> bool) (l : list A) :
  find f l = None <-> Forall (fun y => f y = false) l.
Proof.
  induction l as [ | a l IH]; cbn [find].
  - split; auto.
  - destruct (f a) eqn:Ha.
    + split; [discriminate | ]. intros H. inversion H; congruence.
    + rewrite IH. split; [auto | ]. intros H. inversion H; assumption.
Qed.

Lemma find_device_run (E : env) (s : state) :
  find_device E s =
  (rbind (sdk_get_devices E (clock s))
         (fun devices =>
            Ok (if truthy devices
                then find (fun d => String.eqb (device_id d) (icue_device_id (icue s)))
                          (elements devices)
                else None)),
   after_call SdkGetDevices s).
Proof.
  unfold find_device, after_call. msimpl.
  destruct (sdk_get_devices E (clock s)); reflexivity.
Qed.

Lemma truthy_elements {A : Type} (ol : option (list A)) :
  truthy ol = false -> elements ol = [].
Proof. destruct ol as [[ | a l] | ]; [reflexivity | discriminate | reflexivity]. Qed.

(** X1: [_find_device] asks the SDK for its devices once, and when the SDK
    answers it returns: the first listed device whose id is the configured
    one, or [None] exactly when no listed device has that id (an empty or
    missing list included).  An exception of the SDK is the exception of the
    call. *)
Theorem find_device_first_match (E : env) (s : state) :
  let wanted := icue_device_id (icue s) in
  snd (find_device E s) = after_call SdkGetDevices s /\
  (forall e : exn, sdk_get_devices E (clock s) = Raise e ->
     fst (find_device E s) = Raise e) /\
  (forall ol : option (list device), sdk_get_devices E (clock s) = Ok ol ->
     exists r : option device,
       fst (find_device E s) = Ok r /\
       match r with
       | Some d =>
           device_id d = wanted /\
           exists pre post : list device,
             elements ol = pre ++ d :: post /\
             Forall (fun d' => device_id d' <> wanted) pre
       | None => Forall (fun d' => device_id d' <> wanted) (elements ol)
       end /\
       (r = None <-> Forall (fun d' => device_id d' <> wanted) (elements ol))).
Proof.
  intros wanted. rewrite find_device_run. cbn [fst snd].
  split; [reflexivity | ]. split.
  - intros e ->. reflexivity.
  - intros ol ->. cbn [rbind]. fold wanted.
    assert (Hneq : forall l : list device,
               Forall (fun y => String.eqb (device_id y) wanted = false) l <->
               Forall (fun d' => device_id d' <> wanted) l).
    { intros l. split; apply Forall_impl; intros d'; rewrite String.eqb_neq; auto. }
    destruct (truthy ol) eqn:Ht.
    + destruct (find (fun d => String.eqb (device_id d) wanted) (elements ol))
        as [d | ] eqn:Hfind.
      * exists (Some d). split; [reflexivity | ].
        destruct (find_some_first _ _ _ Hfind) as (pre & post & Heq & Hd & Hpre).
        apply String.eqb_eq in Hd. split; [ | split].
        -- split; [exact Hd | ]. exists pre, post. split; [exact Heq | ].
           apply Hneq. exact Hpre.
        -- discriminate.
        -- intros Hall. apply Hneq, find_none_all in Hall. congruence.
      * exists None. split; [reflexivity | ].
        apply find_none_all, Hneq in Hfind. split; [exact Hfind | ].
        split; [intros _; exact Hfind | reflexivity].
    + exists None. split; [reflexivity | ].
      rewrite (truthy_elements ol Ht). split; [constructor | ].
      split; [constructor | reflexivity].
Qed.

Lemma find_device_first_match_witness :
  exists r : option device,
    fst (find_device calm fresh) = Ok r /\
    match r with
    | Some d =>
        device_id d = icue_device_id (icue fresh) /\
        exists pre post : list device,
          elements (Some [demo_device]) = pre ++ d :: post /\
          Forall (fun d' => device_id d' <> icue_device_id (icue fresh)) pre
    | None =>
        Forall (fun d' => device_id d' <> icue_device_id (icue fresh))
               (elements (Some [demo_device]))
    end /\
    (r = None <->
     Forall (fun d' => device_id d' <> icue_device_id (icue fresh))
            (elements (Some [demo_device]))).
Proof.
  apply (proj2 (proj2 (find_device_first_match calm fresh)) (Some [demo_device])).
  reflexivity.
Defined.

(** ** [iCueController.__init__] *)

Lemma icue_init_run (E : env) (dev_id : string) (s : state) :
  fst (icue_init E dev_id s) = Ok tt ->
  exists (devices : list device) (d : device) (ol : option (list Z)),
    sdk_connect E (clock s) = Ok true /\
    time_sleep E (S (clock s)) = Ok tt /\
    sdk_get_devices E (S (S (clock s))) = Ok (Some devices) /\
    find (fun d' => String.eqb (device_id d') dev_id) devices = Some d /\
    sdk_get_led_positions E (S (S (S (clock s)))) = Ok ol /\
    snd (icue_init E dev_id s) =
    mkState (mkIcue dev_id (Some d) (if truthy ol then elements ol else []) None)
            (magic s) (S (S (S (S (clock s)))))
            (trace s ++ [SdkConnect; Sleep 1000; SdkGetDevices;
                         SdkGetLedPositions (device_id d)]).
Proof.
  unfold icue_init, find_device, find_all_led_ids.
  answers; cbn [fst snd]; intros H; try discriminate H.
  all: rewrite <- ?app_assoc; cbn.
  all: repeat match goal with
              | H : negb _ = true |- _ => apply negb_true_iff in H
              | H : negb _ = false |- _ => apply negb_false_iff in H
              | a : unit |- _ => destruct a
              end.
  all: destruct a1 as [[ | d1 l1] | ]; try discriminate Heqo; cbn in Heqo.
  all: exists (d1 :: l1), d, a2; rewrite ?Heqb0; subst a; cbn; auto 10.
Qed.

(** X2: when the constructor returns, the SDK accepted the connection, and
    the controller holds the configured id, the first listed device with that
    id, the LED ids the SDK listed for it (none when it listed none) and no
    stored reading; exactly four calls were made, in the order connect, a
    delay of one second, [get_devices], [get_led_positions]; and the actuator
    is as it was. *)
Theorem icue_init_outcome (E : env) (dev_id : string) (s : state) :
  fst (icue_init E dev_id s) = Ok tt ->
  let s' := snd (icue_init E dev_id s) in
  exists (d : device) (ol : option (list Z)),
    sdk_connect E (clock s) = Ok true /\
    icue_device_id (icue s') = dev_id /\
    icue_device (icue s') = Some d /\ device_id d = dev_id /\
    sdk_get_led_positions E (S (S (S (clock s)))) = Ok ol /\
    icue_led_ids (icue s') = elements ol /\
    icue_last_colors (icue s') = None /\
    trace s' = trace s ++ [SdkConnect; Sleep 1000; SdkGetDevices;
                           SdkGetLedPositions dev_id] /\
    magic s' = magic s.
Proof.
  intros Hok s'.
  destruct (icue_init_run E dev_id s Hok)
    as (devices & d & ol & Hc & _ & _ & Hfind & Hpos & Hs).
  subst s'. rewrite Hs. cbn [icue magic trace icue_device_id icue_device icue_led_ids
                             icue_last_colors].
  destruct (find_some_first _ _ _ Hfind) as (_ & _ & _ & Hd & _).
  apply String.eqb_eq in Hd.
  exists d, ol. rewrite Hd. repeat split; try assumption.
  destruct (truthy ol) eqn:Ht; [reflexivity | ].
  symmetry. apply truthy_elements. exact Ht.
Qed.

Lemma icue_init_outcome_witness :
  exists (d : device) (ol : option (list Z)),
    sdk_connect calm (clock fresh) = Ok true /\
    icue_device_id (icue (snd (icue_init calm "kbd" fresh))) = "kbd"%string /\
    icue_device (icue (snd (icue_init calm "kbd" fresh))) = Some d /\
    device_id d = "kbd"%string /\
    sdk_get_led_positions calm (S (S (S (clock fresh)))) = Ok ol /\
    icue_led_ids (icue (snd (icue_init calm "kbd" fresh))) = elements ol /\
    icue_last_colors (icue (snd (icue_init calm "kbd" fresh))) = None /\
    trace (snd (icue_init calm "kbd" fresh))
    = trace fresh ++ [SdkConnect; Sleep 1000; SdkGetDevices; SdkGetLedPositions "kbd"] /\
    magic (snd (icue_init calm "kbd" fresh)) = magic fresh.
Proof.
  apply (icue_init_outcome calm "kbd" fresh). reflexivity.
Defined.

(** ** Reads of the LED colours *)

Lemma led_reads_app (tr tr' : list event) :
  led_reads (tr ++ tr') = (led_reads tr + led_reads tr')%nat.
Proof. unfold led_reads. rewrite filter_app, length_app. reflexivity. Qed.

Lemma reconnect_reads (E : env) (s : state) :
  led_reads (trace (snd (reconnect E s))) = led_reads (trace s).
Proof.
  unfold reconnect, find_device, find_all_led_ids.
  answers; cbn [snd trace]; rewrite <- ?app_assoc, ?led_reads_app; cbn; lia.
Qed.

(** X3: with no device or no LED ids, as after a constructor to which the
    SDK listed no LED, [get_average_color] reads no colour: it is a call of
    [reconnect], it returns [None] when that call returns and raises what it
    raises, and it never returns a colour. *)
Theorem no_leds_no_read (E : env) (s : state) :
  icue_device (icue s) = None \/ icue_led_ids (icue s) = [] ->
  snd (get_average_color E s) = snd (reconnect E s) /\
  fst (get_average_color E s) = rbind (fst (reconnect E s)) (fun _ => Ok None) /\
  led_reads (trace (snd (get_average_color E s))) = led_reads (trace s).
Proof.
  intros Hno.
  assert (Heq : get_average_color E s = (reconnect E ;; ret None) s).
  { unfold get_average_color. unfold bind at 1, get_icue.
    destruct Hno as [-> | ->]; [reflexivity | ].
    destruct (icue_device (icue s)); reflexivity. }
  rewrite Heq, reconnect_then_none. cbn [fst snd].
  repeat split. apply reconnect_reads.
Qed.

Lemma no_leds_no_read_witness :
  let s := snd (icue_init no_leds "kbd" fresh) in
  fst (icue_init no_leds "kbd" fresh) = Ok tt /\
  snd (get_average_color no_leds s) = snd (reconnect no_leds s) /\
  fst (get_average_color no_leds s) = rbind (fst (reconnect no_leds s)) (fun _ => Ok None) /\
  led_reads (trace (snd (get_average_color no_leds s))) = led_reads (trace s).
Proof.
  split; [reflexivity | ].
  apply (no_leds_no_read no_leds (snd (icue_init no_leds "kbd" fresh))).
  right. reflexivity.
Defined.

(** ** [reconnect] that fails *)

Lemma reconnect_refused_run (E : env) (s : state) :
  sdk_disconnect E (clock s) = Ok tt ->
  time_sleep E (S (clock s)) = Ok tt ->
  sdk_connect E (S (S (clock s))) = Ok false ->
  reconnect E s =
  (Raise (RuntimeError "Could not connect to iCUE SDK"),
   mkState (icue s) (magic s) (S (S (S (clock s))))
           (trace s ++ [SdkDisconnect; Sleep 2000; SdkConnect])).
Proof.
  intros Hd Hs1 Hc. unfold reconnect. msimpl. rewrite Hd. msimpl. rewrite Hs1. msimpl.
  rewrite Hc. msimpl. rewrite <- !app_assoc. destruct s as [[] ? ? ?]. reflexivity.
Qed.

Lemma reconnect_lost_run (E : env) (s : state) (ol : option (list device)) :
  sdk_disconnect E (clock s) = Ok tt ->
  time_sleep E (S (clock s)) = Ok tt ->
  sdk_connect E (S (S (clock s))) = Ok true ->
  time_sleep E (S (S (S (clock s)))) = Ok tt ->
  sdk_get_devices E (S (S (S (S (clock s))))) = Ok ol ->
  Forall (fun d => device_id d <> icue_device_id (icue s)) (elements ol) ->
  reconnect E s =
  (Raise (RuntimeError ("Device not found: " ++ icue_device_id (icue s))),
   mkState (mkIcue (icue_device_id (icue s)) None (icue_led_ids (icue s))
                   (icue_last_colors (icue s)))
           (magic s) (S (S (S (S (S (clock s))))))
           (trace s ++ [SdkDisconnect; Sleep 2000; SdkConnect; Sleep 1000; SdkGetDevices])).
Proof.
  intros Hd Hs1 Hc Hs2 Hdev Hnone.
  assert (Hfind : (if truthy ol
                   then find (fun d => String.eqb (device_id d) (icue_device_id (icue s)))
                             (elements ol)
                   else None) = None).
  { destruct (truthy ol); [ | reflexivity]. apply find_none_all.
    revert Hnone. apply Forall_impl. intros d. rewrite String.eqb_neq. auto. }
  unfold reconnect, find_device. msimpl. rewrite Hd. msimpl. rewrite Hs1. msimpl.
  rewrite Hc. msimpl. rewrite Hs2. msimpl. rewrite Hdev. msimpl. rewrite Hfind. msimpl.
  rewrite <- !app_assoc. reflexivity.
Qed.

(** X4: a [reconnect] to which the SDK refuses the connection raises after
    three calls and leaves the controller as it was, device and LED ids
    included; one to which the SDK no longer lists the device raises after
    five calls with the device forgotten, and from then on
    [get_average_color] goes to [reconnect] without reading. *)
Theorem reconnect_failure_state (E : env) (s : state) :
  sdk_disconnect E (clock s) = Ok tt ->
  time_sleep E (S (clock s)) = Ok tt ->
  (sdk_connect E (S (S (clock s))) = Ok false ->
   reconnect E s =
   (Raise (RuntimeError "Could not connect to iCUE SDK"),
    mkState (icue s) (magic s) (S (S (S (clock s))))
            (trace s ++ [SdkDisconnect; Sleep 2000; SdkConnect]))) /\
  (forall ol : option (list device),
     sdk_connect E (S (S (clock s))) = Ok true ->
     time_sleep E (S (S (S (clock s)))) = Ok tt ->
     sdk_get_devices E (S (S (S (S (clock s))))) = Ok ol ->
     Forall (fun d => device_id d <> icue_device_id (icue s)) (elements ol) ->
     let s' := mkState (mkIcue (icue_device_id (icue s)) None (icue_led_ids (icue s))
                               (icue_last_colors (icue s)))
                       (magic s) (S (S (S (S (S (clock s))))))
                       (trace s ++ [SdkDisconnect; Sleep 2000; SdkConnect; Sleep 1000;
                                    SdkGetDevices]) in
     reconnect E s =
     (Raise (RuntimeError ("Device not found: " ++ icue_device_id (icue s))), s') /\
     get_average_color E s' = (reconnect E ;; ret None) s').
Proof.
  intros Hd Hs1. split.
  - apply reconnect_refused_run; assumption.
  - intros ol Hc Hs2 Hdev Hnone. split; [ | reflexivity].
    apply (reconnect_lost_run E s ol); assumption.
Qed.

Lemma reconnect_failure_state_witness :
  reconnect unplugged fresh =
  (Raise (RuntimeError "Could not connect to iCUE SDK"),
   mkState (icue fresh) (magic fresh) (S (S (S (clock fresh))))
           (trace fresh ++ [SdkDisconnect; Sleep 2000; SdkConnect])).
Proof.
  apply (proj1 (reconnect_failure_state unplugged fresh eq_refl eq_refl)).
  reflexivity.
Defined.

(** ** What the average depends on *)

Lemma sum_permutation (l l' : list Z) : Permutation l l' -> sum l = sum l'.
Proof.
  induction 1 as [ | x l l' _ IH | x y l | l l' l'' _ IH1 _ IH2].
  - reflexivity.
  - rewrite !sum_cons, IH. reflexivity.
  - rewrite !sum_cons. lia.
  - congruence.
Qed.

Lemma channel_of_rgb (leds : list led) :
  map led_r leds = map red (map rgb leds) /\
  map led_g leds = map green (map rgb leds) /\
  map led_b leds = map blue (map rgb leds).
Proof. rewrite !map_map. repeat split; apply map_ext; intros []; reflexivity. Qed.

(** X5: the colour computed from a reading depends only on which colours
    the LEDs have and how many times each: two readings whose per-LED colours
    are the same up to order, whatever the LED ids and alpha values, have the
    same average. *)
Theorem average_color_permutation (leds leds' : list led) :
  Permutation (map rgb leds) (map rgb leds') ->
  average_color leds = average_color leds'.
Proof.
  intros Hperm. unfold average_color.
  destruct (channel_of_rgb leds) as (-> & -> & ->).
  destruct (channel_of_rgb leds') as (-> & -> & ->).
  rewrite (sum_permutation _ _ (Permutation_map red Hperm)).
  rewrite (sum_permutation _ _ (Permutation_map green Hperm)).
  rewrite (sum_permutation _ _ (Permutation_map blue Hperm)).
  replace (len leds) with (len leds'); [reflexivity | ].
  unfold len. f_equal.
  rewrite <- (length_map rgb leds), <- (length_map rgb leds').
  symmetry. apply Permutation_length. exact Hperm.
Qed.

Lemma average_color_permutation_witness :
  average_color green_red = average_color red_green.
Proof.
  apply (average_color_permutation green_red red_green).
  apply perm_swap.
Defined.

(** * More of the actuator side *)

(** ** [MagicHomeController.connect] *)

Lemma magic_connect_run (E : env) (s : state) :
  magic_connect E s =
  let ip := magic_ip (magic s) in
  let last := magic_last_color (magic s) in
  match bulb_new E (clock s) with
  | Ok _ =>
      match bulb_connect E (S (clock s)) with
      | Ok _ => (Ok tt, mkState (icue s) (mkMagic ip true last) (S (S (clock s)))
                                (trace s ++ [BulbNew ip; BulbConnect]))
      | Raise e =>
          (if is_Exception e then Ok tt else Raise e,
           mkState (icue s) (mkMagic ip (negb (is_Exception e)) last) (S (S (clock s)))
                   (trace s ++ [BulbNew ip; BulbConnect]))
      end
  | Raise e =>
      (if is_Exception e then Ok tt else Raise e,
       mkState (icue s)
               (mkMagic ip (if is_Exception e then false else magic_bulb (magic s)) last)
               (S (clock s)) (trace s ++ [BulbNew ip]))
  end.
Proof.
  unfold magic_connect. msimpl.
  destruct (bulb_new E (clock s)) as [[] | e]; msimpl.
  - destruct (bulb_connect E (S (clock s))) as [[] | e]; msimpl; rewrite <- ?app_assoc.
    + reflexivity.
    + destruct (is_Exception e); msimpl; reflexivity.
  - destruct (is_Exception e); msimpl; [reflexivity | ].
    destruct s as [? [] ? ?]; reflexivity.
Qed.

(** X6: [connect] raises no [Exception]: it returns, or an interrupt passes
    through.  When it returns, the actuator has a bulb exactly when the
    constructor of the bulb and its [connect] both answered; the address and
    the last commanded colour are kept, the source is not touched and nothing
    is written. *)
Theorem magic_connect_outcome (E : env) (s : state) :
  let r := magic_connect E s in
  (fst r = Ok tt \/ fst r = Raise KeyboardInterrupt) /\
  (fst r = Ok tt ->
   (magic_bulb (magic (snd r)) = true <->
    bulb_new E (clock s) = Ok tt /\ bulb_connect E (S (clock s)) = Ok tt)) /\
  magic_ip (magic (snd r)) = magic_ip (magic s) /\
  magic_last_color (magic (snd r)) = magic_last_color (magic s) /\
  icue (snd r) = icue s /\
  writes (trace (snd r)) = writes (trace s).
Proof.
  cbv zeta. rewrite magic_connect_run. cbv zeta.
  destruct (bulb_new E (clock s)) as [[] | e].
  - destruct (bulb_connect E (S (clock s))) as [[] | e'].
    + cbn [fst snd magic icue trace magic_bulb magic_ip magic_last_color].
      rewrite writes_app. cbn. rewrite app_nil_r. intuition.
    + cbn [fst snd magic icue trace magic_bulb magic_ip magic_last_color].
      rewrite writes_app. cbn. rewrite app_nil_r.
      destruct (is_Exception e') eqn:He; cbn [negb].
      * repeat split; auto; try discriminate; intros [_ H']; discriminate H'.
      * rewrite (is_Exception_false e' He). repeat split; auto; discriminate.
  - cbn [fst snd magic icue trace magic_bulb magic_ip magic_last_color].
    rewrite writes_app. cbn. rewrite app_nil_r.
    destruct (is_Exception e) eqn:He.
    + repeat split; auto; try discriminate; intros [H' _]; discriminate H'.
    + rewrite (is_Exception_false e He). repeat split; auto; discriminate.
Qed.

(** ** [MagicHomeController.turn_off] *)

Lemma turn_off_commands_app (tr tr' : list event) :
  turn_off_commands (tr ++ tr') = (turn_off_commands tr + turn_off_commands tr')%nat.
Proof. unfold turn_off_commands. rewrite filter_app, length_app. reflexivity. Qed.

(** X7: [turn_off] on a connected actuator makes one call, the command to
    turn off; on one that is not connected it first tries to connect, and
    when that fails it returns normally without the command: the strip stays
    as it is.  An [Exception] of the command is swallowed and drops the bulb.
    In no case is the command sent twice or the last commanded colour
    changed. *)
Theorem turn_off_outcome (E : env) (s : state) :
  let s' := snd (turn_off E s) in
  (magic_bulb (magic s) = true ->
   trace s' = trace s ++ [CallTurnOff; BulbTurnOff] /\
   (forall e : exn, bulb_turnOff E (clock s) = Raise e -> is_Exception e = true ->
      fst (turn_off E s) = Ok tt /\ magic_bulb (magic s') = false)) /\
  (connect_fails E s ->
   fst (turn_off E s) = Ok tt /\
   turn_off_commands (trace s') = turn_off_commands (trace s) /\
   magic_bulb (magic s') = false) /\
  (magic_bulb (magic s) = false ->
   bulb_new E (clock s) = Ok tt -> bulb_connect E (S (clock s)) = Ok tt ->
   trace s' = trace s ++ [CallTurnOff; BulbNew (magic_ip (magic s)); BulbConnect;
                          BulbTurnOff]) /\
  (turn_off_commands (trace s') <= S (turn_off_commands (trace s)))%nat /\
  magic_last_color (magic s') = magic_last_color (magic s).
Proof.
  cbv zeta. split; [ | split; [ | split; [ | split]]].
  - intros Hb. unfold turn_off. msimpl. rewrite Hb. msimpl. rewrite Hb. msimpl.
    destruct (bulb_turnOff E (clock s)) as [[] | e] eqn:Hoff; msimpl;
      rewrite <- ?app_assoc.
    + split; [reflexivity | ]. intros e H. discriminate H.
    + destruct (is_Exception e) eqn:He; msimpl.
      * split; [reflexivity | ]. intros e' H _. split; reflexivity.
      * split; [reflexivity | ]. intros e' H He'. injection H as <-. congruence.
  - intros (Hb & Hfail). unfold turn_off, magic_connect. msimpl. rewrite Hb. msimpl.
    destruct Hfail as [(e & Hn & He) | (Hn & e & Hc & He)].
    + rewrite Hn. msimpl. rewrite He. msimpl.
      rewrite <- ?app_assoc, !turn_off_commands_app. cbn. repeat split; lia.
    + rewrite Hn. msimpl. rewrite Hc. msimpl. rewrite He. msimpl.
      rewrite <- ?app_assoc, !turn_off_commands_app. cbn. repeat split; lia.
  - intros Hb Hn Hc. unfold turn_off, magic_connect. msimpl. rewrite Hb. msimpl.
    rewrite Hn. msimpl. rewrite Hc. msimpl.
    destruct (bulb_turnOff E (S (S (clock s)))) as [[] | e]; msimpl;
      rewrite <- ?app_assoc; [reflexivity | ].
    destruct (is_Exception e); msimpl; reflexivity.
  - unfold turn_off, magic_connect.
    answers; cbn [snd trace]; rewrite <- ?app_assoc; unfold turn_off_commands; cbn; rewrite ?filter_app, ?length_app; cbn; lia.
  - apply turn_off_trace.
Qed.

Lemma turn_off_outcome_witness :
  fst (turn_off offline fresh) = Ok tt /\
  turn_off_commands (trace (snd (turn_off offline fresh))) = turn_off_commands (trace fresh) /\
  magic_bulb (magic (snd (turn_off offline fresh))) = false.
Proof.
  apply (proj1 (proj2 (turn_off_outcome offline fresh))).
  split; [reflexivity | ]. left. exists DeviceError. split; reflexivity.
Defined.

(** ** How [set_color] can end *)

Lemma fade_step_outcome (E : env) (last target c : color) (step : Z) (s : state) :
  fade_color last target step = Ok c ->
  let r := fade_step E last target step s in
  (fst r = Ok true /\ magic (snd r) = magic s) \/
  (fst r = Ok false /\ magic_bulb (magic (snd r)) = false) \/
  fst r = Raise KeyboardInterrupt.
Proof.
  intros Hc. unfold fade_step. unfold bind at 1, lift. rewrite Hc.
  answers; cbn [fst snd magic magic_bulb]; auto;
    match goal with
    | H : is_Exception ?e = false |- _ => rewrite (is_Exception_false e H); auto
    end.
Qed.

Lemma fade_outcome (E : env) (last target : color) (steps : list Z) (cs : list color)
      (s : state) :
  map (fade_color last target) steps = map Ok cs ->
  let r := fade E last target steps s in
  (fst r = Ok true /\ magic (snd r) = magic s) \/
  (fst r = Ok false /\ magic_bulb (magic (snd r)) = false) \/
  fst r = Raise KeyboardInterrupt.
Proof.
  revert cs s. induction steps as [ | step steps IH]; intros cs s Hcs; cbv zeta.
  - left. split; reflexivity.
  - destruct cs as [ | c cs]; [discriminate | ]. cbn [map] in Hcs.
    injection Hcs as Hc Hcs.
    change (fade E last target (step :: steps) s)
      with (match fade_step E last target step s with
            | (Ok ok, s1) => (if ok then fade E last target steps else ret false) s1
            | (Raise e, s1) => (Raise e, s1)
            end).
    pose proof (fade_step_outcome E last target c step s Hc) as Hstep. cbv zeta in Hstep.
    destruct (fade_step E last target step s) as [[[ | ] | e] s1]; cbn [fst snd] in *.
    + destruct Hstep as [[_ Hm] | [[H _] | H]]; try discriminate H.
      specialize (IH cs s1 Hcs). cbv zeta in IH. rewrite Hm in IH. exact IH.
    + destruct Hstep as [[H _] | [[_ Hb] | H]]; try discriminate H.
      right. left. split; [reflexivity | exact Hb].
    + destruct Hstep as [[H _] | [[H _] | H]]; try discriminate H.
      right. right. exact H.
Qed.

Lemma direct_write_outcome (E : env) (c : color) (s : state) :
  let r := direct_write E c s in
  (fst r = Ok true /\ magic (snd r) = magic s) \/
  (fst r = Ok false /\ magic_bulb (magic (snd r)) = false) \/
  fst r = Raise KeyboardInterrupt.
Proof.
  unfold direct_write.
  answers; cbn [fst snd magic magic_bulb]; auto;
    match goal with
    | H : is_Exception ?e = false |- _ => rewrite (is_Exception_false e H); auto
    end.
Qed.

Lemma connect_attempt_result (E : env) (s : state) :
  let r := (if negb (magic_bulb (magic s)) then magic_connect E else ret tt) s in
  fst r = Ok tt \/ fst r = Raise KeyboardInterrupt.
Proof.
  cbv zeta. destruct (magic_bulb (magic s)); cbn [negb]; [left; reflexivity | ].
  rewrite magic_connect_run. cbv zeta.
  destruct (bulb_new E (clock s)) as [[] | e];
    [destruct (bulb_connect E (S (clock s))) as [[] | e] | ]; cbn [fst]; auto;
    destruct (is_Exception e) eqn:He; auto;
    rewrite (is_Exception_false e He); auto.
Qed.

(** X8: [set_color] with colours within range raises no [Exception]: it
    returns, or an interrupt passes through.  When it returns with the bulb
    still held, the whole transition went through and the colour is stored;
    and the stored colour changes to nothing but the colour asked for. *)
Theorem set_color_outcome (E : env) (c : color) (s : state) :
  color_ok c ->
  (forall last : color, magic_last_color (magic s) = Some last -> color_ok last) ->
  let r := set_color E c s in
  (fst r = Ok tt \/ fst r = Raise KeyboardInterrupt) /\
  (fst r = Ok tt -> magic_bulb (magic (snd r)) = true ->
   magic_last_color (magic (snd r)) = Some c) /\
  (magic_last_color (magic (snd r)) = magic_last_color (magic s) \/
   magic_last_color (magic (snd r)) = Some c).
Proof.
  intros Hc Hlast. cbv zeta. rewrite set_color_unfold.
  assert (Hpre : let r := (if negb (magic_bulb (magic s)) then magic_connect E else ret tt) s in
                 (fst r = Ok tt \/ fst r = Raise KeyboardInterrupt) /\
                 magic_last_color (magic (snd r)) = magic_last_color (magic s)).
  { split; [apply connect_attempt_result | apply connect_attempt]. }
  cbv zeta in Hpre.
  destruct ((if negb (magic_bulb (magic s)) then magic_connect E else ret tt) s)
    as [[[] | e] s1]; cbn [fst snd] in Hpre; destruct Hpre as [Hres Hkeep].
  2:{ cbn [fst snd]. destruct Hres as [H | H]; [discriminate H | ].
      repeat split; auto. intros H'. congruence. }
  destruct (magic_bulb (magic s1)) eqn:Hb1; cbn [negb fst snd].
  2:{ repeat split; auto. intros _ H. congruence. }
  assert (Hrun : let r := (match magic_last_color (magic s1) with
                           | Some last => fade E last c fade_steps
                           | None => direct_write E c
                           end) s1 in
                 ((fst r = Ok true /\ magic (snd r) = magic s1) \/
                  (fst r = Ok false /\ magic_bulb (magic (snd r)) = false) \/
                  fst r = Raise KeyboardInterrupt) /\
                 magic_last_color (magic (snd r)) = magic_last_color (magic s1)).
  { cbv zeta. destruct (magic_last_color (magic s1)) as [last | ] eqn:Hl1.
    - assert (Hlok : color_ok last) by (apply Hlast; congruence).
      destruct (fade_color_values last c Hlok Hc) as (cs & Hcs & _).
      split; [exact (fade_outcome E last c fade_steps cs s1 Hcs) | ].
      rewrite <- Hl1. apply (fade_frame E last c fade_steps cs s1 Hcs).
    - split; [exact (direct_write_outcome E c s1) | ].
      rewrite <- Hl1. apply direct_write_frame. }
  cbv zeta in Hrun.
  destruct ((match magic_last_color (magic s1) with
             | Some last => fade E last c fade_steps
             | None => direct_write E c
             end) s1) as [[[ | ] | e] s2]; cbn [fst snd] in Hrun;
    destruct Hrun as [Hcase Hkeep2].
  - rewrite set_last_color_run. cbn [fst snd magic magic_last_color]. auto.
  - destruct Hcase as [[H _] | [[_ Hb] | H]]; try discriminate H.
    cbn [fst snd]. repeat split; auto; [congruence | left; congruence].
  - destruct Hcase as [[H _] | [[H _] | H]]; try discriminate H.
    injection H as ->. cbn [fst snd]. split; [right; reflexivity | split; [intros H0; discriminate H0 | left; congruence]].
Qed.

Lemma set_color_outcome_witness :
  (fst (set_color third_write_fails warm dark) = Ok tt \/
   fst (set_color third_write_fails warm dark) = Raise KeyboardInterrupt) /\
  (fst (set_color third_write_fails warm dark) = Ok tt ->
   magic_bulb (magic (snd (set_color third_write_fails warm dark))) = true ->
   magic_last_color (magic (snd (set_color third_write_fails warm dark))) = Some warm) /\
  (magic_last_color (magic (snd (set_color third_write_fails warm dark)))
   = magic_last_color (magic dark) \/
   magic_last_color (magic (snd (set_color third_write_fails warm dark))) = Some warm).
Proof.
  apply (set_color_outcome third_write_fails warm dark).
  - unfold color_ok, channel_ok. cbn. lia.
  - intros last H. injection H as <-. unfold color_ok, channel_ok. cbn. lia.
Defined.

(** ** A delay that fails *)

Lemma fade_app (E : env) (last target : color) (pre rest : list Z) (s : state) :
  fade E last target (pre ++ rest) s =
  match fade E last target pre s with
  | (Ok true, s1) => fade E last target rest s1
  | r => r
  end.
Proof.
  revert s. induction pre as [ | p pre IH]; intros s; [reflexivity | ].
  cbn [app].
  change (fade E last target (p :: pre ++ rest) s)
    with (match fade_step E last target p s with
          | (Ok ok, s1) => (if ok then fade E last target (pre ++ rest) else ret false) s1
          | (Raise e, s1) => (Raise e, s1)
          end).
  change (fade E last target (p :: pre) s)
    with (match fade_step E last target p s with
          | (Ok ok, s1) => (if ok then fade E last target pre else ret false) s1
          | (Raise e, s1) => (Raise e, s1)
          end).
  destruct (fade_step E last target p s) as [[[ | ] | e] s1]; [apply IH | reflexivity | reflexivity].
Qed.

Lemma fade_step_sleep_fails (E : env) (last target c : color) (step : Z) (e : exn)
      (s : state) :
  fade_color last target step = Ok c ->
  bulb_setRgb E (clock s) = Ok tt ->
  time_sleep E (S (clock s)) = Raise e ->
  is_Exception e = true ->
  fade_step E last target step s =
  (Ok false,
   mkState (icue s) (mkMagic (magic_ip (magic s)) false (magic_last_color (magic s)))
           (S (S (clock s))) (trace s ++ [BulbSetRgb c; Sleep transition_delay_ms])).
Proof.
  intros Hc Hw Hs He. unfold fade_step. unfold bind at 1, lift. rewrite Hc.
  msimpl. rewrite Hw. msimpl. rewrite Hs, He. msimpl. rewrite <- app_assoc. reflexivity.
Qed.

Lemma split_at {A : Type} (k : nat) (l : list A) (d : A) :
  (k < List.length l)%nat ->
  l = firstn k l ++ nth k l d :: skipn (S k) l /\
  firstn (S k) l = firstn k l ++ [nth k l d].
Proof.
  revert l. induction k as [ | k IH]; intros [ | a l] Hk; cbn [List.length] in Hk; try lia.
  - split; reflexivity.
  - destruct (IH l ltac:(lia)) as [H1 H2]. split.
    + cbn [firstn nth skipn app]. f_equal. exact H1.
    + cbn [firstn nth app] in *. f_equal. exact H2.
Qed.

Lemma fade_ends_on_target (last target : color) (cs : list color) :
  fade_ok last target cs -> cs <> [] -> exists pre : list color, cs = pre ++ [target].
Proof.
  intros (Hr & Hg & Hb) Hne.
  destruct (exists_last Hne) as (pre & c & ->).
  exists pre. f_equal. f_equal.
  destruct Hr as (_ & Hr & _), Hg as (_ & Hg & _), Hb as (_ & Hb & _).
  rewrite map_app in Hr, Hg, Hb. cbn [map] in Hr, Hg, Hb.
  rewrite last_last in Hr, Hg, Hb.
  destruct c as [[r g] b], target as [[r' g'] b']. cbn in Hr, Hg, Hb. congruence.
Qed.

(** X9: in a fade, a delay that raises an [Exception] after its colour was
    written is handled like a write that fails: with the first [k - 1] steps
    answered and the [k]-th written, exactly the first [k] colours of the fade
    are written, the actuator drops its bulb and keeps the last commanded
    colour it had.  At [k = 10] the target itself has been written and is
    still not stored. *)
Theorem sleep_failure_mid_fade (E : env) (s : state) (last target : color)
        (k : nat) (e : exn) :
  magic_bulb (magic s) = true ->
  magic_last_color (magic s) = Some last ->
  color_ok last -> color_ok target ->
  (1 <= k <= 10)%nat ->
  fade_answered E s (k - 1) ->
  bulb_setRgb E (clock s + 2 * (k - 1))%nat = Ok tt ->
  time_sleep E (S (clock s + 2 * (k - 1)))%nat = Raise e ->
  is_Exception e = true ->
  exists cs : list color,
    map (fade_color last target) fade_steps = map Ok cs /\
    fst (set_color E target s) = Ok tt /\
    writes (trace (snd (set_color E target s))) = writes (trace s) ++ firstn k cs /\
    magic_bulb (magic (snd (set_color E target s))) = false /\
    magic_last_color (magic (snd (set_color E target s))) = Some last /\
    (k = 10%nat ->
     exists pre : list color,
       writes (trace (snd (set_color E target s))) = writes (trace s) ++ pre ++ [target]).
Proof.
  intros Hb Hl Hlast Htarget Hk Hans Hw Hs He.
  destruct (fade_color_values last target Hlast Htarget) as (cs & Hcs & Hok).
  assert (Hlen : List.length cs = 10%nat).
  { pose proof (f_equal (@List.length _) Hcs) as H. rewrite !length_map in H.
    rewrite <- H. reflexivity. }
  assert (Hsteps : List.length fade_steps = 10%nat) by reflexivity.
  destruct (split_at (k - 1) fade_steps 0 ltac:(lia)) as [Hsplit _].
  destruct (split_at (k - 1) cs target ltac:(lia)) as [_ Hfirst].
  replace (S (k - 1)) with k in Hfirst by lia.
  set (c := nth (k - 1) cs target) in *.
  assert (Hc : fade_color last target (nth (k - 1) fade_steps 0) = Ok c).
  { pose proof (f_equal (fun l => nth (k - 1) l (Ok target)) Hcs) as H. cbv beta in H.
    rewrite (nth_indep _ (Ok target) (fade_color last target 0)) in H
      by (rewrite length_map; lia).
    rewrite map_nth in H. rewrite H.
    change (Ok target) with ((@Ok color) target). rewrite map_nth. reflexivity. }
  assert (Hpre : map (fade_color last target) (firstn (k - 1) fade_steps)
                 = map Ok (firstn (k - 1) cs)).
  { rewrite <- !firstn_map, Hcs. reflexivity. }
  assert (Hplen : List.length (firstn (k - 1) fade_steps) = (k - 1)%nat)
    by (rewrite length_firstn; lia).
  assert (Hrun : set_color E target s =
                 (Ok tt,
                  mkState (icue s) (mkMagic (magic_ip (magic s)) false (Some last))
                          (S (S (clock s + 2 * (k - 1))))
                          ((trace s ++ fade_trace (firstn (k - 1) cs))
                             ++ [BulbSetRgb c; Sleep transition_delay_ms]))).
  { rewrite (set_color_fade E s last target Hb Hl).
    unfold bind at 1. rewrite Hsplit, fade_app.
    rewrite (fade_succeeds E last target _ _ s Hpre) by (rewrite Hplen; exact Hans).
    rewrite Hplen.
    change (fade E last target (nth (k - 1) fade_steps 0 :: skipn (S (k - 1)) fade_steps) ?s1)
      with (match fade_step E last target (nth (k - 1) fade_steps 0) s1 with
            | (Ok ok, s2) =>
                (if ok then fade E last target (skipn (S (k - 1)) fade_steps) else ret false) s2
            | (Raise e, s2) => (Raise e, s2)
            end).
    erewrite (fade_step_sleep_fails E last target c _ e);
      [ | exact Hc | exact Hw | exact Hs | exact He].
    cbn [icue magic clock trace magic_ip magic_last_color]. rewrite Hl. reflexivity. }
  exists cs. rewrite Hrun. cbn [fst snd trace magic magic_bulb magic_last_color].
  assert (Hwr : writes ((trace s ++ fade_trace (firstn (k - 1) cs))
                          ++ [BulbSetRgb c; Sleep transition_delay_ms])
                = writes (trace s) ++ firstn k cs).
  { rewrite !writes_app, writes_fade_trace, Hfirst, <- app_assoc. reflexivity. }
  rewrite Hwr. repeat split; try assumption.
  intros ->. rewrite <- Hlen, firstn_all.
  destruct (fade_ends_on_target last target cs Hok) as [pre ->].
  - intros ->. discriminate Hlen.
  - exists pre. reflexivity.
Qed.

Lemma sleep_failure_mid_fade_witness :
  exists cs : list color,
    map (fade_color black warm) fade_steps = map Ok cs /\
    fst (set_color tenth_delay_fails warm dark) = Ok tt /\
    writes (trace (snd (set_color tenth_delay_fails warm dark)))
    = writes (trace dark) ++ firstn 10 cs /\
    magic_bulb (magic (snd (set_color tenth_delay_fails warm dark))) = false /\
    magic_last_color (magic (snd (set_color tenth_delay_fails warm dark))) = Some black /\
    (10%nat = 10%nat ->
     exists pre : list color,
       writes (trace (snd (set_color tenth_delay_fails warm dark)))
       = writes (trace dark) ++ pre ++ [warm]).
Proof.
  apply (sleep_failure_mid_fade tenth_delay_fails dark black warm 10 DeviceError).
  - reflexivity.
  - reflexivity.
  - unfold color_ok, channel_ok. cbn. lia.
  - unfold color_ok, channel_ok. cbn. lia.
  - lia.
  - intros j Hj. cbn in Hj.
    do 9 (destruct j as [ | j]; [split; reflexivity | ]). lia.
  - reflexivity.
  - reflexivity.
  - reflexivity.
Defined.

(** ** A transition to the colour already shown *)

Lemma between_same (c : Z) (vs : list Z) :
  Forall (fun v => Z.min c c <= v <= Z.max c c) vs -> vs = repeat c (List.length vs).
Proof.
  induction 1 as [ | v vs Hv _ IH]; [reflexivity | ].
  cbn [List.length repeat]. rewrite <- IH. f_equal. lia.
Qed.

Lemma colors_of_channels (cs : list color) (c : color) :
  map red cs = repeat (red c) (List.length cs) ->
  map green cs = repeat (green c) (List.length cs) ->
  map blue cs = repeat (blue c) (List.length cs) ->
  cs = repeat c (List.length cs).
Proof.
  induction cs as [ | [[r g] b] cs IH]; [reflexivity | ].
  cbn [map List.length repeat]. intros Hr Hg Hb.
  injection Hr as Hr Hrs. injection Hg as Hg Hgs. injection Hb as Hb Hbs.
  rewrite <- (IH Hrs Hgs Hbs). destruct c as [[r' g'] b']. cbn in Hr, Hg, Hb.
  congruence.
Qed.

(** X10: the actuator does not compare the colour asked for with the one it
    stored: a transition to the last commanded colour itself still writes
    that colour ten times, with the ten delays between. *)
Theorem fade_to_same_colour (E : env) (s : state) (c : color) :
  magic_bulb (magic s) = true ->
  magic_last_color (magic s) = Some c ->
  color_ok c ->
  fade_answered E s 10 ->
  set_color E c s =
  (Ok tt, mkState (icue s) (magic s) (clock s + 20)%nat
                  (trace s ++ fade_trace (repeat c 10))) /\
  writes (trace (snd (set_color E c s))) = writes (trace s) ++ repeat c 10.
Proof.
  intros Hb Hl Hc Hans.
  destruct (fade_color_values c c Hc Hc) as (cs & Hcs & Hr & Hg & Hbl).
  assert (Hlen : List.length cs = 10%nat).
  { pose proof (f_equal (@List.length _) Hcs) as H. rewrite !length_map in H.
    rewrite <- H. reflexivity. }
  assert (Heq : cs = repeat c 10).
  { rewrite <- Hlen. apply colors_of_channels.
    - rewrite <- (length_map red cs). apply between_same. apply Hr.
    - rewrite <- (length_map green cs). apply between_same. apply Hg.
    - rewrite <- (length_map blue cs). apply between_same. apply Hbl. }
  subst cs.
  assert (Hrun : set_color E c s =
                 (Ok tt, mkState (icue s) (magic s) (clock s + 20)%nat
                                 (trace s ++ fade_trace (repeat c 10)))).
  { rewrite (set_color_fade E s c c Hb Hl).
    unfold bind at 1. rewrite (fade_succeeds E c c fade_steps _ s Hcs Hans).
    rewrite set_last_color_run. cbn [icue magic clock trace magic_ip magic_bulb].
    destruct s as [i [ip b l] k tr]. cbn in Hb, Hl. subst. reflexivity. }
  split; [exact Hrun | ].
  rewrite Hrun. cbn [snd trace]. rewrite writes_app, writes_fade_trace. reflexivity.
Qed.

Lemma fade_to_same_colour_witness :
  set_color calm warm (lit warm) =
  (Ok tt, mkState (icue (lit warm)) (magic (lit warm)) (clock (lit warm) + 20)%nat
                  (trace (lit warm) ++ fade_trace (repeat warm 10))) /\
  writes (trace (snd (set_color calm warm (lit warm))))
  = writes (trace (lit warm)) ++ repeat warm 10.
Proof.
  apply (fade_to_same_colour calm (lit warm) warm).
  - reflexivity.
  - reflexivity.
  - unfold color_ok, channel_ok. cbn. lia.
  - apply calm_fade_answered.
Defined.

(** ** A transition on an actuator that lost its bulb *)

(** X11: a failed transition leaves the actuator without a bulb and with the
    colour stored before it.  The next [set_color] on such an actuator first
    connects anew and then fades from that stored colour to its target, in
    ten steps, and stores the target. *)
Theorem reconnect_then_fade (E : env) (s : state) (last target : color) :
  magic_bulb (magic s) = false ->
  magic_last_color (magic s) = Some last ->
  color_ok last -> color_ok target ->
  bulb_new E (clock s) = Ok tt ->
  bulb_connect E (S (clock s)) = Ok tt ->
  fade_answered E (connected_state s) 10 ->
  exists cs : list color,
    map (fade_color last target) fade_steps = map Ok cs /\
    fade_ok last target cs /\
    set_color E target s =
    (Ok tt, mkState (icue s) (mkMagic (magic_ip (magic s)) true (Some target))
                    (clock s + 22)%nat
                    (trace s ++ [BulbNew (magic_ip (magic s)); BulbConnect] ++ fade_trace cs)).
Proof.
  intros Hb Hl Hlast Htarget Hn Hc Hans.
  destruct (fade_color_values last target Hlast Htarget) as (cs & Hcs & Hok).
  exists cs. split; [exact Hcs | ]. split; [exact Hok | ].
  destruct (set_color_connects E s target) as [Heq Hb'].
  { right. auto. }
  rewrite Heq.
  assert (Hl' : magic_last_color (magic (connected_state s)) = Some last).
  { unfold connected_state. rewrite Hb. exact Hl. }
  rewrite (set_color_fade E _ last target Hb' Hl').
  unfold bind at 1. rewrite (fade_succeeds E last target fade_steps cs _ Hcs Hans).
  rewrite set_last_color_run. unfold connected_state. rewrite Hb.
  cbn [icue magic clock trace magic_ip magic_bulb List.length fade_steps].
  f_equal. f_equal; [ | rewrite <- app_assoc; reflexivity].
  change (List.length fade_steps) with 10%nat. lia.
Qed.

Lemma reconnect_then_fade_witness :
  exists cs : list color,
    map (fade_color black warm) fade_steps = map Ok cs /\
    fade_ok black warm cs /\
    set_color calm warm (snd (set_color third_write_fails warm dark)) =
    (Ok tt,
     mkState (icue dark) (mkMagic (magic_ip (magic dark)) true (Some warm)) (5 + 22)%nat
             (trace (snd (set_color third_write_fails warm dark))
                ++ [BulbNew (magic_ip (magic dark)); BulbConnect] ++ fade_trace cs)).
Proof.
  apply (reconnect_then_fade calm (snd (set_color third_write_fails warm dark)) black warm).
  - reflexivity.
  - reflexivity.
  - unfold color_ok, channel_ok. cbn. lia.
  - unfold color_ok, channel_ok. cbn. lia.
  - reflexivity.
  - reflexivity.
  - apply calm_fade_answered.
Defined.

(** ** The two ends of [interpolate_color] *)

Lemma check_ends_all :
  forallb (fun s => forallb (check_ends s) channel_range) channel_range = true.
Proof. vm_compute. reflexivity. Qed.

Lemma to_Z_of_Z_channel (z : Z) : channel_ok z -> to_Z (of_Z z) = z.
Proof.
  intros Hz. rewrite Uint63.of_Z_spec. apply Z.mod_small.
  unfold channel_ok in Hz. change wB with 9223372036854775808. lia.
Qed.

Lemma interpolate_channel_ends (s e : Z) :
  channel_ok s -> channel_ok e ->
  interpolate_channel s e PrimFloat.zero = Ok s /\
  interpolate_channel s e PrimFloat.one = Ok e.
Proof.
  intros Hs He.
  pose proof (proj1 (forallb_forall _ _) check_ends_all s (In_channel_range s Hs)) as H.
  pose proof (proj1 (forallb_forall _ _) H e (In_channel_range e He)) as Hse.
  unfold check_ends in Hse.
  destruct (fast_channel (of_Z s) (of_Z e) PrimFloat.zero) as [v0 | ] eqn:H0;
    [ | discriminate Hse].
  destruct (fast_channel (of_Z s) (of_Z e) PrimFloat.one) as [v1 | ] eqn:H1;
    [ | discriminate Hse].
  apply andb_true_iff in Hse. destruct Hse as [E0 E1].
  apply Z.eqb_eq in E0, E1.
  apply fast_channel_correct in H0, H1.
  rewrite !to_Z_of_Z_channel in H0, H1 by assumption.
  rewrite E0 in H0. rewrite E1 in H1. split; assumption.
Qed.

(** X12: for colours within range, [interpolate_color] at progress [0.0] is
    the start colour and at progress [1.0] the end colour, exactly, in
    binary64 as in exact arithmetic. *)
Theorem interpolate_color_ends (start_color end_color : color) :
  color_ok start_color -> color_ok end_color ->
  interpolate_color start_color end_color PrimFloat.zero = Ok start_color /\
  interpolate_color start_color end_color PrimFloat.one = Ok end_color.
Proof.
  intros (Hr & Hg & Hb) (Hr' & Hg' & Hb'). unfold interpolate_color.
  destruct (interpolate_channel_ends _ _ Hr Hr') as [-> ->].
  destruct (interpolate_channel_ends _ _ Hg Hg') as [-> ->].
  destruct (interpolate_channel_ends _ _ Hb Hb') as [-> ->].
  cbn [rbind]. destruct start_color as [[r g] b], end_color as [[r' g'] b'].
  split; reflexivity.
Qed.

Lemma interpolate_color_ends_witness :
  interpolate_color warm black PrimFloat.zero = Ok warm /\
  interpolate_color warm black PrimFloat.one = Ok black.
Proof.
  apply (interpolate_color_ends warm black).
  - unfold color_ok, channel_ok. cbn. lia.
  - unfold color_ok, channel_ok. cbn. lia.
Defined.

(** * The loop, pass by pass *)

(** X13: a pass of the loop in which the LEDs read as they did the last time
    makes two calls, the read and the delay of a tenth of a second, and
    nothing else: no call to the bulb, not even an attempt to connect, and
    neither controller changes. *)
Theorem idle_tick (E : env) (s : state) (d : device) (leds : list led) :
  icue_device (icue s) = Some d ->
  icue_led_ids (icue s) <> [] ->
  sdk_get_led_colors E (clock s) = Ok (Some leds) ->
  leds <> [] ->
  icue_last_colors (icue s) = Some (map rgb leds) ->
  tick E s =
  (time_sleep E (S (clock s)),
   mkState (icue s) (magic s) (S (S (clock s)))
           (trace s ++ [SdkGetLedColors (device_id d) (icue_led_ids (icue s)); Sleep 100])).
Proof.
  intros Hd Hids Hread Hne Hlast.
  rewrite tick_unfold, (get_average_color_same E s d leds Hd Hids Hread Hne Hlast).
  unfold ret, call, after_call. cbn [icue magic clock trace].
  rewrite <- app_assoc. reflexivity.
Qed.

Lemma idle_tick_witness :
  let s := snd (tick calm fresh) in
  tick calm s =
  (time_sleep calm (S (clock s)),
   mkState (icue s) (magic s) (S (S (clock s)))
           (trace s ++ [SdkGetLedColors (device_id demo_device) (icue_led_ids (icue s));
                        Sleep 100])).
Proof.
  apply (idle_tick calm (snd (tick calm fresh)) demo_device red_green).
  - reflexivity.
  - discriminate.
  - reflexivity.
  - discriminate.
  - reflexivity.
Defined.

(** X14: the first pass of the loop, end to end.  With a reading of fewer
    than [2 ^ 45] LEDs within range, no reading stored, an actuator as its
    constructor leaves it and a bulb that answers, the pass reads the LEDs,
    connects the bulb, writes the truncated mean of the reading once, with no
    fade, and waits a tenth of a second; the reading and the colour are
    stored. *)
Theorem first_tick (E : env) (s : state) (d : device) (leds : list led) :
  icue_device (icue s) = Some d ->
  icue_led_ids (icue s) <> [] ->
  sdk_get_led_colors E (clock s) = Ok (Some leds) ->
  leds <> [] -> Forall led_ok leds -> len leds < 2 ^ 45 ->
  icue_last_colors (icue s) = None ->
  magic_bulb (magic s) = false ->
  magic_last_color (magic s) = None ->
  bulb_new E (S (clock s)) = Ok tt ->
  bulb_connect E (S (S (clock s))) = Ok tt ->
  bulb_setRgb E (S (S (S (clock s)))) = Ok tt ->
  tick E s =
  (time_sleep E (S (S (S (S (clock s))))),
   mkState (mkIcue (icue_device_id (icue s)) (Some d) (icue_led_ids (icue s))
                   (Some (map rgb leds)))
           (mkMagic (magic_ip (magic s)) true (Some (mean_color leds)))
           (S (S (S (S (S (clock s))))))
           (trace s ++ [SdkGetLedColors (device_id d) (icue_led_ids (icue s));
                        BulbNew (magic_ip (magic s)); BulbConnect;
                        BulbSetRgb (mean_color leds); Sleep 100])).
Proof.
  intros Hd Hids Hread Hne Hok Hlen Hlast Hb Hl Hn Hc Hw.
  rewrite tick_unfold.
  rewrite (get_average_color_new E s d leds (mean_color leds) Hd Hids Hread Hne).
  2:{ rewrite Hlast. discriminate. }
  2:{ apply average_color_exact; try assumption.
      eapply Z.lt_trans; [exact Hlen | reflexivity]. }
  unfold set_color, magic_connect. msimpl. rewrite Hb. msimpl. rewrite Hn. msimpl.
  rewrite Hc. msimpl. rewrite Hl. msimpl. rewrite Hw. msimpl.
  rewrite <- !app_assoc. reflexivity.
Qed.

Lemma first_tick_witness :
  tick calm fresh =
  (time_sleep calm 4%nat,
   mkState (mkIcue "kbd" (Some demo_device) [1; 2] (Some (map rgb red_green)))
           (mkMagic (magic_ip (magic fresh)) true (Some (mean_color red_green))) 5%nat
           (trace fresh ++ [SdkGetLedColors "kbd" [1; 2];
                            BulbNew (magic_ip (magic fresh)); BulbConnect;
                            BulbSetRgb (mean_color red_green); Sleep 100])).
Proof.
  apply (first_tick calm fresh demo_device red_green).
  - reflexivity.
  - discriminate.
  - reflexivity.
  - discriminate.
  - repeat constructor; cbn; lia.
  - reflexivity.
  - reflexivity.
  - reflexivity.
  - reflexivity.
  - reflexivity.
  - reflexivity.
  - reflexivity.
Defined.

(** * Ways the bridge ends *)

Lemma sdk_side_quiet (evs : list event) :
  forallb sdk_side evs = true ->
  writes evs = [] /\ turn_off_calls evs = 0%nat /\ turn_off_commands evs = 0%nat.
Proof.
  induction evs as [ | ev evs IH]; [repeat split | ].
  cbn [forallb]. intros H. apply andb_true_iff in H. destruct H as [Hev Hevs].
  destruct (IH Hevs) as (Hw & Ht & Hc).
  destruct ev; try discriminate Hev; cbn; repeat split; assumption.
Qed.

Lemma icue_init_sdk_side (E : env) (dev_id : string) (s : state) :
  magic (snd (icue_init E dev_id s)) = magic s /\
  exists evs : list event,
    trace (snd (icue_init E dev_id s)) = trace s ++ evs /\ forallb sdk_side evs = true.
Proof.
  unfold icue_init, find_device, find_all_led_ids.
  answers; cbn [snd magic trace]; (split; [reflexivity | ]);
    rewrite <- ?app_assoc; cbn [app]; eexists; (split; [reflexivity | reflexivity]).
Qed.

(** X15: when a constructor raises, [start_bridge] returns without entering
    the loop and without calling [turn_off]: an [Exception] is swallowed and
    the function returns normally, an interrupt passes through.  Up to then
    only the SDK was called; the actuator was neither built nor asked
    anything, and the strip is left as it is. *)
Theorem init_failure_returns (E : env) (dev_id ip : string) (fuel : nat) (s : state)
        (e : exn) :
  fst (bridge_init E dev_id ip s) = Raise e ->
  let s' := snd (bridge_init E dev_id ip s) in
  start_bridge E dev_id ip fuel s = Some (if is_Exception e then Ok tt else Raise e, s') /\
  magic s' = magic s /\
  (exists evs : list event, trace s' = trace s ++ evs /\ forallb sdk_side evs = true) /\
  turn_off_calls (trace s') = turn_off_calls (trace s) /\
  writes (trace s') = writes (trace s).
Proof.
  intros Hraise. cbv zeta. unfold start_bridge.
  assert (Hinit : bridge_init E dev_id ip s = (Raise e, snd (icue_init E dev_id s))).
  { unfold bridge_init in *. unfold bind in *.
    destruct (icue_init E dev_id s) as [[[] | e'] s1]; cbn [fst snd] in *.
    - unfold put_magic in Hraise. discriminate Hraise.
    - congruence. }
  rewrite Hinit. cbn [fst snd].
  destruct (icue_init_sdk_side E dev_id s) as (Hm & evs & Htr & Hside).
  destruct (sdk_side_quiet evs Hside) as (Hw & Ht & _).
  split; [destruct (is_Exception e); reflexivity | ].
  split; [exact Hm | ]. split; [exists evs; auto | ].
  rewrite Htr, turn_off_calls_app, writes_app, Hw, Ht, app_nil_r. split; [lia | reflexivity].
Qed.

Lemma init_failure_returns_witness :
  let s' := snd (bridge_init other_device "kbd" "192.168.1.20" fresh) in
  start_bridge other_device "kbd" "192.168.1.20" 7 fresh = Some (Ok tt, s') /\
  magic s' = magic fresh /\
  (exists evs : list event, trace s' = trace fresh ++ evs /\ forallb sdk_side evs = true) /\
  turn_off_calls (trace s') = turn_off_calls (trace fresh) /\
  writes (trace s') = writes (trace fresh).
Proof.
  apply (init_failure_returns other_device "kbd" "192.168.1.20" 7 fresh
           (RuntimeError "Device not found: kbd")).
  reflexivity.
Defined.

Lemma ticks_first_raises (E : env) (fuel : nat) (s s1 : state) (e : exn) :
  (1 <= fuel)%nat -> tick E s = (Raise e, s1) -> ticks E fuel s = (Raise e, s1).
Proof.
  intros Hfuel Htick. destruct fuel as [ | k]; [lia | ].
  cbn [ticks]. unfold bind. rewrite Htick. reflexivity.
Qed.

(** X16: the loop does not retry a reconnect.  When a read raises and the
    SDK then refuses the connection, the first pass raises out of
    [get_average_color] before its delay, the loop ends there, and the bridge
    calls [turn_off] once and returns. *)
Theorem refused_reconnect_ends_bridge (E : env) (s : state) (d : device) (e : exn)
        (fuel : nat) :
  icue_device (icue s) = Some d ->
  icue_led_ids (icue s) <> [] ->
  sdk_get_led_colors E (clock s) = Raise e ->
  is_Exception e = true ->
  sdk_disconnect E (S (clock s)) = Ok tt ->
  time_sleep E (S (S (clock s))) = Ok tt ->
  sdk_connect E (S (S (S (clock s)))) = Ok false ->
  (1 <= fuel)%nat ->
  let s1 := mkState (icue s) (magic s) (S (S (S (S (clock s)))))
                    (trace s ++ [SdkGetLedColors (device_id d) (icue_led_ids (icue s));
                                 SdkDisconnect; Sleep 2000; SdkConnect]) in
  ticks E fuel s = (Raise (RuntimeError "Could not connect to iCUE SDK"), s1) /\
  bridge_run E fuel s = Some (bridge_stop E s1) /\
  turn_off_calls (trace (snd (bridge_stop E s1))) = S (turn_off_calls (trace s)) /\
  (fst (bridge_stop E s1) = Ok tt \/ fst (bridge_stop E s1) = Raise KeyboardInterrupt).
Proof.
  intros Hd Hids Hread He Hdis Hsl Hconn Hfuel s1.
  assert (Htick : tick E s = (Raise (RuntimeError "Could not connect to iCUE SDK"), s1)).
  { rewrite tick_unfold, (get_average_color_read_raises E s d e Hd Hids Hread He).
    rewrite reconnect_then_none.
    rewrite (reconnect_refused_run E (after_call _ s)) by assumption.
    cbn [fst snd rbind after_call icue magic clock trace]. subst s1.
    rewrite <- app_assoc. reflexivity. }
  pose proof (ticks_first_raises E fuel s s1 _ Hfuel Htick) as Hticks.
  split; [exact Hticks | ]. split.
  - unfold bridge_run. rewrite Hticks. reflexivity.
  - destruct (bridge_stop_frame E s1) as (Hres & _ & Hsnd).
    split; [ | exact Hres]. rewrite Hsnd.
    destruct (turn_off_trace E s1) as (_ & _ & evs & Htr & Hsil).
    destruct (forallb_silent_calls evs Hsil) as (Hcalls & _).
    rewrite Htr. change (CallTurnOff :: evs) with ([CallTurnOff] ++ evs).
    rewrite !turn_off_calls_app, Hcalls. subst s1. cbn [trace].
    rewrite turn_off_calls_app. cbn. lia.
Qed.

Lemma refused_reconnect_ends_bridge_witness :
  let s1 := mkState (icue fresh) (magic fresh) 4%nat
                    (trace fresh ++ [SdkGetLedColors "kbd" [1; 2];
                                     SdkDisconnect; Sleep 2000; SdkConnect]) in
  ticks unplugged 3 fresh = (Raise (RuntimeError "Could not connect to iCUE SDK"), s1) /\
  bridge_run unplugged 3 fresh = Some (bridge_stop unplugged s1) /\
  turn_off_calls (trace (snd (bridge_stop unplugged s1))) = S (turn_off_calls (trace fresh)) /\
  (fst (bridge_stop unplugged s1) = Ok tt \/
   fst (bridge_stop unplugged s1) = Raise KeyboardInterrupt).
Proof.
  apply (refused_reconnect_ends_bridge unplugged fresh demo_device DeviceError 3).
  - reflexivity.
  - discriminate.
  - reflexivity.
  - reflexivity.
  - reflexivity.
  - reflexivity.
  - reflexivity.
  - lia.
Defined.

(** * The setup wizards *)

(** ** [icue_device_wizard] *)

Lemma icue_device_wizard_run (E : env) (s : state) :
  icue_device_wizard E s =
  match sdk_connect E (clock s) with
  | Ok true =>
      match time_sleep E (S (clock s)) with
      | Ok _ =>
          (match sdk_get_devices E (S (S (clock s))) with
           | Ok (Some (device :: _)) => Ok (device_id device)
           | Ok _ => Raise (RuntimeError "No iCUE devices found")
           | Raise e => Raise e
           end,
           mkState (icue s) (magic s) (S (S (S (clock s))))
                   (trace s ++ [SdkConnect; Sleep 1000; SdkGetDevices]))
      | Raise e => (Raise e, mkState (icue s) (magic s) (S (S (clock s)))
                                     (trace s ++ [SdkConnect; Sleep 1000]))
      end
  | Ok false => (Raise (RuntimeError "Could not connect to iCUE SDK"),
                 mkState (icue s) (magic s) (S (clock s)) (trace s ++ [SdkConnect]))
  | Raise e => (Raise e, mkState (icue s) (magic s) (S (clock s)) (trace s ++ [SdkConnect]))
  end.
Proof.
  unfold icue_device_wizard. msimpl.
  destruct (sdk_connect E (clock s)) as [[ | ] | e]; msimpl; try reflexivity.
  destruct (time_sleep E (S (clock s))) as [[] | e]; msimpl; rewrite <- ?app_assoc;
    try reflexivity.
  destruct (sdk_get_devices E (S (S (clock s)))) as [[[ | d l] | ] | e]; msimpl;
    rewrite <- ?app_assoc; reflexivity.
Qed.

(** X17: when the SDK accepts the connection and lists devices,
    [icue_device_wizard] returns the id of the first device listed, after a
    connect, a delay of one second and the listing, and leaves both
    controllers alone; it returns no other id.  When the SDK refuses the
    connection it raises at once, without listing; when the SDK lists nothing
    it raises [RuntimeError("No iCUE devices found")]. *)
Theorem icue_device_wizard_outcome (E : env) (s : state) :
  (forall (d : device) (rest : list device),
     sdk_connect E (clock s) = Ok true ->
     time_sleep E (S (clock s)) = Ok tt ->
     sdk_get_devices E (S (S (clock s))) = Ok (Some (d :: rest)) ->
     icue_device_wizard E s =
     (Ok (device_id d),
      mkState (icue s) (magic s) (S (S (S (clock s))))
              (trace s ++ [SdkConnect; Sleep 1000; SdkGetDevices]))) /\
  (forall id : string, fst (icue_device_wizard E s) = Ok id ->
     exists (d : device) (rest : list device),
       sdk_get_devices E (S (S (clock s))) = Ok (Some (d :: rest)) /\
       id = device_id d /\
       snd (icue_device_wizard E s) =
       mkState (icue s) (magic s) (S (S (S (clock s))))
               (trace s ++ [SdkConnect; Sleep 1000; SdkGetDevices])) /\
  (sdk_connect E (clock s) = Ok false ->
   icue_device_wizard E s =
   (Raise (RuntimeError "Could not connect to iCUE SDK"),
    mkState (icue s) (magic s) (S (clock s)) (trace s ++ [SdkConnect]))) /\
  (forall ol : option (list device),
     sdk_connect E (clock s) = Ok true ->
     time_sleep E (S (clock s)) = Ok tt ->
     sdk_get_devices E (S (S (clock s))) = Ok ol ->
     truthy ol = false ->
     fst (icue_device_wizard E s) = Raise (RuntimeError "No iCUE devices found")).
Proof.
  rewrite icue_device_wizard_run. split; [ | split; [ | split]].
  - intros d rest -> -> ->. reflexivity.
  - intros id.
    destruct (sdk_connect E (clock s)) as [[ | ] | e]; cbn [fst]; try discriminate.
    destruct (time_sleep E (S (clock s))) as [[] | e]; cbn [fst snd]; try discriminate.
    destruct (sdk_get_devices E (S (S (clock s)))) as [[[ | d l] | ] | e];
      try discriminate.
    intros H. injection H as <-. exists d, l. repeat split.
  - intros ->. reflexivity.
  - intros ol -> -> -> Hol.
    destruct ol as [[ | d l] | ]; [reflexivity | discriminate Hol | reflexivity].
Qed.

Lemma icue_device_wizard_outcome_witness :
  icue_device_wizard calm fresh =
  (Ok (device_id demo_device),
   mkState (icue fresh) (magic fresh) (S (S (S (clock fresh))))
           (trace fresh ++ [SdkConnect; Sleep 1000; SdkGetDevices])).
Proof.
  apply (proj1 (icue_device_wizard_outcome calm fresh) demo_device []); reflexivity.
Defined.

(** X18: the id the wizard chose is one the constructor accepts.  When the
    SDK, asked again by [iCueController.__init__], accepts the connection and
    lists the devices it listed to the wizard, the constructor returns and the
    controller holds the first listed device. *)
Theorem wizard_choice_accepted (E : env) (s s2 : state) (id : string)
        (ol : option (list Z)) :
  fst (icue_device_wizard E s) = Ok id ->
  sdk_connect E (clock s2) = Ok true ->
  time_sleep E (S (clock s2)) = Ok tt ->
  sdk_get_devices E (S (S (clock s2))) = sdk_get_devices E (S (S (clock s))) ->
  sdk_get_led_positions E (S (S (S (clock s2)))) = Ok ol ->
  exists (d : device) (rest : list device),
    sdk_get_devices E (S (S (clock s))) = Ok (Some (d :: rest)) /\
    fst (icue_init E id s2) = Ok tt /\
    icue (snd (icue_init E id s2)) = mkIcue id (Some d) (elements ol) None.
Proof.
  intros Hw Hc Hs Hdev Hpos.
  rewrite icue_device_wizard_run in Hw.
  destruct (sdk_connect E (clock s)) as [[ | ] | e]; cbn [fst] in Hw; try discriminate.
  destruct (time_sleep E (S (clock s))) as [[] | e]; cbn [fst] in Hw; try discriminate.
  destruct (sdk_get_devices E (S (S (clock s)))) as [[[ | d l] | ] | e];
    try discriminate.
  injection Hw as <-. exists d, l. split; [reflexivity | ].
  unfold icue_init, find_device, find_all_led_ids. msimpl.
  rewrite Hc. msimpl. rewrite Hs. msimpl. rewrite Hdev. msimpl.
  cbn [truthy elements find device_id]. rewrite String.eqb_refl. msimpl.
  rewrite Hpos. msimpl.
  destruct (truthy ol) eqn:Ht; msimpl; split; try reflexivity.
  rewrite (truthy_elements ol Ht). reflexivity.
Qed.

Lemma wizard_choice_accepted_witness :
  exists (d : device) (rest : list device),
    sdk_get_devices calm (S (S (clock fresh))) = Ok (Some (d :: rest)) /\
    fst (icue_init calm "kbd" (snd (icue_device_wizard calm fresh))) = Ok tt /\
    icue (snd (icue_init calm "kbd" (snd (icue_device_wizard calm fresh))))
    = mkIcue "kbd" (Some d) (elements (Some [1; 2])) None.
Proof.
  apply (wizard_choice_accepted calm fresh (snd (icue_device_wizard calm fresh)) "kbd"
           (Some [1; 2])); reflexivity.
Defined.

(** ** [magichome_ip_wizard] *)

Lemma ipaddrs_in (devices : list dict) (ips : list string) (ip : string) :
  ipaddrs devices = Some ips -> In ip ips ->
  exists device : dict, In device devices /\ dict_get "ipaddr" device = Some ip.
Proof.
  revert ips. induction devices as [ | d devices IH]; intros ips; cbn [ipaddrs].
  - intros H. injection H as <-. contradiction.
  - destruct (dict_get "ipaddr" d) as [ip0 | ] eqn:Hd; [ | discriminate].
    destruct (ipaddrs devices) as [ips0 | ]; [ | discriminate].
    intros H. injection H as <-. intros [<- | Hin].
    + exists d. split; [left; reflexivity | exact Hd].
    + destruct (IH ips0 eq_refl Hin) as (d' & Hin' & Hd').
      exists d'. split; [right; exact Hin' | exact Hd'].
Qed.

Lemma ask_outcome (parse : string -> option Z) (C : console) (ips : list string)
      (n fuel : nat) (r : (string + raised)%type) (m : nat) :
  ask parse C ips n fuel = Some (r, m) ->
  (n < m)%nat /\
  match r with
  | inl ip => In ip ips
  | inr (Exn e) => console_input C (m - 1) = Raise e
  | inr (KeyError _) => False
  end.
Proof.
  revert n. induction fuel as [ | fuel IH]; intros n; cbn [ask]; [discriminate | ].
  destruct (console_input C n) as [choice | e] eqn:Hin.
  - destruct (parse choice) as [i | ].
    + destruct ((0 <=? i) && (i <? len ips)) eqn:Hi.
      * intros H. injection H as <- <-. split; [lia | ].
        apply andb_true_iff in Hi. destruct Hi as [H0 H1].
        apply nth_In. unfold len in H1. lia.
      * intros H. destruct (IH _ H) as [Hlt Hr]. split; [lia | exact Hr].
    + intros H. destruct (IH _ H) as [Hlt Hr]. split; [lia | exact Hr].
  - intros H. injection H as <- <-. split; [lia | ].
    replace (S n - 1)%nat with n by lia. exact Hin.
Qed.

(** X19: whatever the network and the user answer, an address
    [magichome_ip_wizard] returns is the ['ipaddr'] of a controller the scan
    found, and the only exceptions that leave it are the [RuntimeError] of its
    last line and an interrupt: every [Exception] inside, an empty scan and a
    controller without address included, is turned into that
    [RuntimeError]. *)
Theorem ip_wizard_safe (parse : string -> option Z) (C : console) (fuel n : nat)
        (r : result string) :
  magichome_ip_wizard parse C fuel = Some (r, n) ->
  match r with
  | Ok ip =>
      exists (devices : list dict) (device : dict),
        scanner_getBulbInfo C = Ok devices /\ In device devices /\
        dict_get "ipaddr" device = Some ip
  | Raise e => e = RuntimeError no_controllers \/ e = KeyboardInterrupt
  end.
Proof.
  unfold magichome_ip_wizard.
  destruct (wizard_body parse C fuel) as [[[ip | rz] m] | ] eqn:Hbody; [ | | discriminate].
  - intros H. injection H as <- <-.
    unfold wizard_body in Hbody.
    destruct (scanner_new C) as [[] | e]; [ | discriminate].
    destruct (scanner_scan C) as [[] | e]; [ | discriminate].
    destruct (scanner_getBulbInfo C) as [[ | d devices] | e]; try discriminate.
    destruct (ipaddrs (d :: devices)) as [ips | ] eqn:Hips; [ | discriminate].
    assert (Hin : In ip ips).
    { destruct ips as [ | ip0 [ | ip1 ips]].
      - apply ask_outcome in Hbody. apply Hbody.
      - injection Hbody as <- _. left. reflexivity.
      - apply ask_outcome in Hbody. apply Hbody. }
    destruct (ipaddrs_in _ _ _ Hips Hin) as (device & Hd & Hget).
    exists (d :: devices), device. auto.
  - intros H. injection H as <- <-.
    destruct rz as [e | k]; cbn [is_Exception_raised]; [ | left; reflexivity].
    destruct (is_Exception e) eqn:He; [left; reflexivity | ].
    right. apply is_Exception_false. exact He.
Qed.

Lemma ask_skips (parse : string -> option Z) (C : console) (ips : list string)
      (k n fuel : nat) :
  (forall j : nat, (n <= j < n + k)%nat ->
     exists choice : string,
       console_input C j = Ok choice /\ valid_choice parse ips choice = false) ->
  ask parse C ips n (k + fuel) = ask parse C ips (n + k) fuel.
Proof.
  revert n. induction k as [ | k IH]; intros n Hbad.
  - rewrite Nat.add_0_r. reflexivity.
  - cbn [Nat.add ask].
    destruct (Hbad n ltac:(lia)) as (choice & -> & Hv).
    unfold valid_choice in Hv.
    replace (n + S k)%nat with (S n + k)%nat by lia.
    destruct (parse choice) as [i | ]; [rewrite Hv | ]; apply IH;
      intros j Hj; apply Hbad; lia.
Qed.

(** X20: with one controller found the wizard returns its address without
    asking.  With several it returns the address whose index the user types,
    asking again after every answer that [int] does not read or that is not
    an index of the list: after [k] such answers and one that is accepted it
    has asked [k + 1] times. *)
Theorem ip_wizard_choice (parse : string -> option Z) (C : console)
        (devices : list dict) (ips : list string) :
  scanner_new C = Ok tt -> scanner_scan C = Ok tt ->
  scanner_getBulbInfo C = Ok devices ->
  ipaddrs devices = Some ips ->
  (forall (ip : string) (fuel : nat),
     ips = [ip] -> magichome_ip_wizard parse C fuel = Some (Ok ip, O)) /\
  (forall (k fuel : nat) (choice : string) (i : Z),
     (2 <= List.length ips)%nat ->
     (forall j : nat, (j < k)%nat ->
        exists bad : string,
          console_input C j = Ok bad /\ valid_choice parse ips bad = false) ->
     console_input C k = Ok choice ->
     parse choice = Some i -> 0 <= i < len ips ->
     (k < fuel)%nat ->
     magichome_ip_wizard parse C fuel = Some (Ok (nth (Z.to_nat i) ips EmptyString), S k)).
Proof.
  intros Hn Hs Hi Hips. split.
  - intros ip fuel ->. unfold magichome_ip_wizard, wizard_body.
    rewrite Hn, Hs, Hi. destruct devices as [ | d devices]; [discriminate Hips | ].
    rewrite Hips. reflexivity.
  - intros k fuel choice i Hlen Hbad Hin Hparse Hrange Hfuel.
    unfold magichome_ip_wizard, wizard_body. rewrite Hn, Hs, Hi.
    destruct devices as [ | d devices].
    { injection Hips as <-. cbn in Hlen. lia. }
    rewrite Hips.
    destruct ips as [ | ip0 [ | ip1 ips]]; cbn [List.length] in Hlen; try lia.
    replace fuel with (k + S (fuel - S k))%nat by lia.
    rewrite ask_skips by (intros j Hj; apply Hbad; lia).
    cbn [Nat.add ask]. rewrite Hin, Hparse.
    replace ((0 <=? i) && (i <? len (ip0 :: ip1 :: ips))) with true
      by (symmetry; apply andb_true_iff; split; lia).
    reflexivity.
Qed.

Lemma ip_wizard_safe_witness :
  exists (devices : list dict) (device : dict),
    scanner_getBulbInfo two_bulbs = Ok devices /\ In device devices /\
    dict_get "ipaddr" device = Some "192.168.1.21"%string.
Proof.
  apply (ip_wizard_safe digit two_bulbs 3 3 (Ok "192.168.1.21"%string)).
  reflexivity.
Defined.

Lemma ip_wizard_choice_witness :
  magichome_ip_wizard digit two_bulbs 5
  = Some (Ok (nth (Z.to_nat 1) ["192.168.1.20"; "192.168.1.21"] EmptyString)%string, 3%nat).
Proof.
  refine (proj2 (ip_wizard_choice digit two_bulbs _ ["192.168.1.20"; "192.168.1.21"]%string
                   eq_refl eq_refl eq_refl eq_refl)
                2%nat 5%nat "1"%string 1 _ _ eq_refl eq_refl _ _).
  - cbn. lia.
  - intros j Hj. destruct j as [ | [ | j]]; [ | | lia].
    + exists "x"%string. split; reflexivity.
    + exists "5"%string. split; reflexivity.
  - cbn. lia.
  - lia.
Defined.

(** * A pass that changes the colour *)

(** X21: a pass of the loop that reads a new colour, on a connected actuator
    with a colour stored, makes twenty-two calls: the read, the ten writes of
    the fade from the stored colour to the truncated mean of the reading,
    each followed by its delay, and the delay of the loop; the reading and
    the mean are stored. *)
Theorem changed_tick (E : env) (s : state) (d : device) (leds : list led) (last : color) :
  icue_device (icue s) = Some d ->
  icue_led_ids (icue s) <> [] ->
  sdk_get_led_colors E (clock s) = Ok (Some leds) ->
  leds <> [] -> Forall led_ok leds -> len leds < 2 ^ 45 ->
  icue_last_colors (icue s) <> Some (map rgb leds) ->
  magic_bulb (magic s) = true ->
  magic_last_color (magic s) = Some last ->
  color_ok last ->
  fade_answered E (after_call (SdkGetLedColors (device_id d) (icue_led_ids (icue s))) s) 10 ->
  exists cs : list color,
    map (fade_color last (mean_color leds)) fade_steps = map Ok cs /\
    fade_ok last (mean_color leds) cs /\
    tick E s =
    (time_sleep E (clock s + 21)%nat,
     mkState (mkIcue (icue_device_id (icue s)) (Some d) (icue_led_ids (icue s))
                     (Some (map rgb leds)))
             (mkMagic (magic_ip (magic s)) true (Some (mean_color leds)))
             (clock s + 22)%nat
             (trace s ++ [SdkGetLedColors (device_id d) (icue_led_ids (icue s))]
                ++ fade_trace cs ++ [Sleep 100])).
Proof.
  intros Hd Hids Hread Hne Hok Hlen Hlast Hb Hl Hlok Hans.
  assert (Hlen' : len leds < 2 ^ 46) by (eapply Z.lt_trans; [exact Hlen | reflexivity]).
  pose proof (average_color_exact leds Hne Hok Hlen') as Havg.
  assert (Hmean : color_ok (mean_color leds)).
  { destruct (average_color_range leds Hne Hok) as (c & Hc & Hcok). congruence. }
  destruct (fade_color_values last (mean_color leds) Hlok Hmean) as (cs & Hcs & Hfade).
  exists cs. split; [exact Hcs | ]. split; [exact Hfade | ].
  rewrite tick_unfold.
  rewrite (get_average_color_new E s d leds (mean_color leds) Hd Hids Hread Hne Hlast Havg).
  set (s1 := mkState _ (magic s) (S (clock s)) _).
  assert (Hset : set_color E (mean_color leds) s1 =
                 (Ok tt, mkState (icue s1)
                           (mkMagic (magic_ip (magic s)) true (Some (mean_color leds)))
                           (clock s1 + 2 * List.length fade_steps)%nat
                           (trace s1 ++ fade_trace cs))).
  { rewrite (set_color_fade E s1 last (mean_color leds) Hb Hl).
    unfold bind at 1. rewrite (fade_succeeds E last (mean_color leds) fade_steps cs s1 Hcs Hans).
    rewrite set_last_color_run. subst s1. cbn [icue magic clock trace magic_ip magic_bulb].
    rewrite Hb. reflexivity. }
  rewrite Hset. unfold call. subst s1. cbn [icue magic clock trace].
  change (List.length fade_steps) with 10%nat.
  replace (S (clock s) + 2 * 10)%nat with (clock s + 21)%nat by lia.
  replace (S (clock s + 21)) with (clock s + 22)%nat by lia.
  rewrite <- !app_assoc. reflexivity.
Qed.

Lemma changed_tick_witness :
  exists cs : list color,
    map (fade_color warm (mean_color red_green)) fade_steps = map Ok cs /\
    fade_ok warm (mean_color red_green) cs /\
    tick calm (lit warm) =
    (time_sleep calm (clock (lit warm) + 21)%nat,
     mkState (mkIcue "kbd" (Some demo_device) [1; 2] (Some (map rgb red_green)))
             (mkMagic (magic_ip (magic (lit warm))) true (Some (mean_color red_green)))
             (clock (lit warm) + 22)%nat
             (trace (lit warm) ++ [SdkGetLedColors "kbd" [1; 2]]
                ++ fade_trace cs ++ [Sleep 100])).
Proof.
  apply (changed_tick calm (lit warm) demo_device red_green warm).
  - reflexivity.
  - discriminate.
  - reflexivity.
  - discriminate.
  - repeat constructor; cbn; lia.
  - reflexivity.
  - discriminate.
  - reflexivity.
  - reflexivity.
  - unfold color_ok, channel_ok. cbn. lia.
  - apply calm_fade_answered.
Defined.

(** * Each controller keeps to its side *)

Lemma grows_by_refl (kind : event -> bool) (s : state) : grows_by kind s s.
Proof. exists []. rewrite app_nil_r. split; reflexivity. Qed.

Lemma grows_by_trans (kind : event -> bool) (s1 s2 s3 : state) :
  grows_by kind s1 s2 -> grows_by kind s2 s3 -> grows_by kind s1 s3.
Proof.
  intros (evs & H1 & K1) (evs' & H2 & K2). exists (evs ++ evs').
  rewrite H2, H1, app_assoc, forallb_app, K1, K2. split; reflexivity.
Qed.

Ltac grows_leaf :=
  cbn [snd magic icue trace magic_ip]; try (split; [reflexivity | ]);
  try (split; [reflexivity | ]);
  rewrite <- ?app_assoc; cbn [app];
  first [ apply grows_by_refl | eexists; split; [reflexivity | reflexivity] ].

Lemma sdk_only_refl (s : state) : sdk_only s s.
Proof. split; [reflexivity | apply grows_by_refl]. Qed.

Lemma sdk_only_trans (s1 s2 s3 : state) :
  sdk_only s1 s2 -> sdk_only s2 s3 -> sdk_only s1 s3.
Proof.
  intros [M1 G1] [M2 G2]. split; [congruence | ].
  exact (grows_by_trans _ _ _ _ G1 G2).
Qed.

Lemma reconnect_sdk_only (E : env) (s : state) : sdk_only s (snd (reconnect E s)).
Proof.
  unfold sdk_only, reconnect, find_device, find_all_led_ids, grows_by.
  answers; grows_leaf.
Qed.

Lemma reconnect_none_sdk_only (E : env) (s : state) :
  sdk_only s (snd ((reconnect E ;; ret (@None color)) s)).
Proof. rewrite reconnect_then_none. apply reconnect_sdk_only. Qed.

Lemma read_colors_sdk_only (E : env) (d : device) (s : state) :
  sdk_only s (snd (read_colors E d s)).
Proof.
  unfold read_colors. unfold bind at 1, get_icue. unfold bind at 1, call.
  set (s1 := mkState _ _ _ _).
  assert (H1 : sdk_only s s1).
  { split; [reflexivity | ]. eexists. split; reflexivity. }
  destruct (sdk_get_led_colors E (clock s)) as [ol | e]; [ | exact H1].
  destruct (negb (truthy ol)).
  - eapply sdk_only_trans; [exact H1 | apply reconnect_none_sdk_only].
  - eapply sdk_only_trans; [exact H1 | ].
    unfold sample_colors. msimpl.
    destruct (colors_eqb _ _); msimpl; [apply sdk_only_refl | ].
    destruct (average_color (elements ol)); cbn [snd];
      (split; [reflexivity | exists []; rewrite app_nil_r; split; reflexivity]).
Qed.

(** X22: [get_average_color] keeps to the SDK: whatever happens, the calls
    it makes are calls to the SDK and delays, and the actuator, its bulb and
    its stored colour are as they were. *)
Theorem source_keeps_to_sdk (E : env) (s : state) :
  magic (snd (get_average_color E s)) = magic s /\
  grows_by sdk_side s (snd (get_average_color E s)).
Proof.
  change (sdk_only s (snd (get_average_color E s))).
  unfold get_average_color. unfold bind at 1, get_icue.
  destruct (icue_device (icue s)) as [d | ]; [ | apply reconnect_none_sdk_only].
  destruct (icue_led_ids (icue s)); [apply reconnect_none_sdk_only | ].
  unfold try_except.
  pose proof (read_colors_sdk_only E d s) as Hr.
  destruct (read_colors E d s) as [[c | e] s1]; cbn [snd] in Hr |- *; [exact Hr | ].
  destruct (is_Exception e); [ | exact Hr].
  eapply sdk_only_trans; [exact Hr | apply reconnect_none_sdk_only].
Qed.

Lemma bulb_only_refl (s : state) : bulb_only s s.
Proof. repeat split. apply grows_by_refl. Qed.

Lemma bulb_only_trans (s1 s2 s3 : state) :
  bulb_only s1 s2 -> bulb_only s2 s3 -> bulb_only s1 s3.
Proof.
  intros (I1 & M1 & G1) (I2 & M2 & G2). split; [congruence | split; [congruence | ]].
  exact (grows_by_trans _ _ _ _ G1 G2).
Qed.

Lemma connect_attempt_bulb_only (E : env) (s : state) :
  bulb_only s (snd ((if negb (magic_bulb (magic s)) then magic_connect E else ret tt) s)).
Proof.
  destruct (magic_bulb (magic s)); cbn [negb]; [apply bulb_only_refl | ].
  unfold bulb_only, grows_by. rewrite magic_connect_run. cbv zeta.
  destruct (bulb_new E (clock s)) as [[] | e];
    [destruct (bulb_connect E (S (clock s))) as [[] | e] | ]; grows_leaf.
Qed.

Lemma fade_step_bulb_only (E : env) (last target : color) (step : Z) (s : state) :
  bulb_only s (snd (fade_step E last target step s)).
Proof.
  unfold fade_step. unfold bind at 1, lift.
  destruct (fade_color last target step) as [c | e]; [ | apply bulb_only_refl].
  unfold bulb_only, grows_by. answers; grows_leaf.
Qed.

Lemma fade_bulb_only (E : env) (last target : color) (steps : list Z) (s : state) :
  bulb_only s (snd (fade E last target steps s)).
Proof.
  revert s. induction steps as [ | step steps IH]; intros s; [apply bulb_only_refl | ].
  change (fade E last target (step :: steps) s)
    with (match fade_step E last target step s with
          | (Ok ok, s1) => (if ok then fade E last target steps else ret false) s1
          | (Raise e, s1) => (Raise e, s1)
          end).
  pose proof (fade_step_bulb_only E last target step s) as Hstep.
  destruct (fade_step E last target step s) as [[[ | ] | e] s1]; cbn [snd] in *;
    [ | exact Hstep | exact Hstep].
  eapply bulb_only_trans; [exact Hstep | apply IH].
Qed.

Lemma direct_write_bulb_only (E : env) (c : color) (s : state) :
  bulb_only s (snd (direct_write E c s)).
Proof. unfold direct_write, bulb_only, grows_by. answers; grows_leaf. Qed.

(** X23: the actuator keeps to the bulb: whatever happens, the calls
    [set_color] and [turn_off] make are calls to the bulb and delays, the
    address is kept, and the source controller, its device, LED ids and
    stored reading are as they were. *)
Theorem actuator_keeps_to_bulb (E : env) (c : color) (s : state) :
  (icue (snd (set_color E c s)) = icue s /\
   magic_ip (magic (snd (set_color E c s))) = magic_ip (magic s) /\
   grows_by bulb_side s (snd (set_color E c s))) /\
  (icue (snd (turn_off E s)) = icue s /\
   magic_ip (magic (snd (turn_off E s))) = magic_ip (magic s) /\
   grows_by bulb_side s (snd (turn_off E s))).
Proof.
  split.
  - change (bulb_only s (snd (set_color E c s))). rewrite set_color_unfold.
    pose proof (connect_attempt_bulb_only E s) as Hconn.
    destruct ((if negb (magic_bulb (magic s)) then magic_connect E else ret tt) s)
      as [[[] | e] s1]; cbn [snd] in *; [ | exact Hconn].
    destruct (negb (magic_bulb (magic s1))); [exact Hconn | ].
    assert (Hrun : bulb_only s1 (snd ((match magic_last_color (magic s1) with
                                       | Some last => fade E last c fade_steps
                                       | None => direct_write E c
                                       end) s1))).
    { destruct (magic_last_color (magic s1));
        [apply fade_bulb_only | apply direct_write_bulb_only]. }
    destruct ((match magic_last_color (magic s1) with
               | Some last => fade E last c fade_steps
               | None => direct_write E c
               end) s1) as [[[ | ] | e] s2]; cbn [snd] in *.
    + rewrite set_last_color_run. cbn [snd].
      eapply bulb_only_trans; [exact Hconn | ].
      eapply bulb_only_trans; [exact Hrun | ].
      unfold bulb_only. cbn [icue magic magic_ip trace].
      split; [reflexivity | split; [reflexivity | ]].
      exists []. cbn [trace]. rewrite app_nil_r. split; reflexivity.
    + eapply bulb_only_trans; [exact Hconn | exact Hrun].
    + eapply bulb_only_trans; [exact Hconn | exact Hrun].
  - unfold turn_off, magic_connect, grows_by. answers; grows_leaf.
Qed.
